(** * Session pool manager of the bot swarm: a shallow embedding

    The development follows the JavaScript sources.
    - [ass.js] holds two versions of the program. [Module Ultra] embeds
      the first one (classes [UltraBot] and [UltraCommandInterface], the
      proxy collection and the spawn scheduler). The second version
      differs from it in [connect], which creates the client at once
      instead of pinging the server first, and in [spawnBot], which adds
      no random delay; the listeners, [attemptReconnect], the command
      interface and the relay assignment are the same.
    - [botattack.js] (classes [EnhancedBot] and [CommandInterface]) is
      embedded in [Module Enhanced].
    - [Module Proxies] embeds the proxy phase of [main] (the proxy file,
      the batches and the test loop), [Module Console] the parsing of the
      operator's lines and the macros of [UltraCommandInterface],
      [Module ServerCheck] and [Module Names] the functions
      [checkServerStatus] and [generateUsername], and [Module Config]
      the reading of the command line by [main].

    JavaScript strings are sequences of UTF-16 code units. Objects live
    in a store and are named by reference, so that a bot dropped from the
    member list is still there for its own callbacks. Timers and promises
    are entries of a list of pending callbacks; the event loop runs them
    one at a time, in any order. What the protocol client, the network
    and the random generator decide comes in with the event. *)

From Stdlib Require Import NArith List Lia Bool String Ascii.
From stdpp Require Import base tactics option list gmap.
Import ListNotations.
Open Scope nat_scope.

(** ** JavaScript strings *)

(** A string is the list of its UTF-16 code units. *)
Abbreviation jsstring := (list N).

(** A literal of the source, written as a Rocq string. *)
Definition js (s : string) : jsstring :=
  map N_of_ascii (list_ascii_of_string s).

(** [p] is a prefix of [s], as a boolean. *)
Fixpoint startsWith (s p : jsstring) : bool :=
  match p, s with
  | [], _ => true
  | _ :: _, [] => false
  | x :: p', y :: s' => N.eqb x y && startsWith s' p'
  end.

(** [String.prototype.includes]: [p] occurs in [s] as a substring. *)
Fixpoint includes (s p : jsstring) : bool :=
  startsWith s p ||
  match s with
  | [] => false
  | _ :: s' => includes s' p
  end.

(** [s.split('').reverse().join('')] *)
Definition reverse_string (s : jsstring) : jsstring := rev s.

(** Code units removed by [String.prototype.trim]: the WhiteSpace and
    LineTerminator productions of ECMAScript. *)
Definition is_whitespace (c : N) : bool :=
  existsb (N.eqb c)
    [9; 10; 11; 12; 13; 32; 160; 5760; 8192; 8193; 8194; 8195; 8196; 8197;
     8198; 8199; 8200; 8201; 8202; 8232; 8233; 8239; 8287; 12288; 65279]%N.

Fixpoint trimStart (s : jsstring) : jsstring :=
  match s with
  | [] => []
  | c :: s' => if is_whitespace c then trimStart s' else s
  end.

Definition trim (s : jsstring) : jsstring :=
  rev (trimStart (rev (trimStart s))).

Definition newline : N := 10%N.
Definition colon : N := 58%N.
Definition dot : N := 46%N.

(** [data.split('\n')]: the segments between line feeds; the empty string
    splits into one empty segment. *)
Fixpoint split_lines (s : jsstring) : list jsstring :=
  match s with
  | [] => [[]]
  | c :: s' =>
      if N.eqb c newline then [] :: split_lines s'
      else match split_lines s' with
           | [] => [[c]]
           | l :: ls => (c :: l) :: ls
           end
  end.

(** ** Regular expressions

    The pattern of [fetchFromUrl] is kept as a regular expression and run
    by a derivative matcher; [^] and [$] anchor it to the whole line. *)

Inductive regex : Type :=
| Void : regex
| Eps : regex
| Class : (N -> bool) -> regex
| Alt : regex -> regex -> regex
| Cat : regex -> regex -> regex
| Star : regex -> regex.

Fixpoint nullable (r : regex) : bool :=
  match r with
  | Void => false
  | Eps => true
  | Class _ => false
  | Alt r1 r2 => nullable r1 || nullable r2
  | Cat r1 r2 => nullable r1 && nullable r2
  | Star _ => true
  end.

Fixpoint deriv (c : N) (r : regex) : regex :=
  match r with
  | Void => Void
  | Eps => Void
  | Class p => if p c then Eps else Void
  | Alt r1 r2 => Alt (deriv c r1) (deriv c r2)
  | Cat r1 r2 =>
      if nullable r1
      then Alt (Cat (deriv c r1) r2) (deriv c r2)
      else Cat (deriv c r1) r2
  | Star r1 => Cat (deriv c r1) (Star r1)
  end.

(** [/^r$/.test(s)] *)
Fixpoint test (r : regex) (s : jsstring) : bool :=
  match s with
  | [] => nullable r
  | c :: s' => test (deriv c r) s'
  end.

(** [\d] *)
Definition is_digit (c : N) : bool := N.leb 48 c && N.leb c 57.
Definition digit : regex := Class is_digit.
(** [r+] *)
Definition Plus (r : regex) : regex := Cat r (Star r).
(** An escaped literal character such as [\.], or a plain one such as [:]. *)
Definition Lit (c : N) : regex := Class (N.eqb c).

(** [/^\d+\.\d+\.\d+\.\d+:\d+$/] *)
Definition ip_port_regex : regex :=
  Cat (Plus digit) (Cat (Lit dot)
  (Cat (Plus digit) (Cat (Lit dot)
  (Cat (Plus digit) (Cat (Lit dot)
  (Cat (Plus digit) (Cat (Lit colon)
  (Plus digit)))))))).

(** ASCII letters folded to lower case. [String.prototype.toLowerCase] also
    maps letters outside ASCII; the only use of it in the sources decides
    whether a console line is printed. *)
Definition toLowerCase (s : jsstring) : jsstring :=
  map (fun c => if N.leb 65 c && N.leb c 90 then (c + 32)%N else c) s.

Definition is_Some_b {A} (o : option A) : bool :=
  match o with Some _ => true | None => false end.

(** What a call returns to its caller: a method without [return value]
    returns [undefined]. *)
Inductive jsvalue : Type :=
| undefined : jsvalue
| number : nat -> jsvalue.

(** * [ass.js]: [UltraBot], [UltraCommandInterface] and the spawn scheduler *)

Module Ultra.

(** ** Data *)

(** The process-wide [stats] object ([uptime], the start time, is left
    out: it is never written after creation). *)
Record Stats : Type := {
  sent : nat;
  joined : nat;
  kicked : nat;
  timeout : nat;
  failed : nat;
  proxiesFound : nat;
  proxiesWorking : nat;
  messagesSent : nat;
  commandsExecuted : nat;
  reconnects : nat }.

Definition stats0 : Stats :=
  {| sent := 0; joined := 0; kicked := 0; timeout := 0; failed := 0;
     proxiesFound := 0; proxiesWorking := 0; messagesSent := 0;
     commandsExecuted := 0; reconnects := 0 |}.

Definition set_sent v (x : Stats) : Stats :=
  {| sent := v;
     joined := joined x;
     kicked := kicked x;
     timeout := timeout x;
     failed := failed x;
     proxiesFound := proxiesFound x;
     proxiesWorking := proxiesWorking x;
     messagesSent := messagesSent x;
     commandsExecuted := commandsExecuted x;
     reconnects := reconnects x |}.

Definition set_joined v (x : Stats) : Stats :=
  {| sent := sent x;
     joined := v;
     kicked := kicked x;
     timeout := timeout x;
     failed := failed x;
     proxiesFound := proxiesFound x;
     proxiesWorking := proxiesWorking x;
     messagesSent := messagesSent x;
     commandsExecuted := commandsExecuted x;
     reconnects := reconnects x |}.

Definition set_kicked v (x : Stats) : Stats :=
  {| sent := sent x;
     joined := joined x;
     kicked := v;
     timeout := timeout x;
     failed := failed x;
     proxiesFound := proxiesFound x;
     proxiesWorking := proxiesWorking x;
     messagesSent := messagesSent x;
     commandsExecuted := commandsExecuted x;
     reconnects := reconnects x |}.

Definition set_timeout v (x : Stats) : Stats :=
  {| sent := sent x;
     joined := joined x;
     kicked := kicked x;
     timeout := v;
     failed := failed x;
     proxiesFound := proxiesFound x;
     proxiesWorking := proxiesWorking x;
     messagesSent := messagesSent x;
     commandsExecuted := commandsExecuted x;
     reconnects := reconnects x |}.

Definition set_failed v (x : Stats) : Stats :=
  {| sent := sent x;
     joined := joined x;
     kicked := kicked x;
     timeout := timeout x;
     failed := v;
     proxiesFound := proxiesFound x;
     proxiesWorking := proxiesWorking x;
     messagesSent := messagesSent x;
     commandsExecuted := commandsExecuted x;
     reconnects := reconnects x |}.

Definition set_proxiesFound v (x : Stats) : Stats :=
  {| sent := sent x;
     joined := joined x;
     kicked := kicked x;
     timeout := timeout x;
     failed := failed x;
     proxiesFound := v;
     proxiesWorking := proxiesWorking x;
     messagesSent := messagesSent x;
     commandsExecuted := commandsExecuted x;
     reconnects := reconnects x |}.

Definition set_proxiesWorking v (x : Stats) : Stats :=
  {| sent := sent x;
     joined := joined x;
     kicked := kicked x;
     timeout := timeout x;
     failed := failed x;
     proxiesFound := proxiesFound x;
     proxiesWorking := v;
     messagesSent := messagesSent x;
     commandsExecuted := commandsExecuted x;
     reconnects := reconnects x |}.

Definition set_messagesSent v (x : Stats) : Stats :=
  {| sent := sent x;
     joined := joined x;
     kicked := kicked x;
     timeout := timeout x;
     failed := failed x;
     proxiesFound := proxiesFound x;
     proxiesWorking := proxiesWorking x;
     messagesSent := v;
     commandsExecuted := commandsExecuted x;
     reconnects := reconnects x |}.

Definition set_commandsExecuted v (x : Stats) : Stats :=
  {| sent := sent x;
     joined := joined x;
     kicked := kicked x;
     timeout := timeout x;
     failed := failed x;
     proxiesFound := proxiesFound x;
     proxiesWorking := proxiesWorking x;
     messagesSent := messagesSent x;
     commandsExecuted := v;
     reconnects := reconnects x |}.

Definition set_reconnects v (x : Stats) : Stats :=
  {| sent := sent x;
     joined := joined x;
     kicked := kicked x;
     timeout := timeout x;
     failed := failed x;
     proxiesFound := proxiesFound x;
     proxiesWorking := proxiesWorking x;
     messagesSent := messagesSent x;
     commandsExecuted := commandsExecuted x;
     reconnects := v |}.

(** The fields of an [UltraBot] that the lifecycle reads or writes. The
    connection options ([host], [port], [version], [clientBrand], ...) and
    the telemetry ([position], [health], [food]) are left out. [bot] is
    the handle of the protocol client made by the last [createBot], and
    is [None] while it is still [undefined]. *)
Record UltraBot : Type := {
  username : jsstring;
  proxy : option jsstring;
  index : nat;
  connected : bool;
  messages : list jsstring;
  bot : option nat;
  reconnectAttempts : nat;
  maxReconnects : nat;
  joinDelay : N }.

Definition set_connected v (x : UltraBot) : UltraBot :=
  {| username := username x;
     proxy := proxy x;
     index := index x;
     connected := v;
     messages := messages x;
     bot := bot x;
     reconnectAttempts := reconnectAttempts x;
     maxReconnects := maxReconnects x;
     joinDelay := joinDelay x |}.

Definition set_messages v (x : UltraBot) : UltraBot :=
  {| username := username x;
     proxy := proxy x;
     index := index x;
     connected := connected x;
     messages := v;
     bot := bot x;
     reconnectAttempts := reconnectAttempts x;
     maxReconnects := maxReconnects x;
     joinDelay := joinDelay x |}.

Definition set_bot v (x : UltraBot) : UltraBot :=
  {| username := username x;
     proxy := proxy x;
     index := index x;
     connected := connected x;
     messages := messages x;
     bot := v;
     reconnectAttempts := reconnectAttempts x;
     maxReconnects := maxReconnects x;
     joinDelay := joinDelay x |}.

Definition set_reconnectAttempts v (x : UltraBot) : UltraBot :=
  {| username := username x;
     proxy := proxy x;
     index := index x;
     connected := connected x;
     messages := messages x;
     bot := bot x;
     reconnectAttempts := v;
     maxReconnects := maxReconnects x;
     joinDelay := joinDelay x |}.

(** What [this.log] prints after the time stamp and the bot's index. *)
Inductive BotMessage : Type :=
| Connected
| SpawnedInWorld
| KickedMessage (reason : jsstring)
| ConnectionEnded (reason : option jsstring)
| ErrorMessage (message : jsstring)
| Mentioned (text : jsstring)
| Registering
| LoggingIn
| PremiumCheck
| MaxReconnectReached
| Reconnecting (delay : N) (attempt maxAttempts : nat)
| ExecutedCommand (command : jsstring).

(** Lines written to the terminal ([console.log], [process.stdout.write])
    and entries appended to the session log ([saveLog]). *)
Inductive Line : Type :=
| StatsTable (s : Stats)
| BotLog (index : nat) (m : BotMessage)
| Broadcasted (sent : nat) (message : jsstring)
| ExecutedOn (executed : nat) (command : jsstring)
| StoppingAll
| FinalStats (s : Stats)
| AllSpawned
| QuickHelp
| Progress (botIndex maxBots : nat)
| LogConnected (index : nat) (username : jsstring)
| LogKicked (index : nat) (reason : jsstring)
| LogError (index : nat) (message : jsstring)
| LogFailedToCreate (index : nat)
| LogBroadcast (message : jsstring) (sent : nat)
| LogCommand (command : jsstring) (executed : nat)
| LogSessionEnded.

(** Callbacks the event loop still owes: timers ([setTimeout]) and
    promises not yet settled. *)
Inductive Deferred : Type :=
| SpawnTimer (delay : N)
| Ping (ref : nat)
| JoinTimer (ref : nat) (delay : N)
| ProxyConnect (ref : nat) (h : nat)
| ReconnectTimer (ref : nat) (delay : N)
| RandomActionTimer (ref : nat)
| QuickHelpTimer
| FinalStatsTimer.

(** The program state: the globals [stats] and [isRunning], the store of
    [UltraBot] objects by reference, [cmdInterface.bots] (references into
    the store), the locals of [main] that [spawnBot] closes over, the
    pending callbacks, the protocol clients made so far ([clients !! h] is
    the [UltraBot] whose listeners are attached to client [h]), and a
    record of the calls made on the clients and of the output. *)
Record World : Type := {
  stats : Stats;
  isRunning : bool;
  objs : gmap nat UltraBot;
  bots : list nat;
  botIndex : nat;
  pending : list Deferred;
  clients : list nat;
  chats : list (nat * jsstring);
  quits : list nat;
  console : list Line;
  logfile : list Line;
  maxBots : nat;
  delay : N;
  workingProxies : list jsstring }.

Definition set_stats v (x : World) : World :=
  {| stats := v;
     isRunning := isRunning x;
     objs := objs x;
     bots := bots x;
     botIndex := botIndex x;
     pending := pending x;
     clients := clients x;
     chats := chats x;
     quits := quits x;
     console := console x;
     logfile := logfile x;
     maxBots := maxBots x;
     delay := delay x;
     workingProxies := workingProxies x |}.

Definition set_isRunning v (x : World) : World :=
  {| stats := stats x;
     isRunning := v;
     objs := objs x;
     bots := bots x;
     botIndex := botIndex x;
     pending := pending x;
     clients := clients x;
     chats := chats x;
     quits := quits x;
     console := console x;
     logfile := logfile x;
     maxBots := maxBots x;
     delay := delay x;
     workingProxies := workingProxies x |}.

Definition set_objs v (x : World) : World :=
  {| stats := stats x;
     isRunning := isRunning x;
     objs := v;
     bots := bots x;
     botIndex := botIndex x;
     pending := pending x;
     clients := clients x;
     chats := chats x;
     quits := quits x;
     console := console x;
     logfile := logfile x;
     maxBots := maxBots x;
     delay := delay x;
     workingProxies := workingProxies x |}.

Definition set_bots v (x : World) : World :=
  {| stats := stats x;
     isRunning := isRunning x;
     objs := objs x;
     bots := v;
     botIndex := botIndex x;
     pending := pending x;
     clients := clients x;
     chats := chats x;
     quits := quits x;
     console := console x;
     logfile := logfile x;
     maxBots := maxBots x;
     delay := delay x;
     workingProxies := workingProxies x |}.

Definition set_botIndex v (x : World) : World :=
  {| stats := stats x;
     isRunning := isRunning x;
     objs := objs x;
     bots := bots x;
     botIndex := v;
     pending := pending x;
     clients := clients x;
     chats := chats x;
     quits := quits x;
     console := console x;
     logfile := logfile x;
     maxBots := maxBots x;
     delay := delay x;
     workingProxies := workingProxies x |}.

Definition set_pending v (x : World) : World :=
  {| stats := stats x;
     isRunning := isRunning x;
     objs := objs x;
     bots := bots x;
     botIndex := botIndex x;
     pending := v;
     clients := clients x;
     chats := chats x;
     quits := quits x;
     console := console x;
     logfile := logfile x;
     maxBots := maxBots x;
     delay := delay x;
     workingProxies := workingProxies x |}.

Definition set_clients v (x : World) : World :=
  {| stats := stats x;
     isRunning := isRunning x;
     objs := objs x;
     bots := bots x;
     botIndex := botIndex x;
     pending := pending x;
     clients := v;
     chats := chats x;
     quits := quits x;
     console := console x;
     logfile := logfile x;
     maxBots := maxBots x;
     delay := delay x;
     workingProxies := workingProxies x |}.

Definition set_chats v (x : World) : World :=
  {| stats := stats x;
     isRunning := isRunning x;
     objs := objs x;
     bots := bots x;
     botIndex := botIndex x;
     pending := pending x;
     clients := clients x;
     chats := v;
     quits := quits x;
     console := console x;
     logfile := logfile x;
     maxBots := maxBots x;
     delay := delay x;
     workingProxies := workingProxies x |}.

Definition set_quits v (x : World) : World :=
  {| stats := stats x;
     isRunning := isRunning x;
     objs := objs x;
     bots := bots x;
     botIndex := botIndex x;
     pending := pending x;
     clients := clients x;
     chats := chats x;
     quits := v;
     console := console x;
     logfile := logfile x;
     maxBots := maxBots x;
     delay := delay x;
     workingProxies := workingProxies x |}.

Definition set_console v (x : World) : World :=
  {| stats := stats x;
     isRunning := isRunning x;
     objs := objs x;
     bots := bots x;
     botIndex := botIndex x;
     pending := pending x;
     clients := clients x;
     chats := chats x;
     quits := quits x;
     console := v;
     logfile := logfile x;
     maxBots := maxBots x;
     delay := delay x;
     workingProxies := workingProxies x |}.

Definition set_logfile v (x : World) : World :=
  {| stats := stats x;
     isRunning := isRunning x;
     objs := objs x;
     bots := bots x;
     botIndex := botIndex x;
     pending := pending x;
     clients := clients x;
     chats := chats x;
     quits := quits x;
     console := console x;
     logfile := v;
     maxBots := maxBots x;
     delay := delay x;
     workingProxies := workingProxies x |}.

(** ** Output and small helpers *)

Definition print (l : Line) (w : World) : World :=
  set_console (console w ++ [l]) w.

(** [saveLog(message, type)] *)
Definition saveLog (l : Line) (w : World) : World :=
  set_logfile (logfile w ++ [l]) w.

(** [displayStats()] draws the table of the current counters. *)
Definition displayStats (w : World) : World :=
  print (StatsTable (stats w)) w.

Definition upd_stats (f : Stats -> Stats) (w : World) : World :=
  set_stats (f (stats w)) w.

(** A field update on the object [ref] of the store. *)
Definition upd_obj (ref : nat) (f : UltraBot -> UltraBot) (w : World) : World :=
  set_objs (alter f ref (objs w)) w.

(** [setTimeout(callback, ...)], and promises alike: one more pending
    callback. *)
Definition defer (d : Deferred) (w : World) : World :=
  set_pending (pending w ++ [d]) w.

(** [UltraBot.log(message)] *)
Definition log (ref : nat) (m : BotMessage) (w : World) : World :=
  match objs w !! ref with
  | Some this => print (BotLog (index this) m) w
  | None => w
  end.

(** [this.bot.chat(text)] *)
Definition bot_chat (ref : nat) (text : jsstring) (w : World) : World :=
  match objs w !! ref with
  | Some this =>
      match bot this with
      | Some h => set_chats (chats w ++ [(h, text)]) w
      | None => w
      end
  | None => w
  end.

(** ** [UltraBot] *)

(** [connect()]: the ping of the server is started; what follows waits
    for its promise. *)
Definition connect (ref : nat) (w : World) : World :=
  defer (Ping ref) w.

(** [actualConnect()]. [created] tells whether [mineflayer.createBot]
    returned a client or threw. With a proxy, the client's connection is
    made by [options.connect], whose promise stays pending. *)
Definition actualConnect (ref : nat) (created : bool) (w : World) : World :=
  match objs w !! ref with
  | None => w
  | Some this =>
      if created then
        let h := length (clients w) in
        let w := set_clients (clients w ++ [ref]) w in
        let w := match proxy this with
                 | Some _ => defer (ProxyConnect ref h) w
                 | None => w
                 end in
        let w := upd_obj ref (set_bot (Some h)) w in
        let w := upd_stats (fun s => set_sent (S (sent s)) s) w in
        displayStats w
      else
        let w := upd_stats (fun s => set_failed (S (failed s)) s) w in
        let w := displayStats w in
        saveLog (LogFailedToCreate (index this)) w
  end.

(** [attemptReconnect()] *)
Definition attemptReconnect (ref : nat) (w : World) : World :=
  match objs w !! ref with
  | None => w
  | Some this =>
      if maxReconnects this <=? reconnectAttempts this then
        log ref MaxReconnectReached w
      else
        let attempts := S (reconnectAttempts this) in
        let w := upd_obj ref (set_reconnectAttempts attempts) w in
        let w := upd_stats (fun s => set_reconnects (S (reconnects s)) s) w in
        let delay := N.min (5000 * N.of_nat attempts) 30000 in
        let w := log ref (Reconnecting delay attempts (maxReconnects this)) w in
        defer (ReconnectTimer ref delay) w
  end.

(** The callback of the timer set by [attemptReconnect]. *)
Definition reconnect_timer (ref : nat) (w : World) : World :=
  if isRunning w then connect ref w else w.

(** The password of the scripted replies:
    [this.username.split('').reverse().join('')]. *)
Definition password (ref : nat) (w : World) : jsstring :=
  match objs w !! ref with
  | Some this => reverse_string (username this)
  | None => []
  end.

(** The listeners attached by [setupListeners()], one per event. *)

Definition on_login (ref : nat) (w : World) : World :=
  let w := upd_obj ref (set_connected true) w in
  let w := upd_stats (fun s => set_joined (S (joined s)) s) w in
  let w := displayStats w in
  let w := log ref Connected w in
  let w := match objs w !! ref with
           | Some this => saveLog (LogConnected (index this) (username this)) w
           | None => w
           end in
  upd_obj ref (set_reconnectAttempts 0) w.

Definition on_spawn (ref : nat) (w : World) : World :=
  let w := log ref SpawnedInWorld w in
  defer (RandomActionTimer ref) w.

Definition on_kicked (ref : nat) (reason : jsstring) (w : World) : World :=
  let w := upd_obj ref (set_connected false) w in
  let w := upd_stats (fun s => set_kicked (S (kicked s)) s) w in
  let w := displayStats w in
  let w := log ref (KickedMessage reason) w in
  let w := match objs w !! ref with
           | Some this => saveLog (LogKicked (index this) reason) w
           | None => w
           end in
  attemptReconnect ref w.

Definition on_end (ref : nat) (reason : option jsstring) (w : World) : World :=
  let w := upd_obj ref (set_connected false) w in
  let w := upd_stats (fun s => set_timeout (S (timeout s)) s) w in
  let w := displayStats w in
  let w := log ref (ConnectionEnded reason) w in
  attemptReconnect ref w.

Definition on_error (ref : nat) (message : jsstring) (w : World) : World :=
  let w := log ref (ErrorMessage message) w in
  match objs w !! ref with
  | Some this => saveLog (LogError (index this) message) w
  | None => w
  end.

(** The four prompts of the auto-responder, each behind an [if] of its
    own, in the order of the source. *)
Definition reply_register (ref : nat) (text : jsstring) (w : World) : World :=
  if includes text (js "/register") then
    let password := password ref w in
    let w := bot_chat ref (js "/register " ++ password ++ js " " ++ password) w in
    log ref Registering w
  else w.

Definition reply_login (ref : nat) (text : jsstring) (w : World) : World :=
  if includes text (js "/login") then
    let w := bot_chat ref (js "/login " ++ password ref w) w in
    log ref LoggingIn w
  else w.

Definition reply_authme (ref : nat) (text : jsstring) (w : World) : World :=
  if includes text (js "Please, login with the command") then
    bot_chat ref (js "/login " ++ password ref w) w
  else w.

Definition reply_premium (ref : nat) (text : jsstring) (w : World) : World :=
  if includes text (js "premium") then
    let w := bot_chat ref (js "/nlogin") w in
    log ref PremiumCheck w
  else w.

Definition on_message (ref : nat) (text : jsstring) (w : World) : World :=
  let w := upd_obj ref (fun this => set_messages (messages this ++ [text]) this) w in
  let w := match objs w !! ref with
           | Some this =>
               if includes (toLowerCase text) (toLowerCase (username this))
               then log ref (Mentioned text) w else w
           | None => w
           end in
  let w := reply_register ref text w in
  let w := reply_login ref text w in
  let w := reply_authme ref text w in
  reply_premium ref text w.

(** [sendChat(message)] *)
Definition sendChat (ref : nat) (message : jsstring) (w : World) : World :=
  match objs w !! ref with
  | Some this =>
      if is_Some_b (bot this) && connected this then
        let w := bot_chat ref message w in
        let w := upd_stats (fun s => set_messagesSent (S (messagesSent s)) s) w in
        displayStats w
      else w
  | None => w
  end.

(** [UltraBot.executeCommand(command)] *)
Definition bot_executeCommand (ref : nat) (command : jsstring) (w : World)
  : World :=
  match objs w !! ref with
  | Some this =>
      if is_Some_b (bot this) && connected this then
        let w := bot_chat ref command w in
        let w := upd_stats
                   (fun s => set_commandsExecuted (S (commandsExecuted s)) s) w in
        let w := displayStats w in
        log ref (ExecutedCommand command) w
      else w
  | None => w
  end.

(** [disconnect()] *)
Definition disconnect (ref : nat) (w : World) : World :=
  match objs w !! ref with
  | Some this =>
      match bot this with
      | Some h =>
          let w := set_quits (quits w ++ [h]) w in
          upd_obj ref (set_connected false) w
      | None => w
      end
  | None => w
  end.

(** The constructor: the fields, then [this.connect()]. The object is
    stored under its [index], which [spawnBot] never gives twice. (The
    [onReconnect] callback it is given is stored and never called.) *)
Definition new_UltraBot (username : jsstring) (proxy : option jsstring)
    (index : nat) (joinDelay : N) (w : World) : World :=
  let this := {| username := username; proxy := proxy; index := index;
                 connected := false; messages := []; bot := None;
                 reconnectAttempts := 0; maxReconnects := 3;
                 joinDelay := joinDelay |} in
  connect index (set_objs (<[index := this]> (objs w)) w).

(** ** [UltraCommandInterface] *)

(** The loops of [broadcast] and [executeCommand]:
    [this.bots.forEach(bot => { if (bot.connected) { act(bot); n++ } })]. *)
Definition forEach_connected (act : nat -> World -> World) (refs : list nat)
    (start : nat * World) : nat * World :=
  fold_left
    (fun '(n, w) ref =>
       match objs w !! ref with
       | Some this => if connected this then (S n, act ref w) else (n, w)
       | None => (n, w)
       end)
    refs start.

(** [broadcast(message)]. Neither exit returns a value. *)
Definition broadcast (message : jsstring) (w : World) : jsvalue * World :=
  match message with
  | [] => (undefined, w)
  | _ :: _ =>
      let '(sent, w) :=
        forEach_connected (fun ref => sendChat ref message) (bots w) (0, w) in
      let w := print (Broadcasted sent message) w in
      let w := saveLog (LogBroadcast message sent) w in
      (undefined, w)
  end.

(** [UltraCommandInterface.executeCommand(command)] *)
Definition executeCommand (command : jsstring) (w : World) : jsvalue * World :=
  match command with
  | [] => (undefined, w)
  | _ :: _ =>
      let '(executed, w) :=
        forEach_connected (fun ref => bot_executeCommand ref command)
          (bots w) (0, w) in
      let w := print (ExecutedOn executed command) w in
      let w := saveLog (LogCommand command executed) w in
      (undefined, w)
  end.

(** [stopAll()] *)
Definition stopAll (w : World) : World :=
  let w := print StoppingAll w in
  let w := set_isRunning false w in
  let w := fold_left (fun w ref => disconnect ref w) (bots w) w in
  let w := set_bots [] w in
  defer FinalStatsTimer w.

(** [showFinalStats()] *)
Definition showFinalStats (w : World) : World :=
  let w := print (FinalStats (stats w)) w in
  saveLog LogSessionEnded w.

(** ** Proxy collection ([fetchFromUrl], [fetchProxiesWithProgress]) *)

(** The body of the ['end'] handler of [fetchFromUrl]: the endpoints found
    in the text of one source. *)
Definition parse_proxies (data : jsstring) : list jsstring :=
  filter (fun line => test ip_port_regex line = true)
    (map trim
      (filter (fun line => includes line [colon] = true)
        (split_lines data))).

(** What becomes of the request to one source. The response ends and
    [data] is what it carried; or the request emits ['error'] before any
    response; or the response begins and never emits ['end'] (its
    connection is cut or stalls after the headers), [received] being what
    had arrived. *)
Inductive Response : Type :=
| Body (data : jsstring)
| RequestError
| Cut (received : jsstring).

(** The promise returned by [fetchFromUrl]. *)
Inductive Promise : Type :=
| Resolved (proxies : list jsstring)
| Rejected
| NeverSettles.

(** [fetchFromUrl(url)]: [resolve] is called by the ['end'] listener of
    the response and [reject] by the ['error'] listener of the request;
    the response has no other listener than ['data'] and ['end'], and the
    request is given no timeout. *)
Definition fetchFromUrl (r : Response) : Promise :=
  match r with
  | Body data => Resolved (parse_proxies data)
  | RequestError => Rejected
  | Cut _ => NeverSettles
  end.

(** [set.add(x)] on a [Set], which keeps insertion order. *)
Definition set_add (acc : list jsstring) (x : jsstring) : list jsstring :=
  if decide (x ∈ acc) then acc else acc ++ [x].

(** [[...new Set(xs)]]: the distinct elements in order of first occurrence. *)
Definition spread_new_Set (xs : list jsstring) : list jsstring :=
  fold_left set_add xs [].

(** The loop over the sources: [allProxies.push(...proxies)] for a source
    whose promise resolved, nothing for one that rejected ([catch {}]).
    The loop waits for each promise ([await]): at one that never settles
    it goes no further ([None]). *)
Fixpoint push_sources (allProxies : list jsstring) (responses : list Response)
  : option (list jsstring) :=
  match responses with
  | [] => Some allProxies
  | r :: rest =>
      match fetchFromUrl r with
      | Resolved proxies => push_sources (allProxies ++ proxies) rest
      | Rejected => push_sources allProxies rest
      | NeverSettles => None
      end
  end.

(** [fetchProxiesWithProgress()], given what becomes of the request to
    each source in turn: the candidates returned and the updated
    counters, or [None] when the function never returns. *)
Definition fetchProxiesWithProgress (responses : list Response) (s : Stats)
  : option (list jsstring * Stats) :=
  match push_sources [] responses with
  | Some pushed =>
      let allProxies := spread_new_Set pushed in
      Some (allProxies, set_proxiesFound (length allProxies) s)
  | None => None
  end.

(** ** The spawn scheduler *)

(** [workingProxies[botIndex % workingProxies.length] || null]. With no
    working proxy the index is [NaN] and the element [undefined]; an empty
    string is falsy as well. *)
Definition assign_proxy (workingProxies : list jsstring) (botIndex : nat)
  : option jsstring :=
  match length workingProxies with
  | 0 => None
  | S _ =>
      match workingProxies !! (botIndex mod length workingProxies) with
      | Some [] => None
      | Some p => Some p
      | None => None
      end
  end.

(** What the environment decides when a callback runs: whether a promise
    resolved, whether [createBot] returned, and the random draws of
    [generateUsername], [setupRandomization] and [spawnBot]. *)
Record Env : Type := {
  resolved : bool;
  created : bool;
  gen_username : jsstring;
  gen_joinDelay : N;
  gen_jitter : N }.

(** [spawnBot()] *)
Definition spawnBot (e : Env) (w : World) : World :=
  if negb (isRunning w) || (maxBots w <=? botIndex w) then
    if maxBots w <=? botIndex w
    then defer QuickHelpTimer (print AllSpawned w)
    else w
  else
    let proxy := assign_proxy (workingProxies w) (botIndex w) in
    let w := new_UltraBot (gen_username e) proxy (botIndex w + 1)
               (gen_joinDelay e) w in
    let w := set_bots (bots w ++ [botIndex w + 1]) w in
    let w := set_botIndex (botIndex w + 1) w in
    let w := print (Progress (botIndex w) (maxBots w)) w in
    if botIndex w <? maxBots w
    then defer (SpawnTimer (delay w + gen_jitter e)) w
    else w.

(** ** The event loop *)

(** The [n]-th pending callback runs: a timer fires, a promise settles. *)
Definition fire (n : nat) (e : Env) (w : World) : World :=
  match pending w !! n with
  | None => w
  | Some d =>
      let w := set_pending (delete n (pending w)) w in
      match d with
      | SpawnTimer _ => spawnBot e w
      | Ping ref =>
          if resolved e then
            match objs w !! ref with
            | Some this => defer (JoinTimer ref (joinDelay this)) w
            | None => w
            end
          else actualConnect ref (created e) w
      | JoinTimer ref _ => actualConnect ref (created e) w
      | ProxyConnect _ _ =>
          if resolved e then w
          else displayStats (upd_stats (fun s => set_failed (S (failed s)) s) w)
      | ReconnectTimer ref _ => reconnect_timer ref w
      | RandomActionTimer _ => w
      | QuickHelpTimer => print QuickHelp w
      | FinalStatsTimer => showFinalStats w
      end
  end.

(** Events of a protocol client that have a listener changing the state
    modelled here (['health'] and ['physicsTick'] only touch the telemetry
    and the client itself). *)
Inductive ClientEvent : Type :=
| Login
| Spawn
| Kicked (reason : jsstring)
| End (reason : option jsstring)
| Error (message : jsstring)
| Message (text : jsstring).

Definition listener (ref : nat) (ev : ClientEvent) (w : World) : World :=
  match ev with
  | Login => on_login ref w
  | Spawn => on_spawn ref w
  | Kicked reason => on_kicked ref reason w
  | End reason => on_end ref reason w
  | Error message => on_error ref message w
  | Message text => on_message ref text w
  end.

(** One turn of the event loop: client [h] emits an event, a pending
    callback runs, or a line of the operator reaches [broadcast],
    [executeCommand] or [stopAll] (the parsing of the line by
    [processCommand] is left out). *)
Inductive Event : Type :=
| Emit (h : nat) (ev : ClientEvent)
| Fire (n : nat) (e : Env)
| Say (message : jsstring)
| Cmd (command : jsstring)
| Stop.

Definition step (w : World) (ev : Event) : World :=
  match ev with
  | Emit h ev =>
      match clients w !! h with
      | Some ref => listener ref ev w
      | None => w
      end
  | Fire n e => fire n e w
  | Say message => snd (broadcast message w)
  | Cmd command => snd (executeCommand command w)
  | Stop => stopAll w
  end.

Definition run (w : World) (evs : list Event) : World :=
  fold_left step evs w.

(** The state in which [main] leaves the program once the proxies are
    tested: nothing spawned yet, the first [spawnBot] due in a second.
    (The interval timer of [start()], which redraws the table of
    counters every second, is left out.)

    [maxBots] is [config.maxBots], that is [parseInt] of the third
    argument, which [main] does not check. The states here are those of
    a natural number, as an argument written in digits gives (10 when it
    is left out). The other values [parseInt] can return are not states
    of this model: with [NaN] both [botIndex >= config.maxBots] and
    [botIndex < config.maxBots] are false, so exactly one bot is spawned;
    with a negative number none is. *)
Definition init (maxBots : nat) (delay : N) (allProxies workingProxies : list jsstring)
  : World :=
  let s := set_proxiesWorking (length workingProxies)
             (set_proxiesFound (length allProxies) stats0) in
  {| stats := s; isRunning := true; objs := ∅; bots := []; botIndex := 0;
     pending := [SpawnTimer 1000]; clients := []; chats := []; quits := [];
     console := [StatsTable s]; logfile := [];
     maxBots := maxBots; delay := delay; workingProxies := workingProxies |}.

End Ultra.

(** * [botattack.js]: [EnhancedBot], [CommandInterface] and the spawn loop *)

Module Enhanced.

(** ** Data *)

Record Stats : Type := {
  sent : nat;
  joined : nat;
  kicked : nat;
  timeout : nat;
  failed : nat;
  proxiesFound : nat;
  proxiesWorking : nat }.

Definition stats0 : Stats :=
  {| sent := 0; joined := 0; kicked := 0; timeout := 0; failed := 0;
     proxiesFound := 0; proxiesWorking := 0 |}.

Definition set_sent v (x : Stats) : Stats :=
  {| sent := v;
     joined := joined x;
     kicked := kicked x;
     timeout := timeout x;
     failed := failed x;
     proxiesFound := proxiesFound x;
     proxiesWorking := proxiesWorking x |}.

Definition set_joined v (x : Stats) : Stats :=
  {| sent := sent x;
     joined := v;
     kicked := kicked x;
     timeout := timeout x;
     failed := failed x;
     proxiesFound := proxiesFound x;
     proxiesWorking := proxiesWorking x |}.

Definition set_kicked v (x : Stats) : Stats :=
  {| sent := sent x;
     joined := joined x;
     kicked := v;
     timeout := timeout x;
     failed := failed x;
     proxiesFound := proxiesFound x;
     proxiesWorking := proxiesWorking x |}.

Definition set_timeout v (x : Stats) : Stats :=
  {| sent := sent x;
     joined := joined x;
     kicked := kicked x;
     timeout := v;
     failed := failed x;
     proxiesFound := proxiesFound x;
     proxiesWorking := proxiesWorking x |}.

Definition set_failed v (x : Stats) : Stats :=
  {| sent := sent x;
     joined := joined x;
     kicked := kicked x;
     timeout := timeout x;
     failed := v;
     proxiesFound := proxiesFound x;
     proxiesWorking := proxiesWorking x |}.

Definition set_proxiesFound v (x : Stats) : Stats :=
  {| sent := sent x;
     joined := joined x;
     kicked := kicked x;
     timeout := timeout x;
     failed := failed x;
     proxiesFound := v;
     proxiesWorking := proxiesWorking x |}.

Definition set_proxiesWorking v (x : Stats) : Stats :=
  {| sent := sent x;
     joined := joined x;
     kicked := kicked x;
     timeout := timeout x;
     failed := failed x;
     proxiesFound := proxiesFound x;
     proxiesWorking := v |}.

(** An [EnhancedBot] ([host], [port] and [version] left out); there is no
    reconnect counter in this class. *)
Record EnhancedBot : Type := {
  username : jsstring;
  proxy : option jsstring;
  index : nat;
  connected : bool;
  messages : list jsstring;
  bot : option nat }.

Definition set_connected v (x : EnhancedBot) : EnhancedBot :=
  {| username := username x;
     proxy := proxy x;
     index := index x;
     connected := v;
     messages := messages x;
     bot := bot x |}.

Definition set_messages v (x : EnhancedBot) : EnhancedBot :=
  {| username := username x;
     proxy := proxy x;
     index := index x;
     connected := connected x;
     messages := v;
     bot := bot x |}.

Definition set_bot v (x : EnhancedBot) : EnhancedBot :=
  {| username := username x;
     proxy := proxy x;
     index := index x;
     connected := connected x;
     messages := messages x;
     bot := v |}.

Inductive BotMessage : Type :=
| Connected
| SpawnedInWorld
| KickedMessage (reason : jsstring)
| ConnectionEnded
| ErrorMessage (message : jsstring)
| Registering
| LoggingIn
| PremiumCheck.

Inductive Line : Type :=
| StatsBox (s : Stats)
| BotLog (index : nat) (m : BotMessage)
| Broadcasted (sent : nat) (message : jsstring)
| StoppingAll
| AllSpawned
| Progress (botIndex maxBots : nat).

Inductive Deferred : Type :=
| SpawnTimer (delay : N)
| ProxyConnect (ref : nat) (h : nat).

(** The program state; this program has no [isRunning] flag and no
    session log. *)
Record World : Type := {
  stats : Stats;
  objs : gmap nat EnhancedBot;
  bots : list nat;
  botIndex : nat;
  pending : list Deferred;
  clients : list nat;
  chats : list (nat * jsstring);
  quits : list nat;
  console : list Line;
  maxBots : nat;
  delay : N;
  workingProxies : list jsstring }.

Definition set_stats v (x : World) : World :=
  {| stats := v;
     objs := objs x;
     bots := bots x;
     botIndex := botIndex x;
     pending := pending x;
     clients := clients x;
     chats := chats x;
     quits := quits x;
     console := console x;
     maxBots := maxBots x;
     delay := delay x;
     workingProxies := workingProxies x |}.

Definition set_objs v (x : World) : World :=
  {| stats := stats x;
     objs := v;
     bots := bots x;
     botIndex := botIndex x;
     pending := pending x;
     clients := clients x;
     chats := chats x;
     quits := quits x;
     console := console x;
     maxBots := maxBots x;
     delay := delay x;
     workingProxies := workingProxies x |}.

Definition set_bots v (x : World) : World :=
  {| stats := stats x;
     objs := objs x;
     bots := v;
     botIndex := botIndex x;
     pending := pending x;
     clients := clients x;
     chats := chats x;
     quits := quits x;
     console := console x;
     maxBots := maxBots x;
     delay := delay x;
     workingProxies := workingProxies x |}.

Definition set_botIndex v (x : World) : World :=
  {| stats := stats x;
     objs := objs x;
     bots := bots x;
     botIndex := v;
     pending := pending x;
     clients := clients x;
     chats := chats x;
     quits := quits x;
     console := console x;
     maxBots := maxBots x;
     delay := delay x;
     workingProxies := workingProxies x |}.

Definition set_pending v (x : World) : World :=
  {| stats := stats x;
     objs := objs x;
     bots := bots x;
     botIndex := botIndex x;
     pending := v;
     clients := clients x;
     chats := chats x;
     quits := quits x;
     console := console x;
     maxBots := maxBots x;
     delay := delay x;
     workingProxies := workingProxies x |}.

Definition set_clients v (x : World) : World :=
  {| stats := stats x;
     objs := objs x;
     bots := bots x;
     botIndex := botIndex x;
     pending := pending x;
     clients := v;
     chats := chats x;
     quits := quits x;
     console := console x;
     maxBots := maxBots x;
     delay := delay x;
     workingProxies := workingProxies x |}.

Definition set_chats v (x : World) : World :=
  {| stats := stats x;
     objs := objs x;
     bots := bots x;
     botIndex := botIndex x;
     pending := pending x;
     clients := clients x;
     chats := v;
     quits := quits x;
     console := console x;
     maxBots := maxBots x;
     delay := delay x;
     workingProxies := workingProxies x |}.

Definition set_quits v (x : World) : World :=
  {| stats := stats x;
     objs := objs x;
     bots := bots x;
     botIndex := botIndex x;
     pending := pending x;
     clients := clients x;
     chats := chats x;
     quits := v;
     console := console x;
     maxBots := maxBots x;
     delay := delay x;
     workingProxies := workingProxies x |}.

Definition set_console v (x : World) : World :=
  {| stats := stats x;
     objs := objs x;
     bots := bots x;
     botIndex := botIndex x;
     pending := pending x;
     clients := clients x;
     chats := chats x;
     quits := quits x;
     console := v;
     maxBots := maxBots x;
     delay := delay x;
     workingProxies := workingProxies x |}.

(** ** Helpers *)

Definition print (l : Line) (w : World) : World :=
  set_console (console w ++ [l]) w.

Definition displayStats (w : World) : World :=
  print (StatsBox (stats w)) w.

Definition upd_stats (f : Stats -> Stats) (w : World) : World :=
  set_stats (f (stats w)) w.

Definition upd_obj (ref : nat) (f : EnhancedBot -> EnhancedBot) (w : World)
  : World :=
  set_objs (alter f ref (objs w)) w.

Definition defer (d : Deferred) (w : World) : World :=
  set_pending (pending w ++ [d]) w.

Definition log (ref : nat) (m : BotMessage) (w : World) : World :=
  match objs w !! ref with
  | Some this => print (BotLog (index this) m) w
  | None => w
  end.

Definition bot_chat (ref : nat) (text : jsstring) (w : World) : World :=
  match objs w !! ref with
  | Some this =>
      match bot this with
      | Some h => set_chats (chats w ++ [(h, text)]) w
      | None => w
      end
  | None => w
  end.

(** ** [EnhancedBot] *)

(** [connect()]; [created] tells whether [mineflayer.createBot] returned. *)
Definition connect (ref : nat) (created : bool) (w : World) : World :=
  match objs w !! ref with
  | None => w
  | Some this =>
      if created then
        let h := length (clients w) in
        let w := set_clients (clients w ++ [ref]) w in
        let w := match proxy this with
                 | Some _ => defer (ProxyConnect ref h) w
                 | None => w
                 end in
        let w := upd_obj ref (set_bot (Some h)) w in
        let w := upd_stats (fun s => set_sent (S (sent s)) s) w in
        displayStats w
      else
        let w := upd_stats (fun s => set_failed (S (failed s)) s) w in
        displayStats w
  end.

Definition password (ref : nat) (w : World) : jsstring :=
  match objs w !! ref with
  | Some this => reverse_string (username this)
  | None => []
  end.

Definition on_login (ref : nat) (w : World) : World :=
  let w := upd_obj ref (set_connected true) w in
  let w := upd_stats (fun s => set_joined (S (joined s)) s) w in
  let w := displayStats w in
  log ref Connected w.

Definition on_spawn (ref : nat) (w : World) : World :=
  log ref SpawnedInWorld w.

Definition on_kicked (ref : nat) (reason : jsstring) (w : World) : World :=
  let w := upd_obj ref (set_connected false) w in
  let w := upd_stats (fun s => set_kicked (S (kicked s)) s) w in
  let w := displayStats w in
  log ref (KickedMessage reason) w.

Definition on_end (ref : nat) (w : World) : World :=
  let w := upd_obj ref (set_connected false) w in
  let w := upd_stats (fun s => set_timeout (S (timeout s)) s) w in
  let w := displayStats w in
  log ref ConnectionEnded w.

Definition on_error (ref : nat) (message : jsstring) (w : World) : World :=
  log ref (ErrorMessage message) w.

Definition reply_register (ref : nat) (text : jsstring) (w : World) : World :=
  if includes text (js "/register") then
    let password := password ref w in
    let w := bot_chat ref (js "/register " ++ password ++ js " " ++ password) w in
    log ref Registering w
  else w.

Definition reply_login (ref : nat) (text : jsstring) (w : World) : World :=
  if includes text (js "/login") then
    let w := bot_chat ref (js "/login " ++ password ref w) w in
    log ref LoggingIn w
  else w.

Definition reply_premium (ref : nat) (text : jsstring) (w : World) : World :=
  if includes text (js "premium") then
    let w := bot_chat ref (js "/nlogin") w in
    log ref PremiumCheck w
  else w.

Definition on_message (ref : nat) (text : jsstring) (w : World) : World :=
  let w := upd_obj ref (fun this => set_messages (messages this ++ [text]) this) w in
  let w := reply_register ref text w in
  let w := reply_login ref text w in
  reply_premium ref text w.

(** [sendChat(message)] *)
Definition sendChat (ref : nat) (message : jsstring) (w : World) : World :=
  match objs w !! ref with
  | Some this =>
      if is_Some_b (bot this) && connected this
      then bot_chat ref message w
      else w
  | None => w
  end.

(** [disconnect()]: the client is told to quit; [connected] is left to
    the ['end'] listener. *)
Definition disconnect (ref : nat) (w : World) : World :=
  match objs w !! ref with
  | Some this =>
      match bot this with
      | Some h => set_quits (quits w ++ [h]) w
      | None => w
      end
  | None => w
  end.

(** The constructor: the fields, then [this.connect()]. *)
Definition new_EnhancedBot (username : jsstring) (proxy : option jsstring)
    (index : nat) (created : bool) (w : World) : World :=
  let this := {| username := username; proxy := proxy; index := index;
                 connected := false; messages := []; bot := None |} in
  connect index created (set_objs (<[index := this]> (objs w)) w).

(** ** [CommandInterface] *)

Definition forEach_connected (act : nat -> World -> World) (refs : list nat)
    (start : nat * World) : nat * World :=
  fold_left
    (fun '(n, w) ref =>
       match objs w !! ref with
       | Some this => if connected this then (S n, act ref w) else (n, w)
       | None => (n, w)
       end)
    refs start.

Definition broadcast (message : jsstring) (w : World) : jsvalue * World :=
  match message with
  | [] => (undefined, w)
  | _ :: _ =>
      let '(sent, w) :=
        forEach_connected (fun ref => sendChat ref message) (bots w) (0, w) in
      (undefined, print (Broadcasted sent message) w)
  end.

(** [stopAll()] *)
Definition stopAll (w : World) : World :=
  let w := print StoppingAll w in
  let w := fold_left (fun w ref => disconnect ref w) (bots w) w in
  set_bots [] w.

(** ** The spawn loop *)

(** [workingProxies[botIndex] || null] *)
Definition assign_proxy (workingProxies : list jsstring) (botIndex : nat)
  : option jsstring :=
  match workingProxies !! botIndex with
  | Some [] => None
  | Some p => Some p
  | None => None
  end.

Record Env : Type := {
  resolved : bool;
  created : bool;
  gen_username : jsstring }.

(** [spawnBot()] *)
Definition spawnBot (e : Env) (w : World) : World :=
  if maxBots w <=? botIndex w then print AllSpawned w
  else
    let proxy := assign_proxy (workingProxies w) (botIndex w) in
    let w := new_EnhancedBot (gen_username e) proxy (botIndex w + 1)
               (created e) w in
    let w := set_bots (bots w ++ [botIndex w + 1]) w in
    let w := set_botIndex (botIndex w + 1) w in
    let w := print (Progress (botIndex w) (maxBots w)) w in
    defer (SpawnTimer (delay w)) w.

(** ** The event loop *)

Definition fire (n : nat) (e : Env) (w : World) : World :=
  match pending w !! n with
  | None => w
  | Some d =>
      let w := set_pending (delete n (pending w)) w in
      match d with
      | SpawnTimer _ => spawnBot e w
      | ProxyConnect _ _ =>
          if resolved e then w
          else displayStats (upd_stats (fun s => set_failed (S (failed s)) s) w)
      end
  end.

Inductive ClientEvent : Type :=
| Login
| Spawn
| Kicked (reason : jsstring)
| End
| Error (message : jsstring)
| Message (text : jsstring).

Definition listener (ref : nat) (ev : ClientEvent) (w : World) : World :=
  match ev with
  | Login => on_login ref w
  | Spawn => on_spawn ref w
  | Kicked reason => on_kicked ref reason w
  | End => on_end ref w
  | Error message => on_error ref message w
  | Message text => on_message ref text w
  end.

Inductive Event : Type :=
| Emit (h : nat) (ev : ClientEvent)
| Fire (n : nat) (e : Env)
| Say (message : jsstring)
| Stop.

Definition step (w : World) (ev : Event) : World :=
  match ev with
  | Emit h ev =>
      match clients w !! h with
      | Some ref => listener ref ev w
      | None => w
      end
  | Fire n e => fire n e w
  | Say message => snd (broadcast message w)
  | Stop => stopAll w
  end.

Definition run (w : World) (evs : list Event) : World :=
  fold_left step evs w.

(** [main] calls [spawnBot()] itself once the proxies are tested; this is
    the state just before that call.

    [maxBots] is [config.maxBots], that is [parseInt] of the third
    argument, which [main] does not check. The states here are those of
    a natural number, as an argument written in digits gives (10 when it
    is left out). The other values [parseInt] can return are not states
    of this model: with [NaN] the test [botIndex >= config.maxBots] is
    never true and [spawnBot] sets its timer again every time; with a
    negative number no bot is spawned. *)
Definition init (maxBots : nat) (delay : N) (allProxies workingProxies : list jsstring)
  : World :=
  let s := set_proxiesWorking (length workingProxies)
             (set_proxiesFound (length allProxies) stats0) in
  {| stats := s; objs := ∅; bots := []; botIndex := 0;
     pending := []; clients := []; chats := []; quits := [];
     console := [StatsBox s];
     maxBots := maxBots; delay := delay; workingProxies := workingProxies |}.

End Enhanced.

(** * [ass.js]: the proxy phase of [main] *)

Module Proxies.

(** [s.split(sep)] for a separator of one code unit: the segments between
    its occurrences; a string without it is its only segment. *)
Fixpoint split (sep : N) (s : jsstring) : list jsstring :=
  match s with
  | [] => [[]]
  | c :: s' =>
      if N.eqb c sep then [] :: split sep s'
      else match split sep s' with
           | [] => [[c]]
           | l :: ls => (c :: l) :: ls
           end
  end.

(** [xs.join(sep)]: the empty string for no element. *)
Fixpoint join (sep : N) (xs : list jsstring) : jsstring :=
  match xs with
  | [] => []
  | [x] => x
  | x :: rest => x ++ sep :: join sep rest
  end.

(** The text written to the proxy files: [allProxies.join('\n')]. *)
Definition proxy_file (proxies : list jsstring) : jsstring :=
  join newline proxies.

(** The loop that cuts the candidates into batches:
    [for (i = 0; i < allProxies.length; i += batchSize)
       proxyBatches.push(allProxies.slice(i, i + batchSize))].
    [fuel] bounds the number of turns; the length of the list is enough
    for a positive [batchSize] (100 in [ass.js], 50 in [botattack.js]). *)
Fixpoint batches_loop (fuel batchSize : nat) (rest : list jsstring)
  : list (list jsstring) :=
  match fuel with
  | 0 => []
  | S fuel' =>
      match rest with
      | [] => []
      | _ :: _ =>
          take batchSize rest :: batches_loop fuel' batchSize (drop batchSize rest)
      end
  end.

Definition proxyBatches (batchSize : nat) (allProxies : list jsstring)
  : list (list jsstring) :=
  batches_loop (length allProxies) batchSize allProxies.

(** The state of the test loop: the working proxies found so far and the
    counter [stats.proxiesWorking]. *)
Record Found : Type := {
  workingProxies : list jsstring;
  proxiesWorking : nat }.

(** The callback of one test,
    [works => { if (works && workingProxies.length < limit) { push; count } }],
    where [limit] is [config.maxBots * 2] in [ass.js] and [config.maxBots]
    in [botattack.js]. *)
Definition test_done (limit : nat) (f : Found) (proxy : jsstring) (works : bool)
  : Found :=
  if works && (length (workingProxies f) <? limit) then
    {| workingProxies := workingProxies f ++ [proxy];
       proxiesWorking := length (workingProxies f ++ [proxy]) |}
  else f.

(** One batch: all its tests are started together and their callbacks
    run as the tests complete; [completions] lists the proxies of the
    batch with their outcome, in order of completion. *)
Definition test_batch (limit : nat) (completions : list (jsstring * bool))
    (f : Found) : Found :=
  fold_left (fun f '(proxy, works) => test_done limit f proxy works)
    completions f.

(** The loop over the batches, left by [break] as soon as the limit is
    reached. *)
Fixpoint test_batches (limit : nat) (batches : list (list (jsstring * bool)))
    (f : Found) : Found :=
  match batches with
  | [] => f
  | completions :: rest =>
      let f := test_batch limit completions f in
      if limit <=? length (workingProxies f) then f
      else test_batches limit rest f
  end.

(** A run of the tests over the batches of [allProxies]: each batch
    completes in some order, each proxy with some outcome. *)
Definition completes (batches : list (list jsstring))
    (completions : list (list (jsstring * bool))) : Prop :=
  Forall2 (fun batch done => Permutation (map fst done) batch)
    batches completions.

(** The working proxies [main] ends up with in [ass.js]. *)
Definition verify (maxBots : nat) (completions : list (list (jsstring * bool)))
  : Found :=
  test_batches (maxBots * 2) completions
    {| workingProxies := []; proxiesWorking := 0 |}.

End Proxies.

(** * [ass.js]: the operator's console ([UltraCommandInterface]) *)

Module Console.

Definition space : N := 32%N.
Definition slash : N := 47%N.

(** [getInfo()], without the telemetry ([position], [health], [food]). *)
Record Info : Type := {
  info_index : nat;
  info_username : jsstring;
  info_connected : bool;
  info_proxy : bool;
  info_messages : nat }.

Definition getInfo (this : Ultra.UltraBot) : Info :=
  {| info_index := Ultra.index this;
     info_username := Ultra.username this;
     info_connected := Ultra.connected this;
     info_proxy := is_Some_b (Ultra.proxy this);
     info_messages := length (Ultra.messages this) |}.

(** What the command interface itself writes to the terminal. [Title]
    stands for [showTitle()], which clears the terminal first. *)
Inductive Screen : Type :=
| HelpTable
| BotTable (rows : list Info)
| BotNotFound
| BotInfo (info : Info)
| MacroNotFound (name : option jsstring)
| ExecutingMacro (name : jsstring)
| Title
| Farewell.

(** The timers set by the command interface. *)
Inductive Timer : Type :=
| MacroStep (cmd : jsstring) (delay : N)
| ExitTimer.

(** The command interface and the program it drives. The lines it
    writes are kept apart from those of the pool, each with the number of
    lines the pool had written before it. [exited] is set by
    [process.exit]. *)
Record State : Type := {
  world : Ultra.World;
  commandHistory : list jsstring;
  macros : gmap jsstring (list jsstring);
  screen : list (nat * Screen);
  timers : list Timer;
  exited : bool }.

Definition on_world (f : Ultra.World -> Ultra.World) (st : State) : State :=
  {| world := f (world st); commandHistory := commandHistory st;
     macros := macros st; screen := screen st; timers := timers st;
     exited := exited st |}.

Definition show (l : Screen) (st : State) : State :=
  {| world := world st; commandHistory := commandHistory st;
     macros := macros st;
     screen := screen st ++ [(length (Ultra.console (world st)), l)];
     timers := timers st; exited := exited st |}.

Definition set_timers (ts : list Timer) (st : State) : State :=
  {| world := world st; commandHistory := commandHistory st;
     macros := macros st; screen := screen st; timers := ts;
     exited := exited st |}.

Definition push_history (line : jsstring) (st : State) : State :=
  {| world := world st; commandHistory := commandHistory st ++ [line];
     macros := macros st; screen := screen st; timers := timers st;
     exited := exited st |}.

Definition set_exited (st : State) : State :=
  {| world := world st; commandHistory := commandHistory st;
     macros := macros st; screen := screen st; timers := timers st;
     exited := true |}.

(** [loadMacros()] *)
Definition loadMacros : gmap jsstring (list jsstring) :=
  <[js "spam" := [js "Hello!"; js "How are you?"; js "Nice server!"]]>
    (<[js "joinserver" := [js "/server survival"; js "/server skyblock"]]> ∅).

(** The constructor, for the program state [w]. *)
Definition new_UltraCommandInterface (w : Ultra.World) : State :=
  {| world := w; commandHistory := []; macros := loadMacros; screen := [];
     timers := []; exited := false |}.

(** ** [parseInt]

    [parseInt(string)] without a radix: white space is skipped, a sign is
    read, the digits that follow are read in base 10, or in base 16 after
    [0x]; without a digit the result is [NaN] ([None]), as it is for
    [undefined]. The result is a Number, that is a double: the sign and
    the magnitude the digits denote, rounded to the nearest integer that
    a double holds (53 significant bits, a tie going to the even one), or
    [Infinity] from 2^1024 on. (Past the 20th decimal digit the language
    lets an implementation read a digit as 0; Node reads them all.) *)
Inductive Magnitude : Type :=
  | Finite (value : N)
  | Infinity.

(** The double nearest to the natural number [m]. *)
Definition to_double (m : N) : Magnitude :=
  let size := N.size m in
  if N.leb size 53 then Finite m
  else
    let shift := (size - 53)%N in
    let kept := N.shiftr m shift in
    let dropped := N.land m (N.ones shift) in
    let half := N.shiftl 1 (shift - 1) in
    let rounded :=
      if N.ltb half dropped || (N.eqb dropped half && N.odd kept)
      then (kept + 1)%N else kept in
    let value := N.shiftl rounded shift in
    if N.ltb 1024 (N.size value) then Infinity else Finite value.

Definition digit_value (radix c : N) : option N :=
  let v := if N.leb 48 c && N.leb c 57 then Some (c - 48)%N
           else if N.leb 97 c && N.leb c 122 then Some (c - 87)%N
           else if N.leb 65 c && N.leb c 90 then Some (c - 55)%N
           else None in
  match v with
  | Some d => if N.ltb d radix then Some d else None
  | None => None
  end.

Fixpoint digits_prefix (radix : N) (acc : option N) (s : jsstring) : option N :=
  match s with
  | [] => acc
  | c :: s' =>
      match digit_value radix c with
      | Some d =>
          digits_prefix radix
            (Some (radix * match acc with Some a => a | None => 0 end + d)%N) s'
      | None => acc
      end
  end.

Definition parseInt (arg : option jsstring) : option (bool * Magnitude) :=
  match arg with
  | None => None
  | Some s =>
      let s := trimStart s in
      let '(negative, s) :=
        match s with
        | 45%N :: s' => (true, s')
        | 43%N :: s' => (false, s')
        | _ => (false, s)
        end in
      let '(radix, s) :=
        match s with
        | 48%N :: 120%N :: s' => (16%N, s')
        | 48%N :: 88%N :: s' => (16%N, s')
        | _ => (10%N, s)
        end in
      (fun v => (negative, to_double v)) <$> digits_prefix radix None s
  end.

(** [index === parseInt(arg)], for an [index] that is a natural number
    (the index of a bot, a count below 2^53); [-0 === 0] holds. *)
Definition equals_parsed (index : nat) (parsed : option (bool * Magnitude)) : bool :=
  match parsed with
  | Some (negative, Finite v) =>
      N.eqb (N.of_nat index) v && (negb negative || N.eqb v 0)
  | Some (_, Infinity) => false
  | None => false
  end.

(** ** The commands *)

Definition showHelp (st : State) : State := show HelpTable st.

Definition broadcast (message : jsstring) (st : State) : State :=
  on_world (fun w => snd (Ultra.broadcast message w)) st.

Definition executeCommand (command : jsstring) (st : State) : State :=
  on_world (fun w => snd (Ultra.executeCommand command w)) st.

(** The bots behind [this.bots]. *)
Definition members (st : State) : list Ultra.UltraBot :=
  omap (fun ref => Ultra.objs (world st) !! ref) (Ultra.bots (world st)).

Definition listBots (st : State) : State :=
  show (BotTable (map getInfo (members st))) st.

(** [showBotInfo(index)] *)
Definition showBotInfo (index : option jsstring) (st : State) : State :=
  match find (fun b => equals_parsed (Ultra.index b) (parseInt index))
          (members st) with
  | None => show BotNotFound st
  | Some bot => show (BotInfo (getInfo bot)) st
  end.

(** The callback of a macro timer. *)
Definition macro_step (cmd : jsstring) (st : State) : State :=
  if startsWith cmd [slash] then executeCommand cmd st else broadcast cmd st.

(** [executeMacro(name)]: one timer per step, a second apart. *)
Definition executeMacro (name : option jsstring) (st : State) : State :=
  match name with
  | None => show (MacroNotFound None) st
  | Some key =>
      match macros st !! key with
      | None => show (MacroNotFound name) st
      | Some macro =>
          let st := show (ExecutingMacro key) st in
          set_timers
            (timers st ++
             imap (fun index cmd => MacroStep cmd (N.of_nat index * 1000)) macro)
            st
      end
  end.

Definition stopAll (st : State) : State := on_world Ultra.stopAll st.

(** [exit()] *)
Definition exit (st : State) : State :=
  let st := stopAll st in
  set_timers (timers st ++ [ExitTimer]) st.

(** The cases of the [switch] of [processCommand]. The keywords are
    ASCII and none has the letter k. The only letters outside ASCII whose
    lower case has an ASCII letter are the Kelvin sign (k) and the dotted
    capital I (i and a combining dot), so a word with a letter outside
    ASCII matches no keyword, and folding the ASCII letters decides the
    cases as [toLowerCase] does. *)
Inductive Keyword : Type :=
| KHelp | KSay | KCmd | KStats | KList | KInfo | KMacro | KClear | KStop
| KExit | KDefault.

Definition is_word (c : jsstring) (keyword : string) : bool :=
  bool_decide (c = js keyword).

Definition keyword_of (c : jsstring) : Keyword :=
  if is_word c "help" || is_word c "?" then KHelp
  else if is_word c "say" || is_word c "chat" then KSay
  else if is_word c "cmd" || is_word c "command" then KCmd
  else if is_word c "stats" then KStats
  else if is_word c "list" || is_word c "bots" then KList
  else if is_word c "info" then KInfo
  else if is_word c "macro" then KMacro
  else if is_word c "clear" then KClear
  else if is_word c "stop" then KStop
  else if is_word c "exit" || is_word c "quit" then KExit
  else KDefault.

(** [processCommand(input)] *)
Definition processCommand (input : jsstring) (st : State) : State :=
  match Proxies.split space input with
  | [] => st
  | command :: args =>
      match keyword_of (toLowerCase command) with
      | KHelp => showHelp st
      | KSay => broadcast (Proxies.join space args) st
      | KCmd => executeCommand (Proxies.join space args) st
      | KStats => on_world Ultra.displayStats st
      | KList => listBots st
      | KInfo => showBotInfo (head args) st
      | KMacro => executeMacro (head args) st
      | KClear => on_world Ultra.displayStats (show Title st)
      | KStop => stopAll st
      | KExit => exit st
      | KDefault =>
          if startsWith input [slash] then executeCommand input st
          else broadcast input st
      end
  end.

(** The ['line'] listener set by [start()]. *)
Definition on_line (line : jsstring) (st : State) : State :=
  match trim line with
  | [] => st
  | _ :: _ => processCommand (trim line) (push_history line st)
  end.

(** A timer of the command interface fires. *)
Definition fire (n : nat) (st : State) : State :=
  match timers st !! n with
  | None => st
  | Some t =>
      let st := set_timers (delete n (timers st)) st in
      match t with
      | MacroStep cmd _ => macro_step cmd st
      | ExitTimer => set_exited (show Farewell st)
      end
  end.

End Console.

(** * [ass.js]: [checkServerStatus] and [generateUsername] *)

Module ServerCheck.

(** The events of the socket that have a listener. *)
Inductive SocketEvent : Type :=
| Connect
| Error
| Timeout.

Inductive Spinner : Type :=
| Online
| Offline
| OfflineTimeout.

(** The local [resolved], the calls of [resolve] with their argument, the
    lines of the spinner and the calls of [socket.destroy]. *)
Record State : Type := {
  resolved : bool;
  resolves : list bool;
  spinner : list Spinner;
  destroyed : nat }.

Definition start : State :=
  {| resolved := false; resolves := []; spinner := []; destroyed := 0 |}.

(** The three listeners. *)
Definition listener (ev : SocketEvent) (s : State) : State :=
  if resolved s then s
  else
    match ev with
    | Connect =>
        {| resolved := true; resolves := resolves s ++ [true];
           spinner := spinner s ++ [Online]; destroyed := S (destroyed s) |}
    | Error =>
        {| resolved := true; resolves := resolves s ++ [false];
           spinner := spinner s ++ [Offline]; destroyed := destroyed s |}
    | Timeout =>
        {| resolved := true; resolves := resolves s ++ [false];
           spinner := spinner s ++ [OfflineTimeout];
           destroyed := S (destroyed s) |}
    end.

(** [checkServerStatus(host, port)] for the events the socket emits. *)
Definition checkServerStatus (evs : list SocketEvent) : State :=
  fold_left (fun s ev => listener ev s) evs start.

(** The value of the promise: that of the first call of [resolve]. *)
Definition isOnline (s : State) : option bool := head (resolves s).

End ServerCheck.

Module Names.

Definition prefixes : list jsstring :=
  [js "Storm"; js "Thunder"; js "Lightning"; js "Shadow"; js "Phantom";
   js "Ghost"; js "Ninja"; js "Dragon"].

(** The decimal digits of a number, most significant first, as
    [Number.prototype.toString] writes an integer below 10^21. *)
Fixpoint decimal_loop (fuel : nat) (n : N) (acc : jsstring) : jsstring :=
  match fuel with
  | 0 => acc
  | S fuel' =>
      let acc := (48 + n mod 10)%N :: acc in
      if N.ltb n 10 then acc else decimal_loop fuel' (n / 10)%N acc
  end.

Definition decimal (n : N) : jsstring := decimal_loop 21 n [].

(** [generateUsername()], for the two draws [Math.floor(Math.random() *
    prefixes.length)] and [Math.floor(Math.random() * 99999)]. *)
Definition generateUsername (pick : nat) (number : N) : jsstring :=
  match prefixes !! pick with
  | Some prefix => prefix ++ decimal number
  | None => js "undefined" ++ decimal number
  end.

End Names.

(** * [ass.js]: the arguments of [main] *)

Module Config.

(** [hostPort.includes(':') ? hostPort.split(':') : [hostPort, '25565']],
    destructured as [[host, port]]: the first two segments, where a
    missing one is [undefined]. *)
Definition split_target (hostPort : jsstring) : option jsstring * option jsstring :=
  if includes hostPort [colon] then
    let segments := Proxies.split colon hostPort in
    (segments !! 0, segments !! 1)
  else (Some hostPort, Some (js "25565")).

(** The [config] object; a number is what [parseInt] returns. *)
Record Config : Type := {
  host : option jsstring;
  port : option (bool * Console.Magnitude);
  version : jsstring;
  maxBots : option (bool * Console.Magnitude);
  delay : option (bool * Console.Magnitude) }.

(** The arguments of the command line as [main] reads them; with fewer
    than two, the usage is printed and the process exits ([None]). *)
Definition read_args (args : list jsstring) : option Config :=
  match args with
  | hostPort :: version :: rest =>
      let maxBots := default (js "10") (rest !! 0) in
      let delay := default (js "3000") (rest !! 1) in
      let '(host, port) := split_target hostPort in
      Some {| host := host;
              port := Console.parseInt port;
              version := version;
              maxBots := Console.parseInt (Some maxBots);
              delay := Console.parseInt (Some delay) |}
  | _ => None
  end.

End Config.

(** * Words of the specification, and the states used in examples *)

(** The language of a regular expression. *)
Inductive Matches : regex -> jsstring -> Prop :=
| MEps : Matches Eps []
| MClass p c : p c = true -> Matches (Class p) [c]
| MAltL r1 r2 s : Matches r1 s -> Matches (Alt r1 r2) s
| MAltR r1 r2 s : Matches r2 s -> Matches (Alt r1 r2) s
| MCat r1 r2 s1 s2 :
    Matches r1 s1 -> Matches r2 s2 -> Matches (Cat r1 r2) (s1 ++ s2)
| MStar0 r : Matches (Star r) []
| MStarApp r s1 s2 :
    Matches r s1 -> Matches (Star r) s2 -> Matches (Star r) (s1 ++ s2).

(** A non-empty group of decimal digits. *)
Definition digit_group (s : jsstring) : Prop :=
  s <> [] /\ Forall (fun c => is_digit c = true) s.

(** The strict shape of an endpoint: four digit groups separated by dots,
    a colon, and a digit group. *)
Definition ip_port_shape (s : jsstring) : Prop :=
  exists a b c d port,
    digit_group a /\ digit_group b /\ digit_group c /\ digit_group d /\
    digit_group port /\
    s = a ++ [dot] ++ b ++ [dot] ++ c ++ [dot] ++ d ++ [colon] ++ port.

(** A line of white space only; a line with something else in it. *)
Definition blank (line : jsstring) : Prop :=
  Forall (fun c => is_whitespace c = true) line.

Definition not_blank (line : jsstring) : Prop :=
  exists c, c ∈ line /\ is_whitespace c = false.

(** [line] is a line of [data]: a stretch of [data] without a line feed
    that begins at the start of [data] or just after a line feed, and
    ends at the end of [data] or just before a line feed. *)
Definition line_of (data line : jsstring) : Prop :=
  (newline ∉ line) /\
  exists before after,
    data = before ++ line ++ after /\
    (before = [] \/ last before = Some newline) /\
    (after = [] \/ head after = Some newline).

(** [line] is [text] with white space, and nothing else, around it. *)
Definition padded (line text : jsstring) : Prop :=
  exists lead trail, line = lead ++ text ++ trail /\ blank lead /\ blank trail.

(** [p] is an endpoint found in the sources: a string of the ip:port
    shape that is, up to white space around it, a line of the body of a
    source that answered. *)
Definition endpoint_of (responses : list Ultra.Response) (p : jsstring) : Prop :=
  ip_port_shape p /\
  exists data line,
    Ultra.Body data ∈ responses /\ line_of data line /\ padded line p.

(** Every request settled: no response was cut. *)
Definition all_settled (responses : list Ultra.Response) : Prop :=
  forall received, Ultra.Cut received ∉ responses.

(** The prompt of the scenario. *)
Definition login_prompt : jsstring :=
  js "Please, login with the command /login <password>".

(** The scripted replies to one inbound text, as chat calls on client
    [h]: one per prompt that occurs in it, in the order of the tests. *)
Definition ultra_replies (h : nat) (username text : jsstring)
  : list (nat * jsstring) :=
  let password := reverse_string username in
  (if includes text (js "/register")
   then [(h, js "/register " ++ password ++ js " " ++ password)] else []) ++
  (if includes text (js "/login")
   then [(h, js "/login " ++ password)] else []) ++
  (if includes text (js "Please, login with the command")
   then [(h, js "/login " ++ password)] else []) ++
  (if includes text (js "premium") then [(h, js "/nlogin")] else []).

Definition enhanced_replies (h : nat) (username text : jsstring)
  : list (nat * jsstring) :=
  let password := reverse_string username in
  (if includes text (js "/register")
   then [(h, js "/register " ++ password ++ js " " ++ password)] else []) ++
  (if includes text (js "/login")
   then [(h, js "/login " ++ password)] else []) ++
  (if includes text (js "premium") then [(h, js "/nlogin")] else []).

(** What holds of every [UltraBot] in every state the program reaches:
    the reconnect counter stays within its cap, and a bot that is
    [connected] has a protocol client. *)
Definition bot_ok (b : Ultra.UltraBot) : Prop :=
  Ultra.reconnectAttempts b <= Ultra.maxReconnects b /\
  (Ultra.connected b = true -> is_Some (Ultra.bot b)).

(** Well-formed states: every stored bot is [bot_ok], every protocol
    client belongs to a stored bot that holds a client, and no bot is
    stored under an index that [spawnBot] has yet to give out. *)
Definition wf (w : Ultra.World) : Prop :=
  (forall ref b, Ultra.objs w !! ref = Some b -> bot_ok b) /\
  (forall h ref, Ultra.clients w !! h = Some ref ->
     exists b, Ultra.objs w !! ref = Some b /\ is_Some (Ultra.bot b)) /\
  (forall ref b, Ultra.objs w !! ref = Some b -> ref <= Ultra.botIndex w).

(** The states reached from the start of the spawn phase. *)
Definition reachable (w : Ultra.World) : Prop :=
  exists maxBots delay allProxies workingProxies evs,
    w = Ultra.run (Ultra.init maxBots delay allProxies workingProxies) evs.

(** An entry to [Ended] of the bot [ref]: one of its clients emits
    ['kicked'] or ['end']. *)
Definition termination_of (w : Ultra.World) (ref : nat) (ev : Ultra.Event)
  : Prop :=
  exists h, Ultra.clients w !! h = Some ref /\
    ((exists reason, ev = Ultra.Emit h (Ultra.Kicked reason)) \/
     (exists reason, ev = Ultra.Emit h (Ultra.End reason))).

(** The bot [ref] has used up its reconnect attempts. *)
Definition capped (ref : nat) (w : Ultra.World) : Prop :=
  exists this, Ultra.objs w !! ref = Some this /\
    Ultra.reconnectAttempts this = Ultra.maxReconnects this.

(** What an entry to [Ended] leaves alone once the cap is reached. *)
Definition nothing_scheduled (w w' : Ultra.World) : Prop :=
  Ultra.pending w' = Ultra.pending w /\
  Ultra.clients w' = Ultra.clients w /\
  Ultra.reconnects (Ultra.stats w') = Ultra.reconnects (Ultra.stats w).

(** The bot [ref] of the store [m] is Active: its [connected] flag is set. *)
Definition is_active (m : gmap nat Ultra.UltraBot) (ref : nat) : bool :=
  match m !! ref with
  | Some this => Ultra.connected this
  | None => false
  end.

(** The protocol client the bot [ref] holds, if any. *)
Definition client_of (m : gmap nat Ultra.UltraBot) (ref : nat) : option nat :=
  m !! ref ≫= Ultra.bot.

(** The members of the pool that are Active, in pool order. *)
Definition active_members (w : Ultra.World) : list nat :=
  filter (fun ref => is_active (Ultra.objs w) ref = true) (Ultra.bots w).

(** Every Active bot among [refs] holds a protocol client. *)
Definition members_ok (m : gmap nat Ultra.UltraBot) (refs : list nat) : bool :=
  forallb
    (fun ref =>
       match m !! ref with
       | Some this => implb (Ultra.connected this) (is_Some_b (Ultra.bot this))
       | None => true
       end)
    refs.

(** The chat calls that deliver [message] to the bots [refs]. *)
Definition deliveries (m : gmap nat Ultra.UltraBot) (message : jsstring)
    (refs : list nat) : list (nat * jsstring) :=
  omap (fun ref => (fun h => (h, message)) <$> client_of m ref) refs.

(** The loop of [broadcast]: what [n] more deliveries change. *)
Definition delivered (w w' : Ultra.World) (n : nat) (cs : list (nat * jsstring))
  : Prop :=
  Ultra.objs w' = Ultra.objs w /\
  Ultra.stats w' =
    Ultra.set_messagesSent (Ultra.messagesSent (Ultra.stats w) + n) (Ultra.stats w) /\
  Ultra.chats w' = Ultra.chats w ++ cs /\
  Ultra.logfile w' = Ultra.logfile w /\
  Ultra.bots w' = Ultra.bots w /\
  Ultra.isRunning w' = Ultra.isRunning w /\
  Ultra.pending w' = Ultra.pending w /\
  Ultra.clients w' = Ultra.clients w /\
  Ultra.quits w' = Ultra.quits w.

Definition enhanced_client_of (m : gmap nat Enhanced.EnhancedBot) (ref : nat)
  : option nat :=
  m !! ref ≫= Enhanced.bot.

(** Whole-number quotients rounded down and up. *)
Definition floor_div (m k : nat) : nat := m / k.
Definition ceil_div (m k : nat) : nat := (m + k - 1) / k.

(** The relay of the bot [ref], if it has one. *)
Definition proxy_of (m : gmap nat Ultra.UltraBot) (ref : nat) : option jsstring :=
  m !! ref ≫= Ultra.proxy.

Definition enhanced_proxy_of (m : gmap nat Enhanced.EnhancedBot) (ref : nat)
  : option jsstring :=
  m !! ref ≫= Enhanced.proxy.

(** How many members of the pool go through the relay [p]. *)
Definition sessions_on (w : Ultra.World) (p : jsstring) : nat :=
  length (filter (fun ref => proxy_of (Ultra.objs w) ref = Some p) (Ultra.bots w)).

Definition enhanced_sessions_on (v : Enhanced.World) (p : jsstring) : nat :=
  length (filter (fun ref => enhanced_proxy_of (Enhanced.objs v) ref = Some p)
            (Enhanced.bots v)).

(** How many members of the pool connect directly. *)
Definition enhanced_unproxied (v : Enhanced.World) : nat :=
  length (filter (fun ref => enhanced_proxy_of (Enhanced.objs v) ref = None)
            (Enhanced.bots v)).

(** [spawnBot] called once per element of [envs], as its timer does. *)
Definition spawn_all (envs : list Ultra.Env) (w : Ultra.World) : Ultra.World :=
  fold_left (fun w e => Ultra.spawnBot e w) envs w.

Definition enhanced_spawn_all (envs : list Enhanced.Env) (v : Enhanced.World)
  : Enhanced.World :=
  fold_left (fun v e => Enhanced.spawnBot e v) envs v.

(** The pool after [n] of [m] bots are spawned over the relays [wp]:
    member [i + 1] holds the relay that [assign_proxy] picks for [i]. *)
Definition spawned (wp : list jsstring) (m n : nat) (w : Ultra.World) : Prop :=
  Ultra.isRunning w = true /\
  Ultra.maxBots w = m /\
  Ultra.workingProxies w = wp /\
  Ultra.botIndex w = n /\
  Ultra.bots w = seq 1 n /\
  forall i, i < n -> proxy_of (Ultra.objs w) (S i) = Ultra.assign_proxy wp i.

Definition enhanced_spawned (wp : list jsstring) (m n : nat) (v : Enhanced.World)
  : Prop :=
  Enhanced.maxBots v = m /\
  Enhanced.workingProxies v = wp /\
  Enhanced.botIndex v = n /\
  Enhanced.bots v = seq 1 n /\
  forall i, i < n ->
    enhanced_proxy_of (Enhanced.objs v) (S i) = Enhanced.assign_proxy wp i.

(** ** Concrete runs *)

(** The draws and outcomes of a callback: the promise is rejected (or
    resolved), [createBot] returns a client. *)
Definition env_rejected : Ultra.Env :=
  {| Ultra.resolved := false; Ultra.created := true;
     Ultra.gen_username := js "Storm42"; Ultra.gen_joinDelay := 100%N;
     Ultra.gen_jitter := 5%N |}.

Definition env_resolved : Ultra.Env :=
  {| Ultra.resolved := true; Ultra.created := true;
     Ultra.gen_username := js "Storm42"; Ultra.gen_joinDelay := 100%N;
     Ultra.gen_jitter := 5%N |}.

Definition enhanced_env : Enhanced.Env :=
  {| Enhanced.resolved := true; Enhanced.created := true;
     Enhanced.gen_username := js "Storm42" |}.

(** One bot is spawned; its ping fails, so it connects at once, and the
    server acknowledges the login: client [0] belongs to an Active bot. *)
Definition ultra_one_active : Ultra.World :=
  Ultra.run (Ultra.init 1 3000 [] [])
    [Ultra.Fire 0 env_rejected; Ultra.Fire 0 env_rejected;
     Ultra.Emit 0 Ultra.Login].

Definition enhanced_one_active : Enhanced.World :=
  Enhanced.run (Enhanced.spawnBot enhanced_env (Enhanced.init 1 3000 [] []))
    [Enhanced.Emit 0 Enhanced.Login].

(** Three bots are spawned and connect; the first two log in. *)
Definition ultra_pool3 : Ultra.World :=
  Ultra.run (Ultra.init 3 3000 [] [])
    [Ultra.Fire 0 env_rejected; Ultra.Fire 1 env_rejected;
     Ultra.Fire 2 env_rejected;
     Ultra.Fire 0 env_rejected; Ultra.Fire 0 env_rejected;
     Ultra.Fire 0 env_rejected;
     Ultra.Emit 0 Ultra.Login; Ultra.Emit 1 Ultra.Login].

(** One bot and its three reconnects: each time the connection ends, the
    reconnect timer fires, the ping fails and a new client is made.
    Client [3] is the one of the third reconnect. *)
Definition ultra_capped : Ultra.World :=
  Ultra.run (Ultra.init 1 3000 [] [])
    [Ultra.Fire 0 env_rejected; Ultra.Fire 0 env_rejected;
     Ultra.Emit 0 (Ultra.End None);
     Ultra.Fire 0 env_rejected; Ultra.Fire 0 env_rejected;
     Ultra.Emit 1 (Ultra.End None);
     Ultra.Fire 0 env_rejected; Ultra.Fire 0 env_rejected;
     Ultra.Emit 2 (Ultra.End None);
     Ultra.Fire 0 env_rejected; Ultra.Fire 0 env_rejected].

(** One bot that has come to rest at the cap while an earlier connection
    of its own is still open. The bot logs in (client [0]); the server
    kicks it and the transport closes, which sets two reconnect timers;
    both fire and both pings fail, so clients [1] and [2] are made and
    the bot holds client [2]. Client [2] ends, the third reconnect makes
    client [3], and client [3] ends: the cap is reached and nothing is
    scheduled. Client [1] has emitted nothing yet. *)
Definition ultra_ended_at_cap : Ultra.World :=
  Ultra.run (Ultra.init 1 3000 [] [])
    [Ultra.Fire 0 env_rejected; Ultra.Fire 0 env_rejected;
     Ultra.Emit 0 Ultra.Login;
     Ultra.Emit 0 (Ultra.Kicked (js "Kicked")); Ultra.Emit 0 (Ultra.End None);
     Ultra.Fire 0 env_rejected; Ultra.Fire 0 env_rejected;
     Ultra.Fire 0 env_rejected; Ultra.Fire 0 env_rejected;
     Ultra.Emit 2 (Ultra.End None);
     Ultra.Fire 0 env_rejected; Ultra.Fire 0 env_rejected;
     Ultra.Emit 3 (Ultra.End None)].

(** One bot is spawned and the operator stops the pool while the bot's
    ping is still in flight. *)
Definition ultra_stopped_during_ping : Ultra.World :=
  Ultra.run (Ultra.init 1 3000 [] []) [Ultra.Fire 0 env_rejected; Ultra.Stop].

(** The terminations counted so far. *)
Definition termination_count (s : Ultra.Stats) : nat :=
  Ultra.failed s + Ultra.kicked s + Ultra.timeout s.

(** ** Invariants and measures of the further properties *)

(** The proxies whose test succeeded, in order of completion. *)
Definition succeeded (done : list (jsstring * bool)) : list jsstring :=
  map fst (filter (fun d => snd d = true) done).

(** How far the counters of [w'] are ahead of those of [w]: no counter is
    behind, the proxy counts and the locals of [main] are the same, the
    growth of [sent] is the number of new protocol clients, and
    [reconnects] has not grown by more than [kicked] and [timeout]
    together. *)
Definition advances (w w' : Ultra.World) : Prop :=
  let s := Ultra.stats w in
  let s' := Ultra.stats w' in
  (Ultra.sent s <= Ultra.sent s' /\
   Ultra.joined s <= Ultra.joined s' /\
   Ultra.kicked s <= Ultra.kicked s' /\
   Ultra.timeout s <= Ultra.timeout s' /\
   Ultra.failed s <= Ultra.failed s' /\
   Ultra.messagesSent s <= Ultra.messagesSent s' /\
   Ultra.commandsExecuted s <= Ultra.commandsExecuted s' /\
   Ultra.reconnects s <= Ultra.reconnects s') /\
  (Ultra.proxiesFound s' = Ultra.proxiesFound s /\
   Ultra.proxiesWorking s' = Ultra.proxiesWorking s /\
   Ultra.maxBots w' = Ultra.maxBots w /\
   Ultra.delay w' = Ultra.delay w /\
   Ultra.workingProxies w' = Ultra.workingProxies w) /\
  Ultra.sent s' + length (Ultra.clients w) =
    Ultra.sent s + length (Ultra.clients w') /\
  Ultra.reconnects s' + Ultra.kicked s + Ultra.timeout s <=
    Ultra.reconnects s + Ultra.kicked s' + Ultra.timeout s'.

(** How many elements of [l] pass the test [f]. *)
Definition count_of {A} (f : A -> bool) (l : list A) : nat :=
  length (filter (fun x => f x = true) l).

(** A pending callback that ends in a call of [actualConnect], if it is
    not dropped: a ping in flight, a join timer, a reconnect timer. *)
Definition connection_due (d : Ultra.Deferred) : bool :=
  match d with
  | Ultra.Ping _ | Ultra.JoinTimer _ _ | Ultra.ReconnectTimer _ _ => true
  | _ => false
  end.

Definition connections_due (p : list Ultra.Deferred) : nat :=
  count_of connection_due p.

(** The delays [attemptReconnect] can ask for. *)
Definition reconnect_delay_ok (d : Ultra.Deferred) : Prop :=
  match d with
  | Ultra.ReconnectTimer _ delay =>
      delay = 5000%N \/ delay = 10000%N \/ delay = 15000%N
  | _ => True
  end.

(** A bot is stored under its [index], with the reconnect cap of the
    constructor. *)
Definition bot_filed (ref : nat) (b : Ultra.UltraBot) : Prop :=
  Ultra.index b = ref /\ Ultra.maxReconnects b = 3.

(** The spawn phase so far: [botIndex] bots were made, numbered from 1,
    none beyond [maxBots]; they are the members of the pool, in spawn
    order, until [stopAll] empties it. *)
Definition pool_ok (w : Ultra.World) : Prop :=
  Ultra.botIndex w <= Ultra.maxBots w /\
  Ultra.bots w = (if Ultra.isRunning w then seq 1 (Ultra.botIndex w) else []) /\
  (forall ref, is_Some (Ultra.objs w !! ref) <-> 1 <= ref <= Ultra.botIndex w) /\
  map_Forall bot_filed (Ultra.objs w) /\
  Forall reconnect_delay_ok (Ultra.pending w).

(** From [w] to [w'], every new protocol client and every new pending
    connection is paid for by a spawn or by a counted reconnect. *)
Definition attempts_covered (w w' : Ultra.World) : Prop :=
  length (Ultra.clients w') + connections_due (Ultra.pending w')
    + Ultra.botIndex w + Ultra.reconnects (Ultra.stats w) <=
  length (Ultra.clients w) + connections_due (Ultra.pending w)
    + Ultra.botIndex w' + Ultra.reconnects (Ultra.stats w').

(** The callbacks and the lines of the end of the spawn phase. *)
Definition is_spawn_timer (d : Ultra.Deferred) : bool :=
  match d with Ultra.SpawnTimer _ => true | _ => false end.

Definition is_help_timer (d : Ultra.Deferred) : bool :=
  match d with Ultra.QuickHelpTimer => true | _ => false end.

Definition ready_line (l : Ultra.Line) : bool :=
  match l with Ultra.AllSpawned | Ultra.QuickHelp => true | _ => false end.

(** At most one spawn timer is pending, and only while bots are left to
    spawn; ["All bots spawned!"] and the quick help were neither printed
    nor scheduled. *)
Definition spawn_ok (w : Ultra.World) : Prop :=
  count_of is_spawn_timer (Ultra.pending w) <= 1 /\
  (count_of is_spawn_timer (Ultra.pending w) = 1 ->
   Ultra.botIndex w < Ultra.maxBots w) /\
  count_of is_help_timer (Ultra.pending w) = 0 /\
  count_of ready_line (Ultra.console w) = 0.

(** What a bot keeps for life: the fields the constructor sets and no
    method writes; its chat log only grows. *)
Definition kept (b b' : Ultra.UltraBot) : Prop :=
  Ultra.username b' = Ultra.username b /\
  Ultra.proxy b' = Ultra.proxy b /\
  Ultra.index b' = Ultra.index b /\
  Ultra.maxReconnects b' = Ultra.maxReconnects b /\
  Ultra.joinDelay b' = Ultra.joinDelay b /\
  Ultra.messages b `prefix_of` Ultra.messages b'.

(** The bot [b], stored at [ref] when it was looked at, is still there
    in [w], with what it keeps. *)
Definition still_there (ref : nat) (b : Ultra.UltraBot) (w : Ultra.World)
  : Prop :=
  ref <= Ultra.botIndex w /\
  exists b', Ultra.objs w !! ref = Some b' /\ kept b b'.

(** What the program leaves alone once it is shut down. *)
Definition idle (w w' : Ultra.World) : Prop :=
  Ultra.isRunning w' = Ultra.isRunning w /\
  Ultra.bots w' = Ultra.bots w /\
  Ultra.botIndex w' = Ultra.botIndex w /\
  Ultra.quits w' = Ultra.quits w /\
  Ultra.messagesSent (Ultra.stats w') = Ultra.messagesSent (Ultra.stats w) /\
  Ultra.commandsExecuted (Ultra.stats w') =
    Ultra.commandsExecuted (Ultra.stats w).

(** [botattack.js], from [v] to [v']: [sent] grows with the protocol
    clients, a client is made only for a bot just spawned, and the spawn
    loop stays within [maxBots]. *)
Definition enhanced_within (v v' : Enhanced.World) : Prop :=
  Enhanced.sent (Enhanced.stats v') + length (Enhanced.clients v) =
    Enhanced.sent (Enhanced.stats v) + length (Enhanced.clients v') /\
  length (Enhanced.clients v') + Enhanced.botIndex v <=
    length (Enhanced.clients v) + Enhanced.botIndex v' /\
  Enhanced.maxBots v' = Enhanced.maxBots v /\
  (Enhanced.botIndex v <= Enhanced.maxBots v ->
   Enhanced.botIndex v' <= Enhanced.maxBots v').

(** The commands of the console that read nothing after their name. *)
Definition takes_no_argument (k : Console.Keyword) : bool :=
  match k with
  | Console.KHelp | Console.KStats | Console.KList | Console.KClear
  | Console.KStop | Console.KExit => true
  | _ => false
  end.

(** The commands that read one word after their name. *)
Definition takes_one_word (k : Console.Keyword) : bool :=
  match k with
  | Console.KInfo | Console.KMacro => true
  | _ => false
  end.

(** What the steps of a macro do to the program, one after the other. *)
Definition macro_effect (macro : list jsstring) (w : Ultra.World) : Ultra.World :=
  fold_left
    (fun w cmd =>
       if startsWith cmd [Console.slash]
       then snd (Ultra.executeCommand cmd w)
       else snd (Ultra.broadcast cmd w))
    macro w.


(** Letters and digits of ASCII. *)
Definition is_alnum (c : N) : bool :=
  is_digit c || (N.leb 65 c && N.leb c 90) || (N.leb 97 c && N.leb c 122).

(** * Theorems *)

(** ** Proof steps shared by the lifecycle lemmas *)

(** Unfold the output and store helpers of [Ultra]. *)
Ltac ultra_unfold :=
  unfold Ultra.log, Ultra.saveLog, Ultra.displayStats, Ultra.bot_chat,
    Ultra.upd_stats, Ultra.upd_obj, Ultra.print, Ultra.defer in *.

Ltac enhanced_unfold :=
  unfold Enhanced.log, Enhanced.displayStats, Enhanced.bot_chat,
    Enhanced.upd_stats, Enhanced.upd_obj, Enhanced.print, Enhanced.defer in *.

(** Reduce the field reads of a record built by the setters. *)
Ltac fields :=
  cbn [Ultra.sent Ultra.joined Ultra.kicked Ultra.timeout Ultra.failed
    Ultra.proxiesFound Ultra.proxiesWorking Ultra.messagesSent
    Ultra.commandsExecuted Ultra.reconnects Ultra.username Ultra.proxy
    Ultra.index Ultra.connected Ultra.messages Ultra.bot
    Ultra.reconnectAttempts Ultra.maxReconnects Ultra.joinDelay Ultra.stats
    Ultra.isRunning Ultra.objs Ultra.bots Ultra.botIndex Ultra.pending
    Ultra.clients Ultra.chats Ultra.quits Ultra.console Ultra.logfile
    Ultra.maxBots Ultra.delay Ultra.workingProxies Ultra.set_sent
    Ultra.set_joined Ultra.set_kicked Ultra.set_timeout Ultra.set_failed
    Ultra.set_proxiesFound Ultra.set_proxiesWorking Ultra.set_messagesSent
    Ultra.set_commandsExecuted Ultra.set_reconnects Ultra.set_connected
    Ultra.set_messages Ultra.set_bot Ultra.set_reconnectAttempts
    Ultra.set_stats Ultra.set_isRunning Ultra.set_objs Ultra.set_bots
    Ultra.set_botIndex Ultra.set_pending Ultra.set_clients Ultra.set_chats
    Ultra.set_quits Ultra.set_console Ultra.set_logfile
    Enhanced.sent Enhanced.joined Enhanced.kicked Enhanced.timeout
    Enhanced.failed Enhanced.proxiesFound Enhanced.proxiesWorking
    Enhanced.username Enhanced.proxy Enhanced.index Enhanced.connected
    Enhanced.messages Enhanced.bot Enhanced.stats Enhanced.objs
    Enhanced.bots Enhanced.botIndex Enhanced.pending Enhanced.clients
    Enhanced.chats Enhanced.quits Enhanced.console Enhanced.maxBots
    Enhanced.delay Enhanced.workingProxies Enhanced.set_sent
    Enhanced.set_joined Enhanced.set_kicked Enhanced.set_timeout
    Enhanced.set_failed Enhanced.set_proxiesFound
    Enhanced.set_proxiesWorking Enhanced.set_connected Enhanced.set_messages
    Enhanced.set_bot Enhanced.set_stats Enhanced.set_objs Enhanced.set_bots
    Enhanced.set_botIndex Enhanced.set_pending Enhanced.set_clients
    Enhanced.set_chats Enhanced.set_quits Enhanced.set_console
    fst snd fmap option_fmap option_map] in *.

(** Case analysis on every store lookup and test a goal branches on. *)
Ltac case_lookups :=
  repeat (fields;
    match goal with
    | |- context [match ?m !! ?r with _ => _ end] => destruct (m !! r) eqn:?
    | |- context [match Ultra.bot ?b with _ => _ end] => destruct (Ultra.bot b) eqn:?
    | |- context [match Enhanced.bot ?b with _ => _ end] => destruct (Enhanced.bot b) eqn:?
    | |- context [match Ultra.proxy ?b with _ => _ end] => destruct (Ultra.proxy b) eqn:?
    | |- context [match Enhanced.proxy ?b with _ => _ end] => destruct (Enhanced.proxy b) eqn:?
    | |- context [if ?c then _ else _] => destruct c eqn:?
    end); fields.


(** Resolve the lookups of the object [ref], known to be in the store. *)
Ltac lookup_this H :=
  repeat (fields; rewrite ?lookup_alter_eq, ?H); fields.

(** ** Splitting, joining and trimming *)

Lemma split_nonempty sep s : Proxies.split sep s <> [].
Proof.
  induction s as [|c s IH]; cbn [Proxies.split]; [discriminate|].
  destruct (N.eqb c sep); [discriminate|].
  destruct (Proxies.split sep s); discriminate.
Qed.

Lemma join_cons sep x xs :
  xs <> [] -> Proxies.join sep (x :: xs) = x ++ sep :: Proxies.join sep xs.
Proof. destruct xs; [congruence | reflexivity]. Qed.

(** Joining the segments of a string with the separator it was split at
    gives the string back. *)
Lemma join_split (sep : N) (s : jsstring) :
  Proxies.join sep (Proxies.split sep s) = s.
Proof.
  induction s as [|c s IH]; [reflexivity|].
  cbn [Proxies.split]. destruct (N.eqb_spec c sep) as [->|Hne].
  - rewrite join_cons by apply split_nonempty. now rewrite IH.
  - pose proof (split_nonempty sep s) as Hs.
    destruct (Proxies.split sep s) as [|l ls]; [congruence|].
    destruct ls as [|l' ls].
    + cbn in *. now rewrite IH.
    + rewrite join_cons in * by discriminate. cbn [app]. now rewrite IH.
Qed.

Lemma split_app_sep sep x s :
  sep ∉ x -> Proxies.split sep (x ++ sep :: s) = x :: Proxies.split sep s.
Proof.
  induction x as [|c x IH]; intros Hx; cbn [app Proxies.split].
  - now rewrite N.eqb_refl.
  - destruct (N.eqb_spec c sep) as [->|Hne]; [exfalso; apply Hx; left|].
    rewrite IH by (intros H; apply Hx; now right). reflexivity.
Qed.

Lemma split_no_sep sep x : sep ∉ x -> Proxies.split sep x = [x].
Proof.
  induction x as [|c x IH]; intros Hx; cbn [Proxies.split]; [reflexivity|].
  destruct (N.eqb_spec c sep) as [->|Hne]; [exfalso; apply Hx; left|].
  rewrite IH by (intros H; apply Hx; now right). reflexivity.
Qed.

(** Splitting a joined text gives the joined strings back when none of
    them contains the separator (and there is at least one). *)
Lemma split_join (sep : N) (xs : list jsstring) :
  xs <> [] -> Forall (fun x => sep ∉ x) xs ->
  Proxies.split sep (Proxies.join sep xs) = xs.
Proof.
  induction xs as [|x xs IH]; intros Hne Hall; [congruence|].
  inversion Hall as [|? ? Hx Hxs]; subst.
  destruct xs as [|y xs].
  - cbn. now apply split_no_sep.
  - rewrite join_cons by discriminate. rewrite split_app_sep by assumption.
    now rewrite IH.
Qed.

Lemma split_lines_split s : split_lines s = Proxies.split newline s.
Proof.
  induction s as [|c s IH]; [reflexivity|].
  cbn [split_lines Proxies.split]. now rewrite IH.
Qed.

(** The characters of an endpoint are not white space. *)

Lemma digit_group_chars a :
  digit_group a -> Forall (fun c => is_digit c = true \/ c = dot \/ c = colon) a.
Proof. intros [_ H]. eapply Forall_impl; [exact H|]. intros c Hc. now left. Qed.

Lemma ip_port_shape_chars s :
  ip_port_shape s ->
  Forall (fun c => is_digit c = true \/ c = dot \/ c = colon) s.
Proof.
  intros (a & b & c & d & p & Ha & Hb & Hc & Hd & Hp & ->).
  apply digit_group_chars in Ha, Hb, Hc, Hd, Hp.
  repeat first [apply Forall_app; split | assumption
               | apply Forall_cons; split; [auto|] | apply Forall_nil_2].
Qed.

Lemma endpoint_char_plain c :
  is_digit c = true \/ c = dot \/ c = colon ->
  is_whitespace c = false /\ c <> newline.
Proof.
  intros [H|[->| ->]]; [|split; [reflexivity | discriminate]..].
  unfold is_digit in H. apply andb_true_iff in H as [Hlo Hhi].
  apply N.leb_le in Hlo, Hhi.
  split.
  - unfold is_whitespace. cbn [existsb].
    repeat (apply orb_false_iff; split); try reflexivity;
      apply N.eqb_neq; lia.
  - unfold newline. lia.
Qed.

Lemma trimStart_plain s :
  Forall (fun c => is_whitespace c = false) s -> trimStart s = s.
Proof.
  intros H. destruct H as [|c s Hc _]; cbn [trimStart];
    [reflexivity | now rewrite Hc].
Qed.

Lemma trim_plain s :
  Forall (fun c => is_whitespace c = false) s -> trim s = s.
Proof.
  intros H. unfold trim. rewrite (trimStart_plain s H).
  rewrite trimStart_plain by (apply Forall_rev; exact H).
  apply rev_involutive.
Qed.

(** ** The segments of a split, told without [split] *)

Lemma split_app_any sep a b :
  Proxies.split sep (a ++ sep :: b) = Proxies.split sep a ++ Proxies.split sep b.
Proof.
  induction a as [|c a IH]; cbn [app Proxies.split].
  - now rewrite N.eqb_refl.
  - rewrite IH. destruct (N.eqb c sep); [reflexivity|].
    pose proof (split_nonempty sep a) as Ha.
    destruct (Proxies.split sep a); [congruence | reflexivity].
Qed.

Lemma split_segments sep s : Forall (fun x => sep ∉ x) (Proxies.split sep s).
Proof.
  induction s as [|c s IH]; cbn [Proxies.split].
  - repeat constructor. apply not_elem_of_nil.
  - destruct (N.eqb_spec c sep) as [->|Hne].
    + constructor; [apply not_elem_of_nil | assumption].
    + destruct (Proxies.split sep s) as [|l ls];
        [repeat constructor; rewrite list_elem_of_singleton; congruence|].
      inversion IH as [|? ? Hl Hls]; subst. constructor; [|assumption].
      rewrite elem_of_cons. intros [?|?]; [congruence | contradiction].
Qed.

Lemma join_middle sep l1 x l2 :
  exists before after,
    Proxies.join sep (l1 ++ x :: l2) = before ++ x ++ after /\
    (before = [] \/ last before = Some sep) /\
    (after = [] \/ head after = Some sep).
Proof.
  induction l1 as [|y l1 (before & after & Heq & Hb & Ha)].
  - exists []. destruct l2 as [|z l2].
    + exists []. cbn. rewrite app_nil_r. auto.
    + exists (sep :: Proxies.join sep (z :: l2)).
      cbn [app]. rewrite join_cons by discriminate. auto.
  - exists (y ++ sep :: before), after. cbn [app].
    rewrite join_cons by (destruct l1; discriminate).
    rewrite Heq, <- app_assoc. cbn [app]. split; [reflexivity|].
    split; [right|assumption].
    destruct Hb as [->|Hb].
    + now rewrite last_snoc.
    + apply last_Some in Hb as (b' & ->).
      change (y ++ sep :: b' ++ [sep]) with (y ++ (sep :: b') ++ [sep]).
      now rewrite app_assoc, last_snoc.
Qed.

(** [x] is one of the segments of [s] exactly when it holds no separator
    and is a stretch of [s] between two separators, or between a
    separator and an end of [s]. *)
Lemma elem_of_split sep s x :
  x ∈ Proxies.split sep s <->
  (sep ∉ x) /\
  exists before after,
    s = before ++ x ++ after /\
    (before = [] \/ last before = Some sep) /\
    (after = [] \/ head after = Some sep).
Proof.
  split.
  - intros Hx. split.
    + pose proof (split_segments sep s) as H. rewrite Forall_forall in H. auto.
    + apply list_elem_of_split in Hx as (l1 & l2 & Hs).
      destruct (join_middle sep l1 x l2) as (before & after & Heq & Hb & Ha).
      exists before, after. rewrite <- Heq, <- Hs, join_split. auto.
  - intros (Hsep & before & after & -> & Hb & Ha).
    assert (Htail : x ∈ Proxies.split sep (x ++ after)).
    { destruct Ha as [->|Ha].
      - rewrite app_nil_r, split_no_sep by assumption. left.
      - destruct after as [|c after]; [discriminate|]. injection Ha as ->.
        rewrite split_app_sep by assumption. left. }
    destruct Hb as [->|Hb]; [exact Htail|].
    apply last_Some in Hb as (b' & ->).
    rewrite <- app_assoc. cbn [app]. rewrite split_app_any, elem_of_app. now right.
Qed.

(** ** What [trim] takes away *)

Lemma trimStart_decompose s :
  exists lead, s = lead ++ trimStart s /\ Forall (fun c => is_whitespace c = true) lead.
Proof.
  induction s as [|c s (lead & Heq & Hlead)]; [exists []; auto|].
  cbn [trimStart]. destruct (is_whitespace c) eqn:Hc.
  - exists (c :: lead). cbn [app]. rewrite <- Heq. auto.
  - exists []. auto.
Qed.

Lemma trim_decompose s :
  exists lead trail,
    s = lead ++ trim s ++ trail /\
    Forall (fun c => is_whitespace c = true) lead /\
    Forall (fun c => is_whitespace c = true) trail.
Proof.
  destruct (trimStart_decompose s) as (lead & Hs & Hlead).
  destruct (trimStart_decompose (rev (trimStart s))) as (back & Hrev & Hback).
  exists lead, (rev back). split; [|split; [assumption | now apply Forall_rev]].
  unfold trim. rewrite <- rev_app_distr, <- Hrev, rev_involutive. exact Hs.
Qed.

Lemma trimStart_lead lead c rest :
  Forall (fun c => is_whitespace c = true) lead -> is_whitespace c = false ->
  trimStart (lead ++ c :: rest) = c :: rest.
Proof.
  induction 1 as [|x lead Hx _ IH]; intros Hc; cbn [app trimStart].
  - now rewrite Hc.
  - rewrite Hx. now apply IH.
Qed.

(** A text that has no white space in it, and is not empty, is what
    [trim] leaves of it with white space around. *)
Lemma trim_padding lead text trail :
  Forall (fun c => is_whitespace c = true) lead ->
  Forall (fun c => is_whitespace c = true) trail ->
  Forall (fun c => is_whitespace c = false) text -> text <> [] ->
  trim (lead ++ text ++ trail) = text.
Proof.
  intros Hlead Htrail Htext Hne. unfold trim.
  destruct text as [|c text]; [congruence|].
  inversion Htext as [|? ? Hc Htext']; subst.
  cbn [app]. rewrite trimStart_lead by assumption.
  change (c :: text ++ trail) with ((c :: text) ++ trail).
  rewrite rev_app_distr.
  assert (Hrev : exists d back, rev (c :: text) = d :: back /\ is_whitespace d = false).
  { destruct (rev (c :: text)) as [|d back] eqn:Hr.
    - apply (f_equal (@length _)) in Hr. rewrite length_rev in Hr. discriminate.
    - exists d, back. split; [reflexivity|].
      assert (Hin : d ∈ rev (c :: text)) by (rewrite Hr; left).
      apply list_elem_of_In, in_rev, list_elem_of_In in Hin.
      rewrite Forall_forall in Htext. auto. }
  destruct Hrev as (d & back & Hr & Hd). rewrite Hr.
  rewrite trimStart_lead by (try apply Forall_rev; assumption).
  rewrite <- Hr. apply rev_involutive.
Qed.

(** ** Regular expressions and the proxy collection (C7) *)

Create HintDb regex discriminated.
#[local] Hint Constructors Matches : regex.

Lemma nullable_Matches r : nullable r = true <-> Matches r [].
Proof.
  split.
  - induction r; simpl; intros H; try discriminate; eauto with regex.
    + apply orb_true_iff in H as [H|H]; eauto with regex.
    + apply andb_true_iff in H as [H1 H2].
      change (@nil N) with (@nil N ++ []). eauto with regex.
  - intros H. remember [] as s eqn:Hs. induction H; simpl; subst; try discriminate; auto.
    + rewrite IHMatches; auto.
    + rewrite IHMatches; auto using orb_true_r.
    + apply app_eq_nil in Hs as [-> ->]. rewrite IHMatches1, IHMatches2; auto.
Qed.

Lemma deriv_sound c r : forall s, Matches (deriv c r) s -> Matches r (c :: s).
Proof.
  induction r; simpl; intros s H.
  - inversion H.
  - inversion H.
  - destruct (b c) eqn:E; inversion H; subst. now constructor.
  - inversion H; subst; eauto with regex.
  - destruct (nullable r1) eqn:E.
    + inversion H; subst.
      * match goal with H' : Matches (Cat _ _) _ |- _ => inversion H'; subst end.
        change (c :: s1 ++ s2) with ((c :: s1) ++ s2). eauto with regex.
      * change (c :: s) with ([] ++ c :: s). constructor; auto.
        now apply nullable_Matches.
    + inversion H; subst. change (c :: s1 ++ s2) with ((c :: s1) ++ s2).
      eauto with regex.
  - inversion H; subst. change (c :: s1 ++ s2) with ((c :: s1) ++ s2).
    eauto with regex.
Qed.

Lemma deriv_complete c r s0 :
  Matches r s0 -> forall t, s0 = c :: t -> Matches (deriv c r) t.
Proof.
  induction 1; intros t Ht; simpl; try discriminate.
  - injection Ht as -> <-. rewrite H. constructor.
  - eauto with regex.
  - eauto with regex.
  - destruct s1 as [|x s1]; simpl in Ht.
    + apply nullable_Matches in H as ->. subst. eauto with regex.
    + injection Ht as -> <-.
      destruct (nullable r1); eauto with regex.
  - destruct s1 as [|x s1]; simpl in Ht.
    + eauto.
    + injection Ht as -> <-. eauto with regex.
Qed.

Lemma test_Matches s : forall r, test r s = true <-> Matches r s.
Proof.
  induction s as [|c s IH]; intros r; simpl.
  - apply nullable_Matches.
  - rewrite IH. split; [apply deriv_sound | intros H; eapply deriv_complete; eauto].
Qed.

Lemma Matches_star_digit s :
  Matches (Star digit) s <-> Forall (fun c => is_digit c = true) s.
Proof.
  split.
  - intros H. remember (Star digit) as r eqn:Hr.
    induction H; try discriminate.
    + constructor.
    + injection Hr as ->. inversion H; subst. constructor; auto.
  - induction 1 as [|c s Hc _ IH].
    + constructor.
    + change (c :: s) with ([c] ++ s). constructor; auto. now constructor.
Qed.

Lemma Matches_plus_digit s : Matches (Plus digit) s <-> digit_group s.
Proof.
  unfold digit_group, Plus. split.
  - intros H. inversion H as [| | | |r1 r2 s1 s2 H1 H2| |]; subst.
    inversion H1; subst. apply Matches_star_digit in H2.
    split; [discriminate | constructor; auto].
  - intros [Hne HF]. destruct s as [|c s]; [congruence|].
    inversion HF; subst. change (c :: s) with ([c] ++ s).
    constructor; [now constructor | now apply Matches_star_digit].
Qed.

Lemma Matches_Lit c s : Matches (Lit c) s <-> s = [c].
Proof.
  unfold Lit. split.
  - intros H. inversion H; subst.
    match goal with E : N.eqb _ _ = true |- _ => apply N.eqb_eq in E as -> end.
    reflexivity.
  - intros ->. constructor. apply N.eqb_refl.
Qed.

Lemma Matches_Cat r1 r2 s :
  Matches (Cat r1 r2) s <->
  exists s1 s2, s = s1 ++ s2 /\ Matches r1 s1 /\ Matches r2 s2.
Proof.
  split.
  - intros H. inversion H; subst. eauto.
  - intros (s1 & s2 & -> & H1 & H2). now constructor.
Qed.

(** One [\d+] group followed by a separator. *)
Lemma Matches_group_sep sep r s :
  Matches (Cat (Plus digit) (Cat (Lit sep) r)) s <->
  exists a rest, digit_group a /\ Matches r rest /\ s = a ++ [sep] ++ rest.
Proof.
  rewrite Matches_Cat. split.
  - intros (a & t & -> & Ha & Ht). apply Matches_plus_digit in Ha.
    apply Matches_Cat in Ht as (x & rest & -> & Hx & Hrest).
    apply Matches_Lit in Hx as ->. eauto.
  - intros (a & rest & Ha & Hrest & ->). exists a, ([sep] ++ rest).
    split; [reflexivity|]. split; [now apply Matches_plus_digit|].
    constructor; [now apply Matches_Lit | assumption].
Qed.

(** The pattern of the source accepts exactly the strict shape. *)
Lemma ip_port_regex_shape s :
  test ip_port_regex s = true <-> ip_port_shape s.
Proof.
  rewrite test_Matches. unfold ip_port_regex, ip_port_shape.
  split.
  - intros H.
    apply Matches_group_sep in H as (a & ? & Ha & H & ->).
    apply Matches_group_sep in H as (b & ? & Hb & H & ->).
    apply Matches_group_sep in H as (c & ? & Hc & H & ->).
    apply Matches_group_sep in H as (d & p & Hd & H & ->).
    apply Matches_plus_digit in H.
    exists a, b, c, d, p. auto 10.
  - intros (a & b & c & d & p & Ha & Hb & Hc & Hd & Hp & ->).
    apply Matches_group_sep. exists a. eexists. split; [exact Ha|]. split; [|reflexivity].
    apply Matches_group_sep. exists b. eexists. split; [exact Hb|]. split; [|reflexivity].
    apply Matches_group_sep. exists c. eexists. split; [exact Hc|]. split; [|reflexivity].
    apply Matches_group_sep. exists d. eexists. split; [exact Hd|]. split; [|reflexivity].
    now apply Matches_plus_digit.
Qed.


Lemma includes_single c l : includes l [c] = true <-> c ∈ l.
Proof.
  induction l as [|x l IH]; simpl.
  - split; [discriminate | intros H; inversion H].
  - rewrite orb_true_iff, IH, andb_true_iff, N.eqb_eq, elem_of_cons.
    destruct l; simpl; intuition congruence.
Qed.

Lemma elem_of_trimStart x l : x ∈ trimStart l -> x ∈ l.
Proof.
  induction l as [|c l IH]; simpl; [auto|].
  destruct (is_whitespace c); [|auto].
  intros H. apply elem_of_cons. auto.
Qed.

Lemma elem_of_trim x l : x ∈ trim l -> x ∈ l.
Proof.
  unfold trim. intros H.
  apply elem_of_trimStart.
  apply list_elem_of_In, in_rev, list_elem_of_In.
  apply elem_of_trimStart.
  now apply list_elem_of_In, in_rev, list_elem_of_In in H.
Qed.

Lemma ip_port_shape_colon s : ip_port_shape s -> colon ∈ s.
Proof.
  intros (a & b & c & d & p & _ & _ & _ & _ & _ & ->).
  rewrite !elem_of_app, !list_elem_of_singleton. auto 10.
Qed.

(** The endpoints of one body: the lines that are, up to white space
    around them, of the ip:port shape. *)
Lemma elem_of_parse_proxies p data :
  p ∈ Ultra.parse_proxies data <->
  ip_port_shape p /\ exists line, line_of data line /\ padded line p.
Proof.
  unfold Ultra.parse_proxies, line_of, padded, blank.
  rewrite list_elem_of_filter, ip_port_regex_shape, list_elem_of_In, in_map_iff.
  split.
  - intros (Hs & line & <- & Hl). split; [assumption|].
    apply list_elem_of_In, list_elem_of_filter in Hl as [_ Hl].
    rewrite split_lines_split in Hl. apply elem_of_split in Hl.
    exists line. split; [exact Hl|]. apply trim_decompose.
  - intros (Hs & line & Hl & lead & trail & -> & Hlead & Htrail).
    split; [assumption|].
    assert (Hplain : Forall (fun c => is_whitespace c = false) p).
    { eapply Forall_impl; [exact (ip_port_shape_chars p Hs)|].
      intros c Hc. now apply endpoint_char_plain. }
    assert (Hne : p <> []).
    { intros ->. apply ip_port_shape_colon in Hs. inversion Hs. }
    exists (lead ++ p ++ trail). split; [now apply trim_padding|].
    apply list_elem_of_In, list_elem_of_filter. split.
    + apply includes_single. rewrite !elem_of_app.
      right. left. now apply ip_port_shape_colon.
    + rewrite split_lines_split. now apply elem_of_split.
Qed.

(** The loop over the sources comes to its end exactly when no response
    was cut. *)
Lemma push_sources_never_returns responses : forall acc,
  Ultra.push_sources acc responses = None <->
  exists received, Ultra.Cut received ∈ responses.
Proof.
  induction responses as [|r rest IH]; intros acc; cbn [Ultra.push_sources].
  - split; [discriminate | intros (? & H); inversion H].
  - destruct r as [data| |received]; cbn [Ultra.fetchFromUrl]; rewrite ?IH.
    + split; intros (x & Hx); exists x; [now right|].
      apply elem_of_cons in Hx as [?|?]; [discriminate | assumption].
    + split; intros (x & Hx); exists x; [now right|].
      apply elem_of_cons in Hx as [?|?]; [discriminate | assumption].
    + split; [|reflexivity]. intros _. exists received. left.
Qed.

Lemma elem_of_push_sources p responses : forall acc pushed,
  Ultra.push_sources acc responses = Some pushed ->
  p ∈ pushed <->
  p ∈ acc \/ exists data, Ultra.Body data ∈ responses /\ p ∈ Ultra.parse_proxies data.
Proof.
  induction responses as [|r rest IH]; intros acc pushed; cbn [Ultra.push_sources].
  - intros [= <-]. split; [auto|].
    intros [H|(data & H & _)]; [auto | inversion H].
  - destruct r as [data| |received]; cbn [Ultra.fetchFromUrl]; [| |discriminate];
      intros Hrest; rewrite (IH _ _ Hrest); clear IH Hrest.
    + rewrite elem_of_app. split.
      * intros [[H|H]|(d & H1 & H2)]; auto.
        -- right. exists data. split; [left | assumption].
        -- right. exists d. split; [now right | assumption].
      * intros [H|(d & H1 & H2)]; auto.
        apply elem_of_cons in H1 as [H1|H1]; [|eauto].
        injection H1 as ->. auto.
    + split.
      * intros [H|(d & H1 & H2)]; auto. right. exists d. split; [now right | assumption].
      * intros [H|(d & H1 & H2)]; auto.
        apply elem_of_cons in H1 as [H1|H1]; [discriminate | eauto].
Qed.

(** A source whose request failed leaves no trace in the collection. *)
Lemma push_sources_failed before after : forall acc,
  Ultra.push_sources acc (before ++ Ultra.RequestError :: after) =
  Ultra.push_sources acc (before ++ after).
Proof.
  induction before as [|r before IH]; intros acc; cbn [app Ultra.push_sources];
    [reflexivity|].
  destruct (Ultra.fetchFromUrl r); [apply IH | apply IH | reflexivity].
Qed.

Lemma set_add_spec acc x :
  NoDup acc ->
  NoDup (Ultra.set_add acc x) /\ forall y, y ∈ Ultra.set_add acc x <-> y ∈ acc \/ y = x.
Proof.
  intros Hnd. unfold Ultra.set_add. destruct (decide (x ∈ acc)) as [Hin|Hin].
  - split; [assumption|]. intros y. split; [auto|]. intros [H| ->]; auto.
  - split.
    + apply NoDup_app. repeat split; auto using NoDup_singleton.
      intros y Hy Hy'. apply list_elem_of_singleton in Hy'. congruence.
    + intros y. now rewrite elem_of_app, list_elem_of_singleton.
Qed.

Lemma fold_set_add_spec xs : forall acc,
  NoDup acc ->
  NoDup (fold_left Ultra.set_add xs acc) /\
  forall y, y ∈ fold_left Ultra.set_add xs acc <-> y ∈ acc \/ y ∈ xs.
Proof.
  induction xs as [|x xs IH]; intros acc Hnd; simpl.
  - split; [assumption|]. intros y. split; [auto|]. intros [H|H]; [auto | inversion H].
  - destruct (set_add_spec acc x Hnd) as [Hnd' Hin].
    destruct (IH _ Hnd') as [Hnd'' Hin'']. split; [assumption|].
    intros y. rewrite Hin'', Hin, elem_of_cons. tauto.
Qed.

Lemma spread_new_Set_spec xs :
  NoDup (Ultra.spread_new_Set xs) /\
  (forall y, y ∈ Ultra.spread_new_Set xs <-> y ∈ xs) /\
  length (Ultra.spread_new_Set xs) = size (list_to_set (C := gset jsstring) xs).
Proof.
  unfold Ultra.spread_new_Set.
  destruct (fold_set_add_spec xs [] (NoDup_nil_2)) as [Hnd Hin].
  assert (Hin' : forall y, y ∈ fold_left Ultra.set_add xs [] <-> y ∈ xs).
  { intros y. rewrite Hin. split; [intros [H|H]; [inversion H | auto] | auto]. }
  repeat split; auto; try apply Hin'.
  rewrite <- (size_list_to_set (C := gset jsstring)) by assumption.
  f_equal. apply set_eq. intros y. now rewrite !elem_of_list_to_set, Hin'.
Qed.

(** What [fetchProxiesWithProgress] returns when every request settles.
    The candidates are pairwise distinct and are exactly the endpoints
    found in the sources that answered: the strings of the strict ip:port
    shape (four dot-separated digit groups, a colon, digits) that are, up
    to white space around them, a line of a body. Malformed lines are
    dropped and duplicates merged, so the number of candidates, which is
    also what [stats.proxiesFound] receives, is the number of distinct
    endpoints. A source whose request failed contributes nothing and
    raises nothing: without it in the sequence the result is the same. *)
Theorem collect_distinct_endpoints
    (responses : list Ultra.Response) (s : Ultra.Stats) :
  all_settled responses ->
  exists candidates s',
    Ultra.fetchProxiesWithProgress responses s = Some (candidates, s') /\
    NoDup candidates /\
    (forall p, p ∈ candidates <-> endpoint_of responses p) /\
    (forall E : gset jsstring,
       (forall p, p ∈ E <-> endpoint_of responses p) ->
       length candidates = size E) /\
    s' = Ultra.set_proxiesFound (length candidates) s /\
    (forall before after,
       responses = before ++ Ultra.RequestError :: after ->
       Ultra.fetchProxiesWithProgress (before ++ after) s = Some (candidates, s')).
Proof.
  intros Hsettled. unfold Ultra.fetchProxiesWithProgress.
  destruct (Ultra.push_sources [] responses) as [pushed|] eqn:Hpush.
  2:{ apply push_sources_never_returns in Hpush as (received & Hin).
      now apply Hsettled in Hin. }
  destruct (spread_new_Set_spec pushed) as (Hnd & Hin & _).
  assert (Hmem : forall p, p ∈ Ultra.spread_new_Set pushed <-> endpoint_of responses p).
  { intros p. rewrite Hin, (elem_of_push_sources p _ _ _ Hpush). unfold endpoint_of.
    split.
    - intros [H|(data & Hd & Hp)]; [inversion H|].
      apply elem_of_parse_proxies in Hp as (Hs & line & Hl & Hpad). eauto 10.
    - intros (Hs & data & line & Hd & Hl & Hpad).
      right. exists data. split; [assumption|].
      apply elem_of_parse_proxies. eauto. }
  eexists _, _. split; [reflexivity|]. split; [assumption|].
  split; [exact Hmem|]. split; [|split; [reflexivity|]].
  - intros E HE.
    rewrite <- (size_list_to_set (C := gset jsstring)) by assumption.
    f_equal. apply set_eq. intros y. now rewrite elem_of_list_to_set, Hmem, HE.
  - intros before after ->. now rewrite <- push_sources_failed, Hpush.
Qed.

Lemma collect_distinct_endpoints_witness :
  let body := js " 10.0.0.1:1080 " ++ newline :: js "junk" ++ newline ::
              js "10.0.0.2:1080" in
  let responses :=
    [Ultra.Body body; Ultra.RequestError; Ultra.Body (js "10.0.0.1:1080")] in
  Ultra.fetchProxiesWithProgress responses Ultra.stats0 =
    Some ([js "10.0.0.1:1080"; js "10.0.0.2:1080"],
          Ultra.set_proxiesFound 2 Ultra.stats0) /\
  NoDup [js "10.0.0.1:1080"; js "10.0.0.2:1080"] /\
  endpoint_of responses (js "10.0.0.1:1080").
Proof.
  intros body responses.
  assert (Hsettled : all_settled responses).
  { intros received Hin. unfold responses in Hin. rewrite !elem_of_cons in Hin.
    destruct Hin as [?|[?|[?|Hin]]]; try discriminate. inversion Hin. }
  destruct (collect_distinct_endpoints responses Ultra.stats0 Hsettled)
    as (candidates & s' & Heq & Hnd & Hmem & _).
  assert (Hrun : Ultra.fetchProxiesWithProgress responses Ultra.stats0 =
                 Some ([js "10.0.0.1:1080"; js "10.0.0.2:1080"],
                       Ultra.set_proxiesFound 2 Ultra.stats0))
    by (vm_compute; reflexivity).
  rewrite Hrun in Heq. injection Heq as <- <-.
  split; [exact Hrun|]. split; [exact Hnd|].
  apply Hmem. left.
Defined.

(** [fetchProxiesWithProgress] returns exactly when every request
    settles. *)
Lemma collect_returns_iff_settled responses s :
  is_Some (Ultra.fetchProxiesWithProgress responses s) <-> all_settled responses.
Proof.
  unfold Ultra.fetchProxiesWithProgress, all_settled.
  destruct (Ultra.push_sources [] responses) as [pushed|] eqn:Hpush.
  - split; [|eauto]. intros _ received Hin.
    assert (H : Ultra.push_sources [] responses = None)
      by (apply push_sources_never_returns; eauto).
    congruence.
  - apply push_sources_never_returns in Hpush as (received & Hin).
    split; [intros [? ?]; discriminate|]. intros H. now apply H in Hin.
Qed.

(** C7, the code at the failing input. Three sources, the second of
    which fails. When its request fails (['error'] on the request) the
    source is skipped and the endpoints of the two others are collected.
    When instead its response begins and is cut before it ends, the
    promise of [fetchFromUrl] never settles and [fetchProxiesWithProgress]
    never returns: the failed source does not contribute zero endpoints,
    it keeps the collection from ever yielding candidates. *)
Theorem collect_hangs_on_cut_response :
  let first := Ultra.Body (js "10.0.0.1:1080") in
  let third := Ultra.Body (js "10.0.0.2:1080") in
  Ultra.fetchProxiesWithProgress [first; Ultra.RequestError; third] Ultra.stats0 =
    Some ([js "10.0.0.1:1080"; js "10.0.0.2:1080"],
          Ultra.set_proxiesFound 2 Ultra.stats0) /\
  Ultra.fetchFromUrl (Ultra.Cut (js "10.0.0.3:10")) = Ultra.NeverSettles /\
  Ultra.fetchProxiesWithProgress
    [first; Ultra.Cut (js "10.0.0.3:10"); third] Ultra.stats0 = None.
Proof. vm_compute. repeat split; reflexivity. Qed.

(** ** Termination counters (C1) *)

Lemma ultra_attemptReconnect_counters ref w :
  Ultra.kicked (Ultra.stats (Ultra.attemptReconnect ref w)) = Ultra.kicked (Ultra.stats w) /\
  Ultra.timeout (Ultra.stats (Ultra.attemptReconnect ref w)) = Ultra.timeout (Ultra.stats w) /\
  Ultra.failed (Ultra.stats (Ultra.attemptReconnect ref w)) = Ultra.failed (Ultra.stats w).
Proof. unfold Ultra.attemptReconnect. ultra_unfold. now case_lookups. Qed.

Lemma ultra_on_kicked_counters ref reason w :
  let w' := Ultra.on_kicked ref reason w in
  Ultra.kicked (Ultra.stats w') = S (Ultra.kicked (Ultra.stats w)) /\
  Ultra.timeout (Ultra.stats w') = Ultra.timeout (Ultra.stats w) /\
  Ultra.failed (Ultra.stats w') = Ultra.failed (Ultra.stats w) /\
  Ultra.clients w' = Ultra.clients w.
Proof. unfold Ultra.on_kicked, Ultra.attemptReconnect. ultra_unfold. now case_lookups. Qed.

Lemma ultra_on_end_counters ref reason w :
  let w' := Ultra.on_end ref reason w in
  Ultra.kicked (Ultra.stats w') = Ultra.kicked (Ultra.stats w) /\
  Ultra.timeout (Ultra.stats w') = S (Ultra.timeout (Ultra.stats w)) /\
  Ultra.failed (Ultra.stats w') = Ultra.failed (Ultra.stats w) /\
  Ultra.clients w' = Ultra.clients w.
Proof. unfold Ultra.on_end, Ultra.attemptReconnect. ultra_unfold. now case_lookups. Qed.

Lemma enhanced_on_kicked_counters ref reason w :
  let w' := Enhanced.on_kicked ref reason w in
  Enhanced.kicked (Enhanced.stats w') = S (Enhanced.kicked (Enhanced.stats w)) /\
  Enhanced.timeout (Enhanced.stats w') = Enhanced.timeout (Enhanced.stats w) /\
  Enhanced.failed (Enhanced.stats w') = Enhanced.failed (Enhanced.stats w) /\
  Enhanced.clients w' = Enhanced.clients w.
Proof. unfold Enhanced.on_kicked. enhanced_unfold. now case_lookups. Qed.

Lemma enhanced_on_end_counters ref w :
  let w' := Enhanced.on_end ref w in
  Enhanced.kicked (Enhanced.stats w') = Enhanced.kicked (Enhanced.stats w) /\
  Enhanced.timeout (Enhanced.stats w') = S (Enhanced.timeout (Enhanced.stats w)) /\
  Enhanced.failed (Enhanced.stats w') = Enhanced.failed (Enhanced.stats w) /\
  Enhanced.clients w' = Enhanced.clients w.
Proof. unfold Enhanced.on_end. enhanced_unfold. now case_lookups. Qed.

(** C1 (amended). Each termination event is counted by its own listener,
    whatever came before: a ['kicked'] event adds one to [kicked] and
    nothing to [timeout] or [failed], and an ['end'] event adds one to
    [timeout] and nothing to [kicked] or [failed]. So when a kick is
    followed by the close of the transport, the lifecycle instance is
    counted in both [kicked] and [timeout]; this holds for [UltraBot] and
    for [EnhancedBot]. *)
Theorem termination_counted_per_event
    (w : Ultra.World) (h ref : nat) (reason : jsstring) (closed : option jsstring)
    (v : Enhanced.World) (g vref : nat) :
  Ultra.clients w !! h = Some ref ->
  Enhanced.clients v !! g = Some vref ->
  let w1 := Ultra.step w (Ultra.Emit h (Ultra.Kicked reason)) in
  let w2 := Ultra.step w1 (Ultra.Emit h (Ultra.End closed)) in
  let v1 := Enhanced.step v (Enhanced.Emit g (Enhanced.Kicked reason)) in
  let v2 := Enhanced.step v1 (Enhanced.Emit g Enhanced.End) in
  (Ultra.kicked (Ultra.stats w1) = Ultra.kicked (Ultra.stats w) + 1 /\
   Ultra.timeout (Ultra.stats w1) = Ultra.timeout (Ultra.stats w) /\
   Ultra.failed (Ultra.stats w1) = Ultra.failed (Ultra.stats w)) /\
  (Ultra.kicked (Ultra.stats w2) = Ultra.kicked (Ultra.stats w1) /\
   Ultra.timeout (Ultra.stats w2) = Ultra.timeout (Ultra.stats w1) + 1 /\
   Ultra.failed (Ultra.stats w2) = Ultra.failed (Ultra.stats w1)) /\
  (Enhanced.kicked (Enhanced.stats v1) = Enhanced.kicked (Enhanced.stats v) + 1 /\
   Enhanced.timeout (Enhanced.stats v1) = Enhanced.timeout (Enhanced.stats v) /\
   Enhanced.failed (Enhanced.stats v1) = Enhanced.failed (Enhanced.stats v)) /\
  (Enhanced.kicked (Enhanced.stats v2) = Enhanced.kicked (Enhanced.stats v1) /\
   Enhanced.timeout (Enhanced.stats v2) = Enhanced.timeout (Enhanced.stats v1) + 1 /\
   Enhanced.failed (Enhanced.stats v2) = Enhanced.failed (Enhanced.stats v1)).
Proof.
  intros Hh Hg. cbn [Ultra.step Enhanced.step Ultra.listener Enhanced.listener]. rewrite Hh, Hg. cbn [Ultra.listener Enhanced.listener].
  destruct (ultra_on_kicked_counters ref reason w) as (K1 & K2 & K3 & K4).
  destruct (enhanced_on_kicked_counters vref reason v) as (E1 & E2 & E3 & E4).
  rewrite K4, E4, Hh, Hg.
  destruct (ultra_on_end_counters ref closed (Ultra.on_kicked ref reason w)) as (L1 & L2 & L3 & _).
  destruct (enhanced_on_end_counters vref (Enhanced.on_kicked vref reason v)) as (F1 & F2 & F3 & _).
  repeat split; lia.
Qed.

Lemma termination_counted_per_event_witness :
  let w := Ultra.run ultra_one_active
             [Ultra.Emit 0 (Ultra.Kicked (js "Banned")); Ultra.Emit 0 (Ultra.End None)] in
  let v := Enhanced.run enhanced_one_active
             [Enhanced.Emit 0 (Enhanced.Kicked (js "Banned"));
              Enhanced.Emit 0 Enhanced.End] in
  (Ultra.kicked (Ultra.stats w) = Ultra.kicked (Ultra.stats ultra_one_active) + 1 /\
   Ultra.timeout (Ultra.stats w) = Ultra.timeout (Ultra.stats ultra_one_active) + 1) /\
  (Enhanced.kicked (Enhanced.stats v) =
     Enhanced.kicked (Enhanced.stats enhanced_one_active) + 1 /\
   Enhanced.timeout (Enhanced.stats v) =
     Enhanced.timeout (Enhanced.stats enhanced_one_active) + 1).
Proof.
  destruct (termination_counted_per_event ultra_one_active 0 1 (js "Banned") None
              enhanced_one_active 0 1 eq_refl eq_refl)
    as ((K1 & T1 & _) & (K2 & T2 & _) & (EK1 & ET1 & _) & (EK2 & ET2 & _)).
  cbv zeta. unfold Ultra.run, Enhanced.run. cbn [fold_left].
  rewrite K2, K1, T2, T1, EK2, EK1, ET2, ET1. auto.
Defined.

(** C1, counterexample. One bot logs in, the server kicks it and the
    transport closes: the one lifecycle instance is counted twice, once
    in [kicked] and once in [timeout]. *)
Lemma remote_kick_counted_twice :
  let w := Ultra.run ultra_one_active
             [Ultra.Emit 0 (Ultra.Kicked (js "Banned")); Ultra.Emit 0 (Ultra.End None)] in
  Ultra.kicked (Ultra.stats ultra_one_active) = 0 /\
  Ultra.timeout (Ultra.stats ultra_one_active) = 0 /\
  Ultra.kicked (Ultra.stats w) = 1 /\
  Ultra.timeout (Ultra.stats w) = 1 /\
  termination_count (Ultra.stats w) <>
    termination_count (Ultra.stats ultra_one_active) + 1.
Proof. vm_compute. repeat split; auto. discriminate. Qed.

(** ** Login (C9) *)

(** C9. When a client emits ['login'], its bot becomes Active,
    [stats.joined] grows by exactly one and the bot's [reconnectAttempts]
    is reset to 0 whatever it was before. ([EnhancedBot] has no reconnect
    counter; its ['login'] listener counts [joined] the same way.) *)
Theorem login_counts_joined_and_clears_reconnects
    (w : Ultra.World) (h ref : nat) (this : Ultra.UltraBot)
    (v : Enhanced.World) (g vref : nat) :
  Ultra.clients w !! h = Some ref ->
  Ultra.objs w !! ref = Some this ->
  Enhanced.clients v !! g = Some vref ->
  let w' := Ultra.step w (Ultra.Emit h Ultra.Login) in
  let v' := Enhanced.step v (Enhanced.Emit g Enhanced.Login) in
  Ultra.joined (Ultra.stats w') = Ultra.joined (Ultra.stats w) + 1 /\
  Ultra.objs w' !! ref =
    Some (Ultra.set_reconnectAttempts 0 (Ultra.set_connected true this)) /\
  Ultra.reconnectAttempts <$> Ultra.objs w' !! ref = Some 0 /\
  Ultra.connected <$> Ultra.objs w' !! ref = Some true /\
  Enhanced.joined (Enhanced.stats v') = Enhanced.joined (Enhanced.stats v) + 1.
Proof.
  intros Hh Hobj Hg.
  cbn [Ultra.step Enhanced.step]. rewrite Hh, Hg.
  cbn [Ultra.listener Enhanced.listener].
  unfold Ultra.on_login, Enhanced.on_login. ultra_unfold. enhanced_unfold.
  lookup_this Hobj.
  repeat split; try lia.
  destruct (Enhanced.objs v !! vref); fields; lia.
Qed.

Lemma login_counts_joined_and_clears_reconnects_witness :
  let w := Ultra.step ultra_capped (Ultra.Emit 3 Ultra.Login) in
  Ultra.reconnectAttempts <$> Ultra.objs ultra_capped !! 1 = Some 3 /\
  Ultra.joined (Ultra.stats w) = Ultra.joined (Ultra.stats ultra_capped) + 1 /\
  Ultra.reconnectAttempts <$> Ultra.objs w !! 1 = Some 0.
Proof.
  assert (Hobj : exists this, Ultra.objs ultra_capped !! 1 = Some this)
    by (eexists; vm_compute; reflexivity).
  destruct Hobj as [this Hobj].
  destruct (login_counts_joined_and_clears_reconnects ultra_capped 3 1 this
              enhanced_one_active 0 1 eq_refl Hobj eq_refl)
    as (Hj & _ & Hr & _).
  split; [vm_compute; reflexivity|]. split; assumption.
Defined.

(** ** The auto-responder (C2) *)

Section UltraReplies.
Variables (ref hb : nat) (this : Ultra.UltraBot) (text : jsstring).
Hypothesis Hbot : Ultra.bot this = Some hb.

(** A reply leaves the store alone, so the next test sees the same bot. *)
Lemma ultra_reply_register w :
  Ultra.objs w !! ref = Some this ->
  let w' := Ultra.reply_register ref text w in
  Ultra.objs w' = Ultra.objs w /\
  Ultra.chats w' = Ultra.chats w ++
    (if includes text (js "/register")
     then [(hb, js "/register " ++ (reverse_string (Ultra.username this)) ++ js " " ++ (reverse_string (Ultra.username this)))] else []).
Proof.
  intros Hobj. unfold Ultra.reply_register, Ultra.password. ultra_unfold.
  destruct (includes text _); lookup_this Hobj.
  - rewrite Hbot. fields. now rewrite Hobj.
  - now rewrite app_nil_r.
Qed.

Lemma ultra_reply_login w :
  Ultra.objs w !! ref = Some this ->
  let w' := Ultra.reply_login ref text w in
  Ultra.objs w' = Ultra.objs w /\
  Ultra.chats w' = Ultra.chats w ++
    (if includes text (js "/login")
     then [(hb, js "/login " ++ (reverse_string (Ultra.username this)))] else []).
Proof.
  intros Hobj. unfold Ultra.reply_login, Ultra.password. ultra_unfold.
  destruct (includes text _); lookup_this Hobj.
  - rewrite Hbot. fields. now rewrite Hobj.
  - now rewrite app_nil_r.
Qed.

Lemma ultra_reply_authme w :
  Ultra.objs w !! ref = Some this ->
  let w' := Ultra.reply_authme ref text w in
  Ultra.objs w' = Ultra.objs w /\
  Ultra.chats w' = Ultra.chats w ++
    (if includes text (js "Please, login with the command")
     then [(hb, js "/login " ++ (reverse_string (Ultra.username this)))] else []).
Proof.
  intros Hobj. unfold Ultra.reply_authme, Ultra.password. ultra_unfold.
  destruct (includes text _); lookup_this Hobj.
  - now rewrite Hbot.
  - now rewrite app_nil_r.
Qed.

Lemma ultra_reply_premium w :
  Ultra.objs w !! ref = Some this ->
  let w' := Ultra.reply_premium ref text w in
  Ultra.objs w' = Ultra.objs w /\
  Ultra.chats w' = Ultra.chats w ++
    (if includes text (js "premium") then [(hb, js "/nlogin")] else []).
Proof.
  intros Hobj. unfold Ultra.reply_premium. ultra_unfold.
  destruct (includes text _); lookup_this Hobj.
  - rewrite Hbot. fields. now rewrite Hobj.
  - now rewrite app_nil_r.
Qed.
End UltraReplies.

Lemma ultra_on_message_chats ref hb this text w :
  Ultra.objs w !! ref = Some this ->
  Ultra.bot this = Some hb ->
  Ultra.chats (Ultra.on_message ref text w) =
  Ultra.chats w ++ ultra_replies hb (Ultra.username this) text.
Proof.
  intros Hobj Hbot. unfold Ultra.on_message.
  set (this' := Ultra.set_messages (Ultra.messages this ++ [text]) this).
  set (w0 := match Ultra.objs (Ultra.upd_obj _ _ w) !! ref with
             | Some _ => _ | None => _ end).
  assert (H0 : Ultra.objs w0 !! ref = Some this' /\ Ultra.chats w0 = Ultra.chats w).
  { subst w0. ultra_unfold. lookup_this Hobj.
    destruct (includes _ _); lookup_this Hobj; auto. }
  destruct H0 as [H0 C0].
  assert (Hbot' : Ultra.bot this' = Some hb) by exact Hbot.
  destruct (ultra_reply_register ref hb this' text Hbot' w0 H0) as [O1 C1].
  rewrite <- O1 in H0.
  destruct (ultra_reply_login ref hb this' text Hbot' _ H0) as [O2 C2].
  rewrite <- O2 in H0.
  destruct (ultra_reply_authme ref hb this' text Hbot' _ H0) as [O3 C3].
  rewrite <- O3 in H0.
  destruct (ultra_reply_premium ref hb this' text Hbot' _ H0) as [O4 C4].
  rewrite C4, C3, C2, C1, C0. unfold ultra_replies.
  now rewrite <- !app_assoc.
Qed.

Section EnhancedReplies.
Variables (ref hb : nat) (this : Enhanced.EnhancedBot) (text : jsstring).
Hypothesis Hbot : Enhanced.bot this = Some hb.

Lemma enhanced_reply_register w :
  Enhanced.objs w !! ref = Some this ->
  let w' := Enhanced.reply_register ref text w in
  Enhanced.objs w' = Enhanced.objs w /\
  Enhanced.chats w' = Enhanced.chats w ++
    (if includes text (js "/register")
     then [(hb, js "/register " ++ (reverse_string (Enhanced.username this)) ++ js " " ++ (reverse_string (Enhanced.username this)))] else []).
Proof.
  intros Hobj. unfold Enhanced.reply_register, Enhanced.password.
  enhanced_unfold.
  destruct (includes text _); lookup_this Hobj.
  - rewrite Hbot. fields. now rewrite Hobj.
  - now rewrite app_nil_r.
Qed.

Lemma enhanced_reply_login w :
  Enhanced.objs w !! ref = Some this ->
  let w' := Enhanced.reply_login ref text w in
  Enhanced.objs w' = Enhanced.objs w /\
  Enhanced.chats w' = Enhanced.chats w ++
    (if includes text (js "/login")
     then [(hb, js "/login " ++ (reverse_string (Enhanced.username this)))] else []).
Proof.
  intros Hobj. unfold Enhanced.reply_login, Enhanced.password.
  enhanced_unfold.
  destruct (includes text _); lookup_this Hobj.
  - rewrite Hbot. fields. now rewrite Hobj.
  - now rewrite app_nil_r.
Qed.

Lemma enhanced_reply_premium w :
  Enhanced.objs w !! ref = Some this ->
  let w' := Enhanced.reply_premium ref text w in
  Enhanced.objs w' = Enhanced.objs w /\
  Enhanced.chats w' = Enhanced.chats w ++
    (if includes text (js "premium") then [(hb, js "/nlogin")] else []).
Proof.
  intros Hobj. unfold Enhanced.reply_premium. enhanced_unfold.
  destruct (includes text _); lookup_this Hobj.
  - rewrite Hbot. fields. now rewrite Hobj.
  - now rewrite app_nil_r.
Qed.
End EnhancedReplies.

Lemma enhanced_on_message_chats ref hb this text w :
  Enhanced.objs w !! ref = Some this ->
  Enhanced.bot this = Some hb ->
  Enhanced.chats (Enhanced.on_message ref text w) =
  Enhanced.chats w ++ enhanced_replies hb (Enhanced.username this) text.
Proof.
  intros Hobj Hbot. unfold Enhanced.on_message.
  set (this' := Enhanced.set_messages (Enhanced.messages this ++ [text]) this).
  set (w0 := Enhanced.upd_obj _ _ w).
  assert (H0 : Enhanced.objs w0 !! ref = Some this' /\
               Enhanced.chats w0 = Enhanced.chats w).
  { subst w0. enhanced_unfold. lookup_this Hobj. auto. }
  destruct H0 as [H0 C0].
  assert (Hbot' : Enhanced.bot this' = Some hb) by exact Hbot.
  destruct (enhanced_reply_register ref hb this' text Hbot' w0 H0) as [O1 C1].
  rewrite <- O1 in H0.
  destruct (enhanced_reply_login ref hb this' text Hbot' _ H0) as [O2 C2].
  rewrite <- O2 in H0.
  destruct (enhanced_reply_premium ref hb this' text Hbot' _ H0) as [O3 C3].
  rewrite C3, C2, C1, C0. unfold enhanced_replies.
  now rewrite <- !app_assoc.
Qed.

Lemma ultra_replies_bound h username text :
  length (ultra_replies h username text) <= 4.
Proof.
  unfold ultra_replies.
  repeat match goal with |- context [if ?c then _ else _] => destruct c end;
    simpl; lia.
Qed.

(** C2 (amended). For one inbound chat message the auto-responder issues
    one scripted reply for every prompt pattern that occurs in the text,
    in the order of the tests, hence between zero and four replies for an
    [UltraBot] (three patterns, hence at most three, for an
    [EnhancedBot]). For the text "Please, login with the command /login
    <password>" an [UltraBot] calls [chat] twice, both times with /login
    followed by the reversed user name, because the text matches the
    /login pattern and the AuthMe pattern; an [EnhancedBot], which has no
    AuthMe pattern, calls it once. *)
Theorem auto_responder_replies_per_prompt
    (w : Ultra.World) (h ref hb : nat) (this : Ultra.UltraBot)
    (v : Enhanced.World) (g vref vb : nat) (vthis : Enhanced.EnhancedBot)
    (text : jsstring) :
  Ultra.clients w !! h = Some ref ->
  Ultra.objs w !! ref = Some this ->
  Ultra.bot this = Some hb ->
  Enhanced.clients v !! g = Some vref ->
  Enhanced.objs v !! vref = Some vthis ->
  Enhanced.bot vthis = Some vb ->
  let login := js "/login " ++ reverse_string (Ultra.username this) in
  let vlogin := js "/login " ++ reverse_string (Enhanced.username vthis) in
  Ultra.chats (Ultra.step w (Ultra.Emit h (Ultra.Message text))) =
    Ultra.chats w ++ ultra_replies hb (Ultra.username this) text /\
  length (ultra_replies hb (Ultra.username this) text) <= 4 /\
  Ultra.chats (Ultra.step w (Ultra.Emit h (Ultra.Message login_prompt))) =
    Ultra.chats w ++ [(hb, login); (hb, login)] /\
  Enhanced.chats (Enhanced.step v (Enhanced.Emit g (Enhanced.Message text))) =
    Enhanced.chats v ++ enhanced_replies vb (Enhanced.username vthis) text /\
  Enhanced.chats
    (Enhanced.step v (Enhanced.Emit g (Enhanced.Message login_prompt))) =
    Enhanced.chats v ++ [(vb, vlogin)].
Proof.
  intros Hh Hobj Hbot Hg Hvobj Hvbot.
  cbn [Ultra.step Enhanced.step]. rewrite Hh, Hg.
  cbn [Ultra.listener Enhanced.listener].
  rewrite !(ultra_on_message_chats ref hb this) by assumption.
  rewrite !(enhanced_on_message_chats vref vb vthis) by assumption.
  repeat split; auto using ultra_replies_bound.
Qed.

Lemma auto_responder_replies_per_prompt_witness :
  Ultra.chats
    (Ultra.step ultra_one_active (Ultra.Emit 0 (Ultra.Message login_prompt))) =
    Ultra.chats ultra_one_active ++
    [(0, js "/login " ++ reverse_string (js "Storm42"));
     (0, js "/login " ++ reverse_string (js "Storm42"))] /\
  Enhanced.chats
    (Enhanced.step enhanced_one_active
       (Enhanced.Emit 0 (Enhanced.Message login_prompt))) =
    Enhanced.chats enhanced_one_active ++
    [(0, js "/login " ++ reverse_string (js "Storm42"))].
Proof.
  assert (Hobj : exists this,
            Ultra.objs ultra_one_active !! 1 = Some this /\
            Ultra.bot this = Some 0 /\ Ultra.username this = js "Storm42")
    by (eexists; vm_compute; repeat split; reflexivity).
  assert (Hvobj : exists this,
            Enhanced.objs enhanced_one_active !! 1 = Some this /\
            Enhanced.bot this = Some 0 /\ Enhanced.username this = js "Storm42")
    by (eexists; vm_compute; repeat split; reflexivity).
  destruct Hobj as (this & Hobj & Hbot & Hname).
  destruct Hvobj as (vthis & Hvobj & Hvbot & Hvname).
  destruct (auto_responder_replies_per_prompt ultra_one_active 0 1 0 this
              enhanced_one_active 0 1 0 vthis login_prompt
              eq_refl Hobj Hbot eq_refl Hvobj Hvbot)
    as (_ & _ & Hu & _ & He).
  rewrite Hname in Hu. rewrite Hvname in He. split; assumption.
Defined.

(** C2, counterexample. An Active [UltraBot] named Storm42 receives the
    login prompt of the scenario and sends the /login reply twice. *)
Lemma login_prompt_answered_twice :
  let w := Ultra.step ultra_one_active (Ultra.Emit 0 (Ultra.Message login_prompt)) in
  Ultra.chats ultra_one_active = [] /\
  Ultra.chats w = [(0, js "/login 24mrotS"); (0, js "/login 24mrotS")] /\
  ~ length (Ultra.chats w) <= 1.
Proof. vm_compute. repeat split; auto. lia. Qed.

(** ** Well-formed states of [Ultra] *)

Create HintDb wf discriminated.

Lemma wf_same w w' :
  Ultra.objs w' = Ultra.objs w ->
  Ultra.clients w' = Ultra.clients w ->
  Ultra.botIndex w' = Ultra.botIndex w ->
  wf w -> wf w'.
Proof. unfold wf. intros -> -> ->. auto. Qed.

Lemma wf_bot_ok w ref b : wf w -> Ultra.objs w !! ref = Some b -> bot_ok b.
Proof. intros (Hok & _) Hb. eauto. Qed.

Lemma wf_print l w : wf w -> wf (Ultra.print l w).
Proof. now apply wf_same. Qed.
Lemma wf_saveLog l w : wf w -> wf (Ultra.saveLog l w).
Proof. now apply wf_same. Qed.
Lemma wf_displayStats w : wf w -> wf (Ultra.displayStats w).
Proof. now apply wf_same. Qed.
Lemma wf_upd_stats f w : wf w -> wf (Ultra.upd_stats f w).
Proof. now apply wf_same. Qed.
Lemma wf_defer d w : wf w -> wf (Ultra.defer d w).
Proof. now apply wf_same. Qed.
Lemma wf_set_pending p w : wf w -> wf (Ultra.set_pending p w).
Proof. now apply wf_same. Qed.
Lemma wf_set_isRunning b w : wf w -> wf (Ultra.set_isRunning b w).
Proof. now apply wf_same. Qed.
Lemma wf_set_bots l w : wf w -> wf (Ultra.set_bots l w).
Proof. now apply wf_same. Qed.
Lemma wf_log ref m w : wf w -> wf (Ultra.log ref m w).
Proof. unfold Ultra.log. destruct (_ !! _); auto using wf_print. Qed.
Lemma wf_bot_chat ref text w : wf w -> wf (Ultra.bot_chat ref text w).
Proof.
  unfold Ultra.bot_chat. destruct (_ !! _) as [b|]; auto.
  destruct (Ultra.bot b); auto.
Qed.

#[local] Hint Resolve wf_print wf_saveLog wf_displayStats wf_upd_stats
  wf_defer wf_set_pending wf_set_isRunning wf_set_bots wf_log wf_bot_chat : wf.

(** Well-formedness through the branches of a handler. *)
#[local] Hint Extern 1 (wf (match ?x with _ => _ end)) => destruct x eqn:? : wf.
#[local] Hint Extern 1 (wf (if ?c then _ else _)) => destruct c eqn:? : wf.

Ltac wf_auto := auto 20 with wf.

(** A field update keeps the state well formed when the updated bot is
    [bot_ok] and keeps its client. *)
Lemma wf_upd_obj ref f w :
  wf w ->
  (forall b, Ultra.objs w !! ref = Some b ->
     bot_ok (f b) /\ (is_Some (Ultra.bot b) -> is_Some (Ultra.bot (f b)))) ->
  wf (Ultra.upd_obj ref f w).
Proof.
  intros (Hok & Hcl & Hidx) Hf. unfold wf, Ultra.upd_obj. fields.
  split; [|split].
  - intros r b Hb. apply lookup_alter_Some in Hb as [(<- & x & Hx & ->)|[_ Hb]].
    + now apply Hf.
    + eauto.
  - intros h r Hh. destruct (Hcl h r Hh) as (b & Hb & Hsome).
    destruct (decide (ref = r)) as [<-|Hne].
    + exists (f b). rewrite lookup_alter_eq, Hb. split; [reflexivity|].
      now apply Hf.
    + exists b. now rewrite lookup_alter_ne.
  - intros r b Hb. apply lookup_alter_Some in Hb as [(<- & x & Hx & ->)|[_ Hb]]; eauto.
Qed.

Lemma wf_connect ref w : wf w -> wf (Ultra.connect ref w).
Proof. unfold Ultra.connect. auto with wf. Qed.

Lemma wf_attemptReconnect ref w : wf w -> wf (Ultra.attemptReconnect ref w).
Proof.
  intros Hwf. unfold Ultra.attemptReconnect.
  destruct (Ultra.objs w !! ref) as [this|] eqn:Hobj; [|assumption].
  destruct (Ultra.maxReconnects this <=? Ultra.reconnectAttempts this) eqn:Hcap;
    [auto with wf|].
  apply Nat.leb_gt in Hcap.
  repeat first [apply wf_defer | apply wf_log | apply wf_upd_stats].
  apply wf_upd_obj; [assumption|].
  intros b Hb. assert (b = this) as -> by congruence.
  destruct Hwf as (Hok & _). destruct (Hok _ _ Hobj) as [_ Hc].
  unfold bot_ok. fields. auto with lia.
Qed.

#[local] Hint Resolve wf_connect wf_attemptReconnect : wf.

Lemma wf_disconnected ref w :
  wf w -> wf (Ultra.upd_obj ref (Ultra.set_connected false) w).
Proof.
  intros Hwf. apply wf_upd_obj; [assumption|].
  intros b Hb. destruct Hwf as (Hok & _). destruct (Hok _ _ Hb) as [Hle _].
  unfold bot_ok. fields. split; [split|]; auto. discriminate.
Qed.

#[local] Hint Resolve wf_disconnected : wf.

Lemma wf_on_login h ref w :
  Ultra.clients w !! h = Some ref -> wf w -> wf (Ultra.on_login ref w).
Proof.
  intros Hh Hwf. unfold Ultra.on_login.
  destruct (proj1 (proj2 Hwf) h ref Hh) as (this & Hobj & Hsome).
  assert (H1 : wf (Ultra.upd_obj ref (Ultra.set_connected true) w)).
  { apply wf_upd_obj; [assumption|]. intros b Hb.
    assert (b = this) as -> by congruence.
    destruct (proj1 Hwf _ _ Hobj) as [Hle _].
    unfold bot_ok. fields. auto. }
  apply wf_upd_obj.
  - wf_auto.
  - intros b Hb. unfold bot_ok. fields. split; [split; [lia|]|auto].
    intros Hc.
    assert (Hok : bot_ok b) by (eapply wf_bot_ok; [|exact Hb]; wf_auto).
    now apply Hok.
Qed.

Lemma wf_listener h ref ev w :
  Ultra.clients w !! h = Some ref -> wf w -> wf (Ultra.listener ref ev w).
Proof.
  intros Hh Hwf. destruct ev; cbn [Ultra.listener].
  - eauto using wf_on_login.
  - unfold Ultra.on_spawn. wf_auto.
  - unfold Ultra.on_kicked. wf_auto.
  - unfold Ultra.on_end. wf_auto.
  - unfold Ultra.on_error. wf_auto.
  - unfold Ultra.on_message, Ultra.reply_register, Ultra.reply_login,
      Ultra.reply_authme, Ultra.reply_premium.
    assert (wf (Ultra.upd_obj ref
                  (fun this => Ultra.set_messages (Ultra.messages this ++ [text]) this) w)).
    { apply wf_upd_obj; [assumption|]. intros b Hb.
      split; [exact (wf_bot_ok _ _ _ Hwf Hb) | auto]. }
    wf_auto.
Qed.

Lemma wf_actualConnect ref created w :
  wf w -> wf (Ultra.actualConnect ref created w).
Proof.
  intros Hwf. unfold Ultra.actualConnect.
  destruct (Ultra.objs w !! ref) as [this|] eqn:Hobj; [|assumption].
  destruct created; [|auto with wf].
  apply wf_displayStats, wf_upd_stats.
  set (h := length (Ultra.clients w)).
  assert (Hw1 : wf (Ultra.upd_obj ref (Ultra.set_bot (Some h)) w)).
  { apply wf_upd_obj; [assumption|]. intros b Hb.
    destruct (wf_bot_ok _ _ _ Hwf Hb) as [Hle _].
    unfold bot_ok. fields. eauto. }
  assert (Hgoal : wf (Ultra.upd_obj ref (Ultra.set_bot (Some h))
                        (Ultra.set_clients (Ultra.clients w ++ [ref]) w))).
  { destruct Hw1 as (Hok & Hcl & Hidx). split; [|split]; [exact Hok| |exact Hidx].
    intros h' r Hh'. unfold Ultra.upd_obj in *. fields.
    apply lookup_app_Some in Hh' as [Hh'|[_ Hh']]; [exact (Hcl _ _ Hh')|].
    apply list_lookup_singleton_Some in Hh' as [_ <-].
    rewrite lookup_alter_eq, Hobj. fields. eauto. }
  destruct (Ultra.proxy this); exact Hgoal.
Qed.

#[local] Hint Resolve wf_actualConnect : wf.

Lemma wf_new_UltraBot username proxy joinDelay w :
  wf w ->
  wf (Ultra.set_botIndex (Ultra.botIndex w + 1)
        (Ultra.new_UltraBot username proxy (Ultra.botIndex w + 1) joinDelay w)).
Proof.
  intros (Hok & Hcl & Hidx). unfold Ultra.new_UltraBot, Ultra.connect, Ultra.defer.
  unfold wf. fields. split; [|split].
  - intros r b Hb. apply lookup_insert_Some in Hb as [[_ <-]|[_ Hb]]; [|eauto].
    unfold bot_ok. fields. split; [lia | discriminate].
  - intros h r Hh. destruct (Hcl h r Hh) as (b & Hb & Hsome).
    exists b. split; [|assumption]. rewrite lookup_insert_ne; [assumption|].
    apply Hidx in Hb. lia.
  - intros r b Hb. apply lookup_insert_Some in Hb as [[<- _]|[_ Hb]]; [lia|].
    apply Hidx in Hb. lia.
Qed.

Lemma wf_spawnBot e w : wf w -> wf (Ultra.spawnBot e w).
Proof.
  intros Hwf. unfold Ultra.spawnBot.
  destruct (negb _ || _); [wf_auto|].
  pose proof (wf_new_UltraBot (Ultra.gen_username e)
    (Ultra.assign_proxy (Ultra.workingProxies w) (Ultra.botIndex w))
    (Ultra.gen_joinDelay e) w Hwf) as H.
  wf_auto.
Qed.

Lemma wf_forEach_connected act refs :
  (forall ref w, wf w -> wf (act ref w)) ->
  forall start, wf (snd start) ->
  wf (snd (Ultra.forEach_connected act refs start)).
Proof.
  intros Hact. unfold Ultra.forEach_connected.
  induction refs as [|ref refs IH]; intros [n w] Hwf; [assumption|].
  cbn [fold_left]. apply IH.
  destruct (Ultra.objs w !! ref) as [this|]; [|assumption].
  destruct (Ultra.connected this); [apply Hact|]; assumption.
Qed.

Lemma wf_sendChat message ref w : wf w -> wf (Ultra.sendChat ref message w).
Proof. intros Hwf. unfold Ultra.sendChat. wf_auto. Qed.

Lemma wf_bot_executeCommand command ref w :
  wf w -> wf (Ultra.bot_executeCommand ref command w).
Proof. intros Hwf. unfold Ultra.bot_executeCommand. wf_auto. Qed.

Lemma wf_broadcast message w : wf w -> wf (snd (Ultra.broadcast message w)).
Proof.
  intros Hwf. unfold Ultra.broadcast. destruct message; [assumption|].
  pose proof (wf_forEach_connected _ (Ultra.bots w)
                (wf_sendChat (n :: message)) (0, w) Hwf) as H.
  destruct (Ultra.forEach_connected _ _ _). cbn [snd] in *. auto with wf.
Qed.

Lemma wf_executeCommand command w :
  wf w -> wf (snd (Ultra.executeCommand command w)).
Proof.
  intros Hwf. unfold Ultra.executeCommand. destruct command; [assumption|].
  pose proof (wf_forEach_connected _ (Ultra.bots w)
                (wf_bot_executeCommand (n :: command)) (0, w) Hwf) as H.
  destruct (Ultra.forEach_connected _ _ _). cbn [snd] in *. auto with wf.
Qed.

Lemma wf_disconnect ref w : wf w -> wf (Ultra.disconnect ref w).
Proof.
  intros Hwf. unfold Ultra.disconnect.
  destruct (Ultra.objs w !! ref) as [this|]; [|assumption].
  destruct (Ultra.bot this); [|assumption].
  apply (wf_disconnected ref (Ultra.set_quits _ w)). exact Hwf.
Qed.

Lemma wf_fold_disconnect refs : forall w,
  wf w -> wf (fold_left (fun w ref => Ultra.disconnect ref w) refs w).
Proof.
  induction refs as [|ref refs IH]; intros w Hwf; [assumption|].
  cbn [fold_left]. auto using wf_disconnect.
Qed.

Lemma wf_stopAll w : wf w -> wf (Ultra.stopAll w).
Proof.
  intros Hwf. unfold Ultra.stopAll.
  apply wf_defer, wf_set_bots, wf_fold_disconnect. auto with wf.
Qed.

Lemma wf_fire n e w : wf w -> wf (Ultra.fire n e w).
Proof.
  intros Hwf. unfold Ultra.fire.
  destruct (Ultra.pending w !! n) as [d|]; [|assumption].
  assert (H : wf (Ultra.set_pending (delete n (Ultra.pending w)) w))
    by auto with wf.
  destruct d; unfold Ultra.reconnect_timer, Ultra.showFinalStats;
    auto using wf_spawnBot; wf_auto.
Qed.

Lemma wf_step w ev : wf w -> wf (Ultra.step w ev).
Proof.
  intros Hwf. destruct ev; cbn [Ultra.step];
    auto using wf_fire, wf_broadcast, wf_executeCommand, wf_stopAll.
  destruct (Ultra.clients w !! h) eqn:Hh; eauto using wf_listener.
Qed.

Lemma wf_run evs : forall w, wf w -> wf (Ultra.run w evs).
Proof.
  unfold Ultra.run.
  induction evs as [|ev evs IH]; intros w Hwf; cbn [fold_left];
    auto using wf_step.
Qed.

Lemma wf_init maxBots delay allProxies workingProxies :
  wf (Ultra.init maxBots delay allProxies workingProxies).
Proof.
  unfold wf, Ultra.init. fields. split; [|split].
  - intros ref b H. now rewrite lookup_empty in H.
  - intros h ref H. now rewrite lookup_nil in H.
  - intros ref b H. now rewrite lookup_empty in H.
Qed.

(** Every state the program reaches is well formed. *)
Lemma wf_reachable w : reachable w -> wf w.
Proof.
  intros (maxBots & delay & allProxies & workingProxies & evs & ->).
  apply wf_run, wf_init.
Qed.

(** ** The reconnect cap (C3) *)

Lemma attemptReconnect_capped ref this w :
  Ultra.objs w !! ref = Some this ->
  Ultra.maxReconnects this <= Ultra.reconnectAttempts this ->
  Ultra.attemptReconnect ref w =
  Ultra.print (Ultra.BotLog (Ultra.index this) Ultra.MaxReconnectReached) w.
Proof.
  intros Hobj Hcap. unfold Ultra.attemptReconnect, Ultra.log. rewrite Hobj.
  apply Nat.leb_le in Hcap. now rewrite Hcap.
Qed.

Lemma on_kicked_capped ref reason w :
  capped ref w ->
  let w' := Ultra.on_kicked ref reason w in
  nothing_scheduled w w' /\ capped ref w' /\
  Ultra.connected <$> Ultra.objs w' !! ref = Some false.
Proof.
  intros (this & Hobj & Hcap). unfold Ultra.on_kicked.
  set (w1 := match Ultra.objs _ !! ref with Some _ => _ | None => _ end).
  assert (H1 : Ultra.objs w1 !! ref = Some (Ultra.set_connected false this) /\
               nothing_scheduled w w1).
  { subst w1. unfold nothing_scheduled. ultra_unfold. lookup_this Hobj. auto. }
  destruct H1 as (Hobj1 & Hp & Hc & Hr).
  cbv zeta. rewrite (attemptReconnect_capped ref _ w1 Hobj1) by (fields; lia).
  unfold nothing_scheduled, capped, Ultra.print. fields.
  rewrite Hobj1. repeat split; auto. eexists. split; [reflexivity|exact Hcap].
Qed.

Lemma on_end_capped ref reason w :
  capped ref w ->
  let w' := Ultra.on_end ref reason w in
  nothing_scheduled w w' /\ capped ref w' /\
  Ultra.connected <$> Ultra.objs w' !! ref = Some false.
Proof.
  intros (this & Hobj & Hcap). unfold Ultra.on_end.
  set (w1 := Ultra.log _ _ _).
  assert (H1 : Ultra.objs w1 !! ref = Some (Ultra.set_connected false this) /\
               nothing_scheduled w w1).
  { subst w1. unfold nothing_scheduled. ultra_unfold. lookup_this Hobj. auto. }
  destruct H1 as (Hobj1 & Hp & Hc & Hr).
  cbv zeta. rewrite (attemptReconnect_capped ref _ w1 Hobj1) by (fields; lia).
  unfold nothing_scheduled, capped, Ultra.print. fields.
  rewrite Hobj1. repeat split; auto. eexists. split; [reflexivity|exact Hcap].
Qed.

Lemma terminations_capped ref w0 terms : forall w,
  Ultra.clients w = Ultra.clients w0 ->
  Forall (termination_of w0 ref) terms ->
  capped ref w ->
  let w' := Ultra.run w terms in
  nothing_scheduled w w' /\ capped ref w' /\
  (terms <> [] -> Ultra.connected <$> Ultra.objs w' !! ref = Some false).
Proof.
  induction terms as [|ev terms IH]; intros w Hcl Hterms Hcap.
  - cbn. unfold nothing_scheduled. split; [repeat split|split; [assumption|congruence]].
  - inversion Hterms as [|? ? (h & Hh & Hev) Hrest]; subst.
    unfold Ultra.run in *. cbn [fold_left].
    assert (Hstep : nothing_scheduled w (Ultra.step w ev) /\
                    capped ref (Ultra.step w ev) /\
                    Ultra.connected <$> Ultra.objs (Ultra.step w ev) !! ref
                      = Some false).
    { destruct Hev as [[reason ->]|[reason ->]]; cbn [Ultra.step];
        rewrite Hcl, Hh; cbn [Ultra.listener];
        auto using on_kicked_capped, on_end_capped. }
    destruct Hstep as ((Hp & Hc & Hr) & Hcap' & Hconn).
    destruct (IH (Ultra.step w ev)) as ((Hp' & Hc' & Hr') & Hcap'' & Hconn');
      [congruence | assumption | assumption |].
    cbv zeta in *. split; [|split].
    + unfold nothing_scheduled. repeat split; congruence.
    + assumption.
    + intros _. destruct terms as [|ev' terms']; [exact Hconn|].
      apply Hconn'. discriminate.
Qed.

(** ** Broadcast and dispatch (C4, C10) *)

Lemma sendChat_active ref this h message w :
  Ultra.objs w !! ref = Some this ->
  Ultra.connected this = true ->
  Ultra.bot this = Some h ->
  Ultra.sendChat ref message w =
  Ultra.displayStats
    (Ultra.upd_stats (fun s => Ultra.set_messagesSent (S (Ultra.messagesSent s)) s)
       (Ultra.set_chats (Ultra.chats w ++ [(h, message)]) w)).
Proof.
  intros Hobj Hconn Hbot. unfold Ultra.sendChat, Ultra.bot_chat.
  now rewrite Hobj, Hbot, Hconn.
Qed.

Lemma deliveries_cons_active m message ref refs this h :
  m !! ref = Some this ->
  Ultra.bot this = Some h ->
  deliveries m message (ref :: refs) = (h, message) :: deliveries m message refs.
Proof.
  intros Hobj Hbot. unfold deliveries. cbn [omap list_omap].
  unfold client_of at 1. rewrite Hobj. cbn. now rewrite Hbot.
Qed.

Lemma broadcast_loop message refs : forall k w,
  members_ok (Ultra.objs w) refs = true ->
  let actives := filter (fun ref => is_active (Ultra.objs w) ref = true) refs in
  let r := Ultra.forEach_connected (fun ref => Ultra.sendChat ref message)
             refs (k, w) in
  fst r = k + length actives /\
  delivered w (snd r) (length actives) (deliveries (Ultra.objs w) message actives).
Proof.
  unfold Ultra.forEach_connected.
  induction refs as [|ref refs IH]; intros k w Hok; cbn [fold_left].
  - cbn. unfold delivered. rewrite !Nat.add_0_r, app_nil_r.
    destruct (Ultra.stats w); auto 10.
  - cbn [members_ok forallb] in Hok. apply andb_true_iff in Hok as [Hthis Hok].
    rewrite filter_cons.
    destruct (decide (is_active (Ultra.objs w) ref = true)) as [Hact|Hact];
      unfold is_active in Hact;
      destruct (Ultra.objs w !! ref) as [this|] eqn:Hobj;
      try discriminate.
    + rewrite Hact.
      destruct (Ultra.bot this) as [h|] eqn:Hbot; [|now rewrite Hact in Hthis].
      rewrite (sendChat_active ref this h) by assumption.
      set (w1 := Ultra.displayStats _).
      destruct (IH (S k) w1 Hok)
        as (Hn & Ho & Hs & Hc & Hl & Hb & Hr & Hp & Hcl & Hq).
      change (Ultra.objs w1) with (Ultra.objs w) in *.
      rewrite (deliveries_cons_active _ _ _ _ this h) by assumption.
      cbn [length]. split; [lia|].
      unfold delivered. rewrite Ho, Hs, Hc, Hl, Hb, Hr, Hp, Hcl, Hq.
      subst w1. ultra_unfold. fields. rewrite <- app_assoc.
      repeat split; auto. unfold Ultra.set_messagesSent. fields. f_equal. lia.
    + apply not_true_is_false in Hact. rewrite Hact. now apply IH.
    + now apply IH.
Qed.

(** Every state the program reaches satisfies the side condition of the
    broadcast theorem. *)
Lemma members_ok_reachable w :
  reachable w -> members_ok (Ultra.objs w) (Ultra.bots w) = true.
Proof.
  intros Hreach. apply wf_reachable in Hreach.
  unfold members_ok. apply forallb_forall. intros ref _.
  destruct (Ultra.objs w !! ref) as [this|] eqn:Hobj; [|reflexivity].
  destruct (wf_bot_ok _ _ _ Hreach Hobj) as [_ Hbot].
  destruct (Ultra.connected this); [|reflexivity].
  now destruct (Hbot eq_refl) as [h ->].
Qed.

(** C4 (amended). For a non-empty text, [broadcast] returns no value
    ([undefined]); the count it prints and logs is exactly the number of
    members that are Active (their [connected] flag is set) at the time of
    the call. Each Active member receives the text once and the
    process-wide counter [stats.messagesSent] (there is no counter per
    member) grows by one for each of them, so by that count in total;
    members that are not Active are skipped, and no other counter and no
    bot changes. With 2 of 3 members Active the count is 2 and
    [messagesSent] grows by 2. *)
Theorem broadcast_reports_active_count (message : jsstring) (w : Ultra.World) :
  message <> [] ->
  members_ok (Ultra.objs w) (Ultra.bots w) = true ->
  let n := length (active_members w) in
  let w' := snd (Ultra.broadcast message w) in
  fst (Ultra.broadcast message w) = undefined /\
  last (Ultra.console w') = Some (Ultra.Broadcasted n message) /\
  last (Ultra.logfile w') = Some (Ultra.LogBroadcast message n) /\
  Ultra.messagesSent (Ultra.stats w') = Ultra.messagesSent (Ultra.stats w) + n /\
  Ultra.stats w' =
    Ultra.set_messagesSent (Ultra.messagesSent (Ultra.stats w) + n) (Ultra.stats w) /\
  Ultra.objs w' = Ultra.objs w /\
  Ultra.chats w' =
    Ultra.chats w ++ deliveries (Ultra.objs w) message (active_members w).
Proof.
  intros Hne Hok. unfold Ultra.broadcast.
  destruct message as [|c message]; [congruence|].
  destruct (broadcast_loop (c :: message) (Ultra.bots w) 0 w Hok)
    as (Hn & Ho & Hs & Hc & Hl & _).
  fold (active_members w) in *. cbv zeta in *.
  destruct (Ultra.forEach_connected _ _ _) as [sent w1]. cbn [fst snd] in *.
  subst sent. unfold Ultra.saveLog, Ultra.print. fields.
  rewrite !last_snoc, Hs, Ho, Hc. fields. auto 10.
Qed.

Lemma broadcast_reports_active_count_witness :
  let w' := snd (Ultra.broadcast (js "hi") ultra_pool3) in
  length (Ultra.bots ultra_pool3) = 3 /\
  length (active_members ultra_pool3) = 2 /\
  last (Ultra.console w') = Some (Ultra.Broadcasted 2 (js "hi")) /\
  Ultra.messagesSent (Ultra.stats w') =
    Ultra.messagesSent (Ultra.stats ultra_pool3) + 2.
Proof.
  assert (Hne : js "hi" <> []) by discriminate.
  assert (Hok : members_ok (Ultra.objs ultra_pool3) (Ultra.bots ultra_pool3) = true)
    by (vm_compute; reflexivity).
  assert (Hn : length (active_members ultra_pool3) = 2)
    by (vm_compute; reflexivity).
  destruct (broadcast_reports_active_count (js "hi") ultra_pool3 Hne Hok)
    as (_ & Hc & _ & Hm & _).
  rewrite Hn in Hc, Hm.
  split; [vm_compute; reflexivity|]. split; [exact Hn|]. split; assumption.
Defined.

(** C4, counterexample. With 2 of 3 members Active, the call
    [broadcast("hi")] does not return 2: it returns [undefined]. *)
Lemma broadcast_returns_no_count :
  length (Ultra.bots ultra_pool3) = 3 /\
  length (active_members ultra_pool3) = 2 /\
  fst (Ultra.broadcast (js "hi") ultra_pool3) = undefined /\
  fst (Ultra.broadcast (js "hi") ultra_pool3) <> number 2.
Proof. vm_compute. repeat split; auto. discriminate. Qed.

(** C10. With an empty text, [broadcast] and [executeCommand] return at
    once and leave the whole state as it was: no [sendChat] or
    [executeCommand] call reaches a member, no counter moves, and nothing
    is printed or logged. *)
Theorem empty_text_is_a_no_op (w : Ultra.World) (v : Enhanced.World) :
  Ultra.broadcast [] w = (undefined, w) /\
  Ultra.executeCommand [] w = (undefined, w) /\
  Ultra.step w (Ultra.Say []) = w /\
  Ultra.step w (Ultra.Cmd []) = w /\
  Enhanced.broadcast [] v = (undefined, v).
Proof. repeat split. Qed.

(** ** Shutdown (C5) *)

Lemma omap_pointwise {A B} (f g : A -> option B) (l : list A) :
  (forall x, f x = g x) -> omap f l = omap g l.
Proof.
  intros Hfg. induction l as [|x l IH]; cbn [omap list_omap]; [reflexivity|].
  now rewrite Hfg, IH.
Qed.

Lemma disconnect_effect ref w :
  let w' := Ultra.disconnect ref w in
  Ultra.quits w' = Ultra.quits w ++ option_list (client_of (Ultra.objs w) ref) /\
  (forall r, client_of (Ultra.objs w') r = client_of (Ultra.objs w) r) /\
  Ultra.stats w' = Ultra.stats w /\
  Ultra.clients w' = Ultra.clients w /\
  Ultra.chats w' = Ultra.chats w /\
  Ultra.isRunning w' = Ultra.isRunning w.
Proof.
  unfold Ultra.disconnect, client_of, Ultra.upd_obj.
  destruct (Ultra.objs w !! ref) as [this|] eqn:Hobj; cbn.
  - destruct (Ultra.bot this) as [h|] eqn:Hbot; fields; cbn.
    + split; [reflexivity|]. split; [|auto]. intros r.
      destruct (decide (ref = r)) as [<-|Hne].
      * rewrite lookup_alter_eq, Hobj. cbn. now rewrite Hbot.
      * now rewrite lookup_alter_ne.
    + rewrite app_nil_r. auto 10.
  - rewrite app_nil_r. auto 10.
Qed.

Lemma fold_disconnect_effect refs : forall w,
  let w' := fold_left (fun w ref => Ultra.disconnect ref w) refs w in
  Ultra.quits w' = Ultra.quits w ++ omap (client_of (Ultra.objs w)) refs /\
  Ultra.stats w' = Ultra.stats w /\
  Ultra.clients w' = Ultra.clients w /\
  Ultra.chats w' = Ultra.chats w /\
  Ultra.isRunning w' = Ultra.isRunning w.
Proof.
  induction refs as [|ref refs IH]; intros w; cbn [fold_left].
  - cbn. rewrite app_nil_r. auto 10.
  - destruct (disconnect_effect ref w) as (Hq & Hc & Hs & Hcl & Hch & Hr).
    destruct (IH (Ultra.disconnect ref w)) as (Hq' & Hs' & Hcl' & Hch' & Hr').
    cbv zeta in *. rewrite Hq', Hs', Hcl', Hch', Hr', Hq, <- app_assoc.
    repeat split; auto. f_equal.
    rewrite (omap_pointwise _ _ refs Hc). cbn [omap list_omap].
    now destruct (client_of (Ultra.objs w) ref).
Qed.

Lemma enhanced_fold_disconnect_effect refs : forall w,
  let w' := fold_left (fun w ref => Enhanced.disconnect ref w) refs w in
  Enhanced.quits w' =
    Enhanced.quits w ++ omap (enhanced_client_of (Enhanced.objs w)) refs /\
  Enhanced.objs w' = Enhanced.objs w /\
  Enhanced.stats w' = Enhanced.stats w /\
  Enhanced.clients w' = Enhanced.clients w /\
  Enhanced.chats w' = Enhanced.chats w.
Proof.
  induction refs as [|ref refs IH]; intros w; cbn [fold_left].
  - cbn. rewrite app_nil_r. auto.
  - destruct (IH (Enhanced.disconnect ref w)) as (Hq & Ho & Hs & Hcl & Hch).
    cbv zeta in *. rewrite Hq, Ho, Hs, Hcl, Hch.
    unfold Enhanced.disconnect, enhanced_client_of. cbn [omap list_omap].
    destruct (Enhanced.objs w !! ref) as [this|] eqn:Hobj; cbn; auto.
    destruct (Enhanced.bot this) as [h|] eqn:Hbot; fields; cbn; auto.
    rewrite <- app_assoc. auto.
Qed.

(** With no member left, [stopAll] tears nothing down. *)
Lemma stopAll_no_members w :
  Ultra.bots w = [] ->
  Ultra.stopAll w =
  Ultra.defer Ultra.FinalStatsTimer
    (Ultra.set_bots [] (Ultra.set_isRunning false (Ultra.print Ultra.StoppingAll w))).
Proof. intros H. unfold Ultra.stopAll, Ultra.print. fields. now rewrite H. Qed.

Lemma enhanced_stopAll_no_members v :
  Enhanced.bots v = [] ->
  Enhanced.stopAll v =
  Enhanced.set_bots [] (Enhanced.print Enhanced.StoppingAll v).
Proof. intros H. unfold Enhanced.stopAll, Enhanced.print. fields. now rewrite H. Qed.

Lemma stopAll_when_stopped w :
  Ultra.isRunning w = false -> Ultra.bots w = [] ->
  Ultra.stopAll w = Ultra.defer Ultra.FinalStatsTimer (Ultra.print Ultra.StoppingAll w).
Proof.
  intros Hrun Hbots. rewrite stopAll_no_members by assumption.
  destruct w. unfold Ultra.defer, Ultra.print. cbn in *. now subst.
Qed.

Lemma enhanced_stopAll_when_stopped v :
  Enhanced.bots v = [] ->
  Enhanced.stopAll v = Enhanced.print Enhanced.StoppingAll v.
Proof.
  intros Hbots. rewrite enhanced_stopAll_no_members by assumption.
  destruct v. unfold Enhanced.print. cbn in *. now subst.
Qed.

(** C5 (amended). Calling [stopAll] twice in a row tears nothing down
    twice. After the first call [isRunning] is false ([botattack.js] has
    no such flag), [quit] has been called exactly once on the client that
    each member holds, the member list is empty and no counter has
    moved. The second call finds no member: it calls [quit] on nothing
    and changes no counter, bot, client or chat call. But it is not
    without effect: all it does is print the banner again and, in
    [ass.js], set a second timer for the final statistics, so that the
    end state of two calls is the end state of one call with one more
    banner and one more timer. *)
Theorem second_stopAll_prints_and_schedules (w : Ultra.World) (v : Enhanced.World) :
  let w1 := Ultra.stopAll w in
  let w2 := Ultra.stopAll w1 in
  let v1 := Enhanced.stopAll v in
  let v2 := Enhanced.stopAll v1 in
  (Ultra.isRunning w1 = false /\ Ultra.bots w1 = [] /\
   Ultra.quits w1 =
     Ultra.quits w ++ omap (client_of (Ultra.objs w)) (Ultra.bots w) /\
   Ultra.stats w1 = Ultra.stats w) /\
  (w2 = Ultra.defer Ultra.FinalStatsTimer (Ultra.print Ultra.StoppingAll w1) /\
   Ultra.console w2 = Ultra.console w1 ++ [Ultra.StoppingAll] /\
   Ultra.pending w2 = Ultra.pending w1 ++ [Ultra.FinalStatsTimer] /\
   Ultra.isRunning w2 = false /\ Ultra.bots w2 = [] /\
   Ultra.quits w2 = Ultra.quits w1 /\ Ultra.stats w2 = Ultra.stats w1 /\
   Ultra.objs w2 = Ultra.objs w1 /\ Ultra.clients w2 = Ultra.clients w1 /\
   Ultra.chats w2 = Ultra.chats w1 /\ Ultra.logfile w2 = Ultra.logfile w1) /\
  (Enhanced.bots v1 = [] /\
   Enhanced.quits v1 =
     Enhanced.quits v ++
     omap (enhanced_client_of (Enhanced.objs v)) (Enhanced.bots v) /\
   Enhanced.stats v1 = Enhanced.stats v) /\
  (v2 = Enhanced.print Enhanced.StoppingAll v1 /\
   Enhanced.console v2 = Enhanced.console v1 ++ [Enhanced.StoppingAll] /\
   Enhanced.pending v2 = Enhanced.pending v1 /\
   Enhanced.bots v2 = [] /\
   Enhanced.quits v2 = Enhanced.quits v1 /\ Enhanced.stats v2 = Enhanced.stats v1 /\
   Enhanced.objs v2 = Enhanced.objs v1 /\ Enhanced.clients v2 = Enhanced.clients v1 /\
   Enhanced.chats v2 = Enhanced.chats v1).
Proof.
  cbv zeta.
  assert (H1 : Ultra.isRunning (Ultra.stopAll w) = false /\
               Ultra.bots (Ultra.stopAll w) = [] /\
               Ultra.quits (Ultra.stopAll w) =
                 Ultra.quits w ++ omap (client_of (Ultra.objs w)) (Ultra.bots w) /\
               Ultra.stats (Ultra.stopAll w) = Ultra.stats w).
  { unfold Ultra.stopAll, Ultra.defer, Ultra.print. fields.
    destruct (fold_disconnect_effect (Ultra.bots w)
                (Ultra.set_isRunning false
                   (Ultra.set_console (Ultra.console w ++ [Ultra.StoppingAll]) w)))
      as (Hq & Hs & _ & _ & Hr).
    cbv zeta in *. fields. auto 10. }
  assert (H2 : Enhanced.bots (Enhanced.stopAll v) = [] /\
               Enhanced.quits (Enhanced.stopAll v) =
                 Enhanced.quits v ++
                 omap (enhanced_client_of (Enhanced.objs v)) (Enhanced.bots v) /\
               Enhanced.stats (Enhanced.stopAll v) = Enhanced.stats v).
  { unfold Enhanced.stopAll, Enhanced.print. fields.
    destruct (enhanced_fold_disconnect_effect (Enhanced.bots v)
                (Enhanced.set_console
                   (Enhanced.console v ++ [Enhanced.StoppingAll]) v))
      as (Hq & _ & Hs & _).
    cbv zeta in *. fields. auto 10. }
  split; [exact H1|]. split; [|split; [exact H2|]].
  - destruct H1 as (Hrun & Hbots & _).
    rewrite (stopAll_when_stopped _ Hrun Hbots).
    generalize dependent (Ultra.stopAll w). intros w1 Hrun Hbots.
    unfold Ultra.defer, Ultra.print. fields. auto 15.
  - destruct H2 as (Hbots & _).
    rewrite (enhanced_stopAll_when_stopped _ Hbots).
    generalize dependent (Enhanced.stopAll v). intros v1 Hbots.
    unfold Enhanced.print. fields. auto 15.
Qed.

(** C5, counterexample. Three bots, two of them Active: the state after
    two calls of [stopAll] is not the state after one. The terminal shows
    the banner twice and two timers for the final statistics are
    pending; when both have fired, the final statistics were printed and
    the end of the session was logged twice. In [botattack.js] the banner
    is printed twice. *)
Lemma stopAll_twice_is_not_stopAll_once :
  let w1 := Ultra.stopAll ultra_pool3 in
  let w2 := Ultra.stopAll w1 in
  let fired := [Ultra.Fire 0 env_rejected; Ultra.Fire 0 env_rejected] in
  let v1 := Enhanced.stopAll enhanced_one_active in
  let v2 := Enhanced.stopAll v1 in
  w2 <> w1 /\
  Ultra.pending w1 = [Ultra.FinalStatsTimer] /\
  Ultra.pending w2 = [Ultra.FinalStatsTimer; Ultra.FinalStatsTimer] /\
  Ultra.logfile (Ultra.run w1 fired) =
    Ultra.logfile ultra_pool3 ++ [Ultra.LogSessionEnded] /\
  Ultra.logfile (Ultra.run w2 fired) =
    Ultra.logfile ultra_pool3 ++ [Ultra.LogSessionEnded; Ultra.LogSessionEnded] /\
  v2 <> v1 /\
  Enhanced.console v2 = Enhanced.console v1 ++ [Enhanced.StoppingAll].
Proof.
  cbv zeta. split; [|split; [|split; [|split; [|split; [|split]]]]].
  - intros H. apply (f_equal (fun x => length (Ultra.pending x))) in H.
    vm_compute in H. discriminate.
  - vm_compute. reflexivity.
  - vm_compute. reflexivity.
  - vm_compute. reflexivity.
  - vm_compute. reflexivity.
  - intros H. apply (f_equal (fun x => length (Enhanced.console x))) in H.
    vm_compute in H. discriminate.
  - vm_compute. reflexivity.
Qed.

(** ** Relay assignment (C6) *)

(** Among the first [m] indices, those congruent to [j] modulo [k]. *)
Lemma count_mod k j m :
  0 < k -> j < k ->
  length (filter (fun i => i mod k = j) (seq 0 m)) =
  m / k + (if j <? m mod k then 1 else 0).
Proof.
  intros Hk Hj. induction m as [|m IH].
  - rewrite Nat.Div0.div_0_l, Nat.Div0.mod_0_l. reflexivity.
  - rewrite seq_S, filter_app, length_app, IH. cbn [Nat.add seq].
    pose proof (Nat.div_mod_eq m k) as Hm.
    pose proof (Nat.mod_upper_bound m k ltac:(lia)) as Hr.
    set (q := m / k) in *. set (r := m mod k) in *.
    destruct (decide (S r = k)) as [Hlast|Hnot].
    + assert (Hq : S m / k = S q).
      { symmetry. apply (Nat.div_unique _ _ _ 0); lia. }
      assert (Hr' : S m mod k = 0).
      { symmetry. apply (Nat.mod_unique _ _ (S q)); lia. }
      rewrite Hq, Hr'. rewrite filter_cons, filter_nil. fold r.
      destruct (decide (r = j)); destruct (Nat.ltb_spec j r); cbn; lia.
    + assert (Hq : S m / k = q).
      { symmetry. apply (Nat.div_unique _ _ _ (S r)); lia. }
      assert (Hr' : S m mod k = S r).
      { symmetry. apply (Nat.mod_unique _ _ q); lia. }
      rewrite Hq, Hr'. rewrite filter_cons, filter_nil. fold r.
      destruct (decide (r = j)); destruct (Nat.ltb_spec j r);
        destruct (Nat.ltb_spec j (S r)); cbn; lia.
Qed.

Lemma ceil_div_rem m k :
  0 < k -> 0 < m mod k -> ceil_div m k = m / k + 1.
Proof.
  intros Hk Hr. unfold ceil_div.
  pose proof (Nat.div_mod_eq m k) as Hm.
  pose proof (Nat.mod_upper_bound m k ltac:(lia)) as Hlt.
  symmetry. apply (Nat.div_unique _ _ _ (m mod k - 1)); lia.
Qed.

Lemma count_mod_floor_or_ceil k j m :
  0 < k -> j < k ->
  let n := length (filter (fun i => i mod k = j) (seq 0 m)) in
  n = floor_div m k \/ n = ceil_div m k.
Proof.
  intros Hk Hj. cbv zeta. rewrite count_mod by assumption.
  destruct (Nat.ltb_spec j (m mod k)).
  - right. rewrite ceil_div_rem; lia.
  - left. unfold floor_div. lia.
Qed.

Lemma filter_ext_elem {A} (P Q : A -> Prop)
    `{forall x, Decision (P x)} `{forall x, Decision (Q x)} (l : list A) :
  (forall x, x ∈ l -> (P x <-> Q x)) -> filter P l = filter Q l.
Proof.
  induction l as [|x l IH]; intros Hext; [reflexivity|].
  rewrite !filter_cons.
  assert (HPQ : P x <-> Q x) by (apply Hext; left).
  rewrite IH by (intros y Hy; apply Hext; now right).
  destruct (decide (P x)), (decide (Q x)); tauto.
Qed.

Lemma length_filter_seq_S {Q : nat -> Prop} `{forall x, Decision (Q x)} m :
  forall s,
  length (filter Q (seq (S s) m)) =
  length (filter (fun i => Q (S i)) (seq s m)).
Proof.
  induction m as [|m IH]; intros s; [reflexivity|].
  cbn [seq]. rewrite !filter_cons.
  destruct (decide (Q (S s))); cbn [length]; now rewrite IH.
Qed.

Lemma spawnBot_spawned wp m n e w :
  n < m -> spawned wp m n w -> spawned wp m (S n) (Ultra.spawnBot e w).
Proof.
  intros Hlt (Hrun & Hmax & Hwp & Hidx & Hbots & Hprox).
  unfold Ultra.spawnBot. rewrite Hrun, Hmax, Hidx.
  destruct (Nat.leb_spec m n); [lia|]. cbn [negb orb].
  unfold Ultra.new_UltraBot, Ultra.connect, Ultra.defer, Ultra.print. fields.
  rewrite Hmax, Hidx.
  unfold spawned.
  destruct (n + 1 <? m); fields; rewrite Hbots, Hwp, seq_S, Nat.add_1_r;
    (repeat split; auto; intros i Hi; unfold proxy_of;
     destruct (decide (i = n)) as [->|Hne];
     [now rewrite lookup_insert_eq
     |rewrite lookup_insert_ne by lia; apply Hprox; lia]).
Qed.

Lemma spawn_all_spawned wp m envs : forall n w,
  n + length envs <= m ->
  spawned wp m n w ->
  spawned wp m (n + length envs) (spawn_all envs w).
Proof.
  unfold spawn_all.
  induction envs as [|e envs IH]; intros n w Hle Hsp; cbn [fold_left length] in *.
  - now rewrite Nat.add_0_r.
  - replace (n + S (length envs)) with (S n + length envs) by lia.
    apply IH; [lia|]. apply spawnBot_spawned; [lia | assumption].
Qed.

Lemma init_spawned m delay allProxies wp :
  spawned wp m 0 (Ultra.init m delay allProxies wp).
Proof. unfold spawned, Ultra.init. fields. repeat split; auto. lia. Qed.

(** With relays that are distinct and non-empty, [assign_proxy] picks
    the [j]-th relay exactly for the indices congruent to [j]. *)
Lemma assign_proxy_mod wp i j p :
  NoDup wp -> [] ∉ wp -> wp !! j = Some p ->
  Ultra.assign_proxy wp i = Some p <-> i mod length wp = j.
Proof.
  intros Hnd Hne Hj. unfold Ultra.assign_proxy.
  assert (Hk : 0 < length wp) by (apply lookup_lt_Some in Hj; lia).
  destruct (length wp) as [|k'] eqn:Hlen; [lia|]. rewrite <- Hlen.
  pose proof (Nat.mod_upper_bound i (length wp) ltac:(lia)) as Hlt.
  destruct (lookup_lt_is_Some_2 wp _ Hlt) as [q Hq]. rewrite Hq.
  assert (q <> []) by (intros ->; apply Hne; eapply list_elem_of_lookup_2; eauto).
  destruct q as [|c q]; [congruence|]. split.
  - intros [= <-]. eapply NoDup_lookup; eauto.
  - intros Hij. rewrite Hij in Hq. congruence.
Qed.

Lemma assign_proxy_is_Some wp i :
  0 < length wp -> [] ∉ wp -> is_Some (Ultra.assign_proxy wp i).
Proof.
  intros Hk Hne. unfold Ultra.assign_proxy.
  destruct (length wp) as [|k'] eqn:Hlen; [lia|]. rewrite <- Hlen.
  pose proof (Nat.mod_upper_bound i (length wp) ltac:(lia)) as Hlt.
  destruct (lookup_lt_is_Some_2 wp _ Hlt) as [q Hq]. rewrite Hq.
  destruct q as [|c q]; [|eauto].
  exfalso. apply Hne. eapply list_elem_of_lookup_2; eauto.
Qed.

Lemma enhanced_connect_frame ref created v :
  let v' := Enhanced.connect ref created v in
  Enhanced.maxBots v' = Enhanced.maxBots v /\
  Enhanced.workingProxies v' = Enhanced.workingProxies v /\
  Enhanced.bots v' = Enhanced.bots v /\
  Enhanced.botIndex v' = Enhanced.botIndex v /\
  Enhanced.delay v' = Enhanced.delay v /\
  forall r, enhanced_proxy_of (Enhanced.objs v') r =
            enhanced_proxy_of (Enhanced.objs v) r.
Proof.
  unfold Enhanced.connect, enhanced_proxy_of.
  destruct (Enhanced.objs v !! ref) as [this|] eqn:Hobj; [|cbn; auto 10].
  destruct created; enhanced_unfold; [|cbn; auto 10].
  assert (Hgoal : forall r,
            alter (Enhanced.set_bot (Some (length (Enhanced.clients v))))
              ref (Enhanced.objs v) !! r ≫= Enhanced.proxy =
            Enhanced.objs v !! r ≫= Enhanced.proxy).
  { intros r. destruct (decide (ref = r)) as [<-|Hne].
    - now rewrite lookup_alter_eq, Hobj.
    - now rewrite lookup_alter_ne. }
  destruct (Enhanced.proxy this); fields; auto 10.
Qed.

Lemma enhanced_spawnBot_spawned wp m n e v :
  n < m -> enhanced_spawned wp m n v ->
  enhanced_spawned wp m (S n) (Enhanced.spawnBot e v).
Proof.
  intros Hlt (Hmax & Hwp & Hidx & Hbots & Hprox).
  unfold Enhanced.spawnBot. rewrite Hmax, Hidx.
  destruct (Nat.leb_spec m n); [lia|].
  unfold Enhanced.new_EnhancedBot.
  set (v1 := Enhanced.set_objs _ v).
  destruct (enhanced_connect_frame (n + 1) (Enhanced.created e) v1)
    as (H1 & H2 & H3 & H4 & H5 & H6).
  cbv zeta in *. unfold enhanced_spawned, Enhanced.defer, Enhanced.print.
  fields. rewrite H1, H2, H3, !H4. subst v1. fields.
  rewrite Hbots, Hwp, Hidx, seq_S, !Nat.add_1_r in *.
  repeat (split; [solve [auto]|]). intros i Hi. rewrite H6. fields.
  unfold enhanced_proxy_of. destruct (decide (i = n)) as [->|Hne].
  - now rewrite lookup_insert_eq.
  - rewrite lookup_insert_ne by lia. apply Hprox. lia.
Qed.

Lemma enhanced_spawn_all_spawned wp m envs : forall n v,
  n + length envs <= m ->
  enhanced_spawned wp m n v ->
  enhanced_spawned wp m (n + length envs) (enhanced_spawn_all envs v).
Proof.
  unfold enhanced_spawn_all.
  induction envs as [|e envs IH]; intros n v Hle Hsp; cbn [fold_left length] in *.
  - now rewrite Nat.add_0_r.
  - replace (n + S (length envs)) with (S n + length envs) by lia.
    apply IH; [lia|]. apply enhanced_spawnBot_spawned; [lia | assumption].
Qed.

Lemma enhanced_init_spawned m delay allProxies wp :
  enhanced_spawned wp m 0 (Enhanced.init m delay allProxies wp).
Proof. unfold enhanced_spawned, Enhanced.init. fields. repeat split; auto. lia. Qed.

Lemma enhanced_assign_proxy_index wp i j p :
  NoDup wp -> [] ∉ wp -> wp !! j = Some p ->
  Enhanced.assign_proxy wp i = Some p <-> i = j.
Proof.
  intros Hnd Hne Hj. unfold Enhanced.assign_proxy.
  destruct (wp !! i) as [q|] eqn:Hq.
  - assert (q <> []) by (intros ->; apply Hne; eapply list_elem_of_lookup_2; eauto).
    destruct q as [|c q]; [congruence|]. split.
    + intros [= <-]. eapply NoDup_lookup; eauto.
    + intros ->. congruence.
  - split; [discriminate|]. intros ->. congruence.
Qed.

Lemma enhanced_assign_proxy_None wp i :
  [] ∉ wp -> Enhanced.assign_proxy wp i = None <-> length wp <= i.
Proof.
  intros Hne. unfold Enhanced.assign_proxy.
  destruct (wp !! i) as [q|] eqn:Hq.
  - assert (q <> []) by (intros ->; apply Hne; eapply list_elem_of_lookup_2; eauto).
    apply lookup_lt_Some in Hq as Hlt.
    destruct q as [|c q]; [congruence|]. split; [discriminate | lia].
  - apply lookup_ge_None in Hq. tauto.
Qed.

Lemma count_eq j m :
  length (filter (fun i => i = j) (seq 0 m)) = if j <? m then 1 else 0.
Proof.
  induction m as [|m IH]; [reflexivity|].
  rewrite seq_S, filter_app, length_app, IH, filter_cons, filter_nil. cbn [Nat.add].
  destruct (decide (m = j)); destruct (Nat.ltb_spec j m);
    destruct (Nat.ltb_spec j (S m)); cbn; lia.
Qed.

Lemma count_ge k m :
  length (filter (fun i => k <= i) (seq 0 m)) = m - k.
Proof.
  induction m as [|m IH]; [reflexivity|].
  rewrite seq_S, filter_app, length_app, IH, filter_cons, filter_nil. cbn [Nat.add].
  destruct (decide (k <= m)); cbn; lia.
Qed.

(** C6 (amended). Let [m] sessions be spawned over [k] verified proxies,
    [0 < k < m], the proxies being distinct and non-empty strings. In
    [ass.js], [spawnBot] cycles over the verified sequence: every session
    gets a proxy and each verified proxy serves either the floor or the
    ceiling of [m / k] sessions. In [botattack.js], [spawnBot] does not
    cycle: session [i] gets the [i]-th verified proxy, so each verified
    proxy serves exactly one session and the [m - k] sessions past the
    [k]-th connect without a proxy. *)
Theorem relay_assignment
    (wp allProxies : list jsstring) (delay : N)
    (envs : list Ultra.Env) (venvs : list Enhanced.Env) :
  let k := length wp in
  let m := length envs in
  0 < k -> k < m -> NoDup wp -> [] ∉ wp -> length venvs = m ->
  let w := spawn_all envs (Ultra.init m delay allProxies wp) in
  let v := enhanced_spawn_all venvs (Enhanced.init m delay allProxies wp) in
  (length (Ultra.bots w) = m /\
   (forall ref, ref ∈ Ultra.bots w -> is_Some (proxy_of (Ultra.objs w) ref)) /\
   (forall p, p ∈ wp ->
      sessions_on w p = floor_div m k \/ sessions_on w p = ceil_div m k)) /\
  (length (Enhanced.bots v) = m /\
   (forall p, p ∈ wp -> enhanced_sessions_on v p = 1) /\
   enhanced_unproxied v = m - k).
Proof.
  intros k m Hk Hkm Hnd Hne Hlen w v. split.
  - destruct (spawn_all_spawned wp m envs 0 (Ultra.init m delay allProxies wp))
      as (_ & _ & _ & _ & Hbots & Hprox);
      [subst m; lia | apply init_spawned |].
    fold w in Hbots, Hprox. cbn [Nat.add] in *. fold m in Hbots, Hprox.
    split; [now rewrite Hbots, length_seq|]. split.
    + intros ref Href. rewrite Hbots in Href.
      apply elem_of_seq in Href. destruct ref as [|i]; [lia|].
      rewrite Hprox by lia. now apply assign_proxy_is_Some.
    + intros p Hp. apply list_elem_of_lookup in Hp as [j Hj].
      unfold sessions_on. rewrite Hbots, length_filter_seq_S.
      rewrite (filter_ext_elem _ (fun i => i mod k = j)).
      * apply count_mod_floor_or_ceil; [assumption|].
        now apply lookup_lt_Some in Hj.
      * intros i Hi. apply elem_of_seq in Hi. rewrite Hprox by lia.
        now apply assign_proxy_mod.
  - destruct (enhanced_spawn_all_spawned wp m venvs 0
                (Enhanced.init m delay allProxies wp))
      as (_ & _ & _ & Hbots & Hprox);
      [lia | apply enhanced_init_spawned |].
    fold v in Hbots, Hprox. cbn [Nat.add] in *. rewrite Hlen in Hbots, Hprox.
    split; [now rewrite Hbots, length_seq|]. split.
    + intros p Hp. apply list_elem_of_lookup in Hp as [j Hj].
      unfold enhanced_sessions_on. rewrite Hbots, length_filter_seq_S.
      rewrite (filter_ext_elem _ (fun i => i = j)).
      * rewrite count_eq. apply lookup_lt_Some in Hj.
        destruct (Nat.ltb_spec j m); [reflexivity | lia].
      * intros i Hi. apply elem_of_seq in Hi. rewrite Hprox by lia.
        now apply enhanced_assign_proxy_index.
    + unfold enhanced_unproxied. rewrite Hbots, length_filter_seq_S.
      rewrite (filter_ext_elem _ (fun i => k <= i)).
      * apply count_ge.
      * intros i Hi. apply elem_of_seq in Hi. rewrite Hprox by lia.
        now apply enhanced_assign_proxy_None.
Qed.

Lemma relay_assignment_witness :
  let wp := [js "10.0.0.1:1080"; js "10.0.0.2:1080"] in
  let envs := [env_rejected; env_rejected; env_rejected; env_rejected; env_rejected] in
  let w := spawn_all envs (Ultra.init 5 3000 wp wp) in
  sessions_on w (js "10.0.0.1:1080") = 3 /\
  sessions_on w (js "10.0.0.2:1080") = 2 /\
  floor_div 5 2 = 2 /\ ceil_div 5 2 = 3 /\
  (sessions_on w (js "10.0.0.2:1080") = floor_div 5 2 \/
   sessions_on w (js "10.0.0.2:1080") = ceil_div 5 2).
Proof.
  intros wp envs w.
  assert (Hnd : NoDup wp).
  { apply NoDup_cons. split; [|apply NoDup_singleton].
    intros H. apply list_elem_of_singleton in H. discriminate. }
  assert (Hne : [] ∉ wp).
  { intros H. apply elem_of_cons in H as [H|H]; [discriminate|].
    apply list_elem_of_singleton in H. discriminate. }
  destruct (relay_assignment wp wp 3000 envs
              [enhanced_env; enhanced_env; enhanced_env; enhanced_env; enhanced_env]
              ltac:(cbn; lia) ltac:(cbn; lia) Hnd Hne eq_refl)
    as ((_ & _ & H) & _).
  repeat split; try (vm_compute; reflexivity).
  apply H. right. left.
Defined.

(** C6, counterexample. In [botattack.js], three sessions spawned over
    one verified proxy: the proxy serves one session, not three, and two
    sessions have no proxy although a verified proxy exists. *)
Lemma enhanced_spawn_does_not_cycle :
  let wp := [js "10.0.0.1:1080"] in
  let v := enhanced_spawn_all [enhanced_env; enhanced_env; enhanced_env]
             (Enhanced.init 3 3000 wp wp) in
  length (Enhanced.bots v) = 3 /\
  enhanced_sessions_on v (js "10.0.0.1:1080") = 1 /\
  enhanced_unproxied v = 2 /\
  floor_div 3 1 = 3 /\ ceil_div 3 1 = 3 /\
  ~ (enhanced_sessions_on v (js "10.0.0.1:1080") = floor_div 3 1 \/
     enhanced_sessions_on v (js "10.0.0.1:1080") = ceil_div 3 1).
Proof.
  vm_compute. repeat split; auto. intros [H|H]; discriminate.
Qed.

(** ** Callbacks after shutdown (C8) *)

(** The callback of the reconnect timer does look at [isRunning]. *)
Lemma reconnect_timer_checks_isRunning ref w :
  Ultra.isRunning w = false -> Ultra.reconnect_timer ref w = w.
Proof. intros H. unfold Ultra.reconnect_timer. now rewrite H. Qed.

(** The callbacks of [connect] do not. When the ping fails,
    [actualConnect] runs whatever [isRunning] says and a client is
    created. *)
Lemma ping_failure_connects n e ref this w :
  Ultra.pending w !! n = Some (Ultra.Ping ref) ->
  Ultra.resolved e = false -> Ultra.created e = true ->
  Ultra.objs w !! ref = Some this ->
  let w' := Ultra.fire n e w in
  Ultra.isRunning w' = Ultra.isRunning w /\
  Ultra.clients w' = Ultra.clients w ++ [ref] /\
  Ultra.sent (Ultra.stats w') = S (Ultra.sent (Ultra.stats w)).
Proof.
  intros Hpend Hres Hcre Hobj. unfold Ultra.fire. rewrite Hpend, Hres, Hcre.
  unfold Ultra.actualConnect. ultra_unfold. fields. rewrite Hobj.
  now case_lookups.
Qed.

(** When the ping succeeds, the join timer is set, and when that timer
    fires [actualConnect] runs, again whatever [isRunning] says. *)
Lemma ping_success_sets_join_timer n e ref this w :
  Ultra.pending w !! n = Some (Ultra.Ping ref) ->
  Ultra.resolved e = true ->
  Ultra.objs w !! ref = Some this ->
  Ultra.pending (Ultra.fire n e w) =
  delete n (Ultra.pending w) ++ [Ultra.JoinTimer ref (Ultra.joinDelay this)].
Proof.
  intros Hpend Hres Hobj. unfold Ultra.fire. rewrite Hpend, Hres.
  fields. now rewrite Hobj.
Qed.

Lemma join_timer_connects n e ref d this w :
  Ultra.pending w !! n = Some (Ultra.JoinTimer ref d) ->
  Ultra.created e = true ->
  Ultra.objs w !! ref = Some this ->
  let w' := Ultra.fire n e w in
  Ultra.isRunning w' = Ultra.isRunning w /\
  Ultra.clients w' = Ultra.clients w ++ [ref] /\
  Ultra.sent (Ultra.stats w') = S (Ultra.sent (Ultra.stats w)).
Proof.
  intros Hpend Hcre Hobj. unfold Ultra.fire. rewrite Hpend, Hcre.
  unfold Ultra.actualConnect. ultra_unfold. fields. rewrite Hobj.
  now case_lookups.
Qed.

(** C8, the code at the failing input. A bot is spawned and the operator
    stops the pool while the bot's ping is in flight: [isRunning] is false
    and no client exists. When the ping then fails, or succeeds and the
    join timer fires, a client is created and counted in [sent] all the
    same; the pool stays stopped. *)
Theorem connects_after_shutdown :
  let w := ultra_stopped_during_ping in
  let w1 := Ultra.run w [Ultra.Fire 0 env_rejected] in
  let w2 := Ultra.run w [Ultra.Fire 0 env_resolved; Ultra.Fire 1 env_resolved] in
  (Ultra.isRunning w = false /\ Ultra.bots w = [] /\ Ultra.clients w = [] /\
   Ultra.sent (Ultra.stats w) = 0 /\
   Ultra.pending w = [Ultra.Ping 1; Ultra.FinalStatsTimer]) /\
  (Ultra.isRunning w1 = false /\ Ultra.clients w1 = [1] /\
   Ultra.sent (Ultra.stats w1) = 1) /\
  (Ultra.isRunning w2 = false /\ Ultra.clients w2 = [1] /\
   Ultra.sent (Ultra.stats w2) = 1).
Proof. vm_compute. repeat split; reflexivity. Qed.

(** ** The proxy file read back *)

Lemma filter_all {A} (P : A -> Prop) `{forall x, Decision (P x)} (l : list A) :
  Forall P l -> filter P l = l.
Proof.
  induction 1 as [|x l Hx _ IH]; [reflexivity|].
  rewrite filter_cons, decide_True by assumption. now rewrite IH.
Qed.

Lemma map_trim_plain l :
  Forall (fun s => Forall (fun c => is_whitespace c = false) s) l ->
  map trim l = l.
Proof.
  induction 1 as [|s l Hs _ IH]; [reflexivity|].
  cbn [map]. now rewrite trim_plain, IH.
Qed.

(** X1. The text that [main] writes to the proxy file,
    [allProxies.join('\n')], is in the format the scraper reads: parsed
    line by line as [fetchFromUrl] parses the answer of a source (split at
    newlines, trim, keep the lines with a colon, keep the ip:port shapes),
    it gives back the same endpoints in the same order, provided they all
    have the ip:port shape, which the candidates of the scraper have. *)
Theorem proxy_file_read_back (proxies : list jsstring) :
  Forall ip_port_shape proxies ->
  Ultra.parse_proxies (Proxies.proxy_file proxies) = proxies.
Proof.
  intros Hshape. unfold Ultra.parse_proxies, Proxies.proxy_file.
  destruct proxies as [|p proxies]; [reflexivity|].
  assert (Hplain : Forall (fun s => Forall (fun c => is_whitespace c = false) s
                                    /\ newline ∉ s) (p :: proxies)).
  { eapply Forall_impl; [exact Hshape|]. intros s Hs.
    apply ip_port_shape_chars in Hs. split.
    - eapply Forall_impl; [exact Hs|]. intros c Hc.
      now apply endpoint_char_plain.
    - intros Hin. rewrite Forall_forall in Hs.
      apply Hs, endpoint_char_plain in Hin. now destruct Hin. }
  rewrite split_lines_split, split_join;
    [|discriminate|eapply Forall_impl; [exact Hplain|]; now intros s [_ ?]].
  rewrite (filter_all (fun line => includes line [colon] = true)).
  - rewrite map_trim_plain
      by (eapply Forall_impl; [exact Hplain|]; now intros s [? _]).
    apply filter_all. eapply Forall_impl; [exact Hshape|].
    intros s Hs. now apply ip_port_regex_shape.
  - eapply Forall_impl; [exact Hshape|]. intros s Hs.
    now apply includes_single, ip_port_shape_colon.
Qed.

Lemma proxy_file_read_back_witness :
  Ultra.parse_proxies
    (Proxies.proxy_file [js "10.0.0.1:1080"; js "192.168.1.20:8080"])
  = [js "10.0.0.1:1080"; js "192.168.1.20:8080"].
Proof.
  apply proxy_file_read_back.
  repeat constructor; apply ip_port_regex_shape; vm_compute; reflexivity.
Defined.

(** ** The batches of the proxy tests *)

Lemma batches_loop_concat size : 0 < size -> forall fuel l,
  length l <= fuel -> concat (Proxies.batches_loop fuel size l) = l.
Proof.
  intros Hsize. induction fuel as [|fuel IH]; intros l Hlen.
  - destruct l; [reflexivity | cbn in Hlen; lia].
  - cbn [Proxies.batches_loop]. destruct l as [|x l]; [reflexivity|].
    cbn [concat]. rewrite IH.
    + apply take_drop.
    + rewrite length_drop. cbn [length] in *. lia.
Qed.

Lemma batches_loop_sizes size : 0 < size -> forall fuel l,
  Forall (fun batch => 0 < length batch <= size)
    (Proxies.batches_loop fuel size l).
Proof.
  intros Hsize. induction fuel as [|fuel IH]; intros l; [constructor|].
  cbn [Proxies.batches_loop]. destruct l as [|x l]; [constructor|].
  constructor; [|apply IH].
  rewrite length_take. cbn [length]. lia.
Qed.

Lemma ceil_div_step n size :
  0 < size -> size < n -> ceil_div n size = S (ceil_div (n - size) size).
Proof.
  intros Hsize Hn. unfold ceil_div.
  replace (n + size - 1) with ((n - size + size - 1) + 1 * size) by lia.
  rewrite Nat.div_add by lia. lia.
Qed.

Lemma ceil_div_small n size : 0 < n <= size -> ceil_div n size = 1.
Proof.
  intros Hn. unfold ceil_div. symmetry.
  apply (Nat.div_unique _ _ _ (n - 1)); lia.
Qed.

Lemma batches_loop_length size : 0 < size -> forall fuel l,
  length l <= fuel ->
  length (Proxies.batches_loop fuel size l) = ceil_div (length l) size.
Proof.
  intros Hsize. induction fuel as [|fuel IH]; intros l Hlen.
  - destruct l; [|cbn in Hlen; lia]. cbn. unfold ceil_div.
    symmetry. apply Nat.div_small. lia.
  - cbn [Proxies.batches_loop]. destruct l as [|x l].
    + cbn. unfold ceil_div. symmetry. apply Nat.div_small. lia.
    + cbn [length] in *. rewrite IH by (rewrite length_drop; cbn [length]; lia).
      rewrite length_drop. cbn [length].
      destruct (Nat.le_gt_cases (S (length l)) size) as [Hle|Hgt].
      * replace (S (length l) - size) with 0 by lia.
        rewrite (ceil_div_small (S (length l))) by lia. unfold ceil_div.
        rewrite Nat.div_small; lia.
      * now rewrite (ceil_div_step (S (length l))) by lia.
Qed.

(** X2. For a positive batch size the batch loop of [main] cuts the
    candidates into consecutive batches: concatenated in order they are
    the candidate list again, no batch is empty or longer than the batch
    size, and there are ceil(n / batchSize) of them for n candidates. *)
Theorem batches_partition (batchSize : nat) (allProxies : list jsstring) :
  0 < batchSize ->
  let batches := Proxies.proxyBatches batchSize allProxies in
  concat batches = allProxies /\
  Forall (fun batch => 0 < length batch <= batchSize) batches /\
  length batches = ceil_div (length allProxies) batchSize.
Proof.
  intros Hsize. unfold Proxies.proxyBatches. cbv zeta.
  auto using batches_loop_concat, batches_loop_sizes, batches_loop_length.
Qed.

Lemma batches_partition_witness :
  let allProxies := [js "10.0.0.1:1080"; js "10.0.0.2:1080"; js "10.0.0.3:1080"] in
  concat (Proxies.proxyBatches 2 allProxies) = allProxies /\
  length (Proxies.proxyBatches 2 allProxies) = 2.
Proof.
  intros allProxies.
  destruct (batches_partition 2 allProxies) as (Hcat & _ & Hlen); [lia|].
  split; [exact Hcat | exact Hlen].
Defined.

(** ** The proxy tests *)

Lemma succeeded_cons p works done :
  succeeded ((p, works) :: done) = (if works then [p] else []) ++ succeeded done.
Proof.
  unfold succeeded. rewrite filter_cons. cbn [snd].
  destruct works; [now rewrite decide_True | now rewrite decide_False].
Qed.

Lemma succeeded_app done1 done2 :
  succeeded (done1 ++ done2) = succeeded done1 ++ succeeded done2.
Proof. unfold succeeded. now rewrite filter_app, map_app. Qed.

Lemma test_done_spec limit f p works :
  Proxies.proxiesWorking f = length (Proxies.workingProxies f) ->
  let f' := Proxies.test_done limit f p works in
  Proxies.workingProxies f' =
    Proxies.workingProxies f ++
    take (limit - length (Proxies.workingProxies f)) (if works then [p] else []) /\
  Proxies.proxiesWorking f' = length (Proxies.workingProxies f').
Proof.
  intros Hcount. unfold Proxies.test_done.
  destruct works; cbn [andb].
  - destruct (Nat.ltb_spec (length (Proxies.workingProxies f)) limit) as [Hlt|Hge];
      cbn [Proxies.workingProxies Proxies.proxiesWorking].
    + replace (limit - length (Proxies.workingProxies f))
        with (S (limit - length (Proxies.workingProxies f) - 1)) by lia.
      cbn [take]. now rewrite take_nil.
    + replace (limit - length (Proxies.workingProxies f)) with 0 by lia.
      rewrite take_0, app_nil_r. auto.
  - rewrite take_nil, app_nil_r. auto.
Qed.

Lemma test_batch_spec limit done : forall f,
  Proxies.proxiesWorking f = length (Proxies.workingProxies f) ->
  let f' := Proxies.test_batch limit done f in
  Proxies.workingProxies f' =
    Proxies.workingProxies f ++
    take (limit - length (Proxies.workingProxies f)) (succeeded done) /\
  Proxies.proxiesWorking f' = length (Proxies.workingProxies f').
Proof.
  unfold Proxies.test_batch.
  induction done as [|[p works] done IH]; intros f Hcount; cbn [fold_left].
  - cbn. rewrite take_nil, app_nil_r. auto.
  - destruct (test_done_spec limit f p works Hcount) as [Hwp1 Hc1].
    destruct (IH _ Hc1) as [Hwp Hc]. cbv zeta in *.
    split; [rewrite Hwp|exact Hc].
    rewrite Hwp1, succeeded_cons, take_app, <- app_assoc, length_app, length_take.
    do 2 f_equal. destruct works; cbn [length]; f_equal; lia.
Qed.

Lemma test_batches_spec limit completions : forall f,
  Proxies.proxiesWorking f = length (Proxies.workingProxies f) ->
  let f' := Proxies.test_batches limit completions f in
  Proxies.workingProxies f' =
    Proxies.workingProxies f ++
    take (limit - length (Proxies.workingProxies f))
      (succeeded (concat completions)) /\
  Proxies.proxiesWorking f' = length (Proxies.workingProxies f').
Proof.
  induction completions as [|done rest IH]; intros f Hcount;
    cbn [Proxies.test_batches concat].
  - cbn. rewrite take_nil, app_nil_r. auto.
  - destruct (test_batch_spec limit done f Hcount) as [Hwp1 Hc1].
    cbv zeta in *. rewrite succeeded_app, take_app.
    destruct (Nat.leb_spec limit
                (length (Proxies.workingProxies (Proxies.test_batch limit done f))))
      as [Hfull|Hroom].
    + split; [|exact Hc1]. rewrite Hwp1 in Hfull |- *.
      rewrite length_app, length_take in Hfull.
      replace (limit - length (Proxies.workingProxies f) - length (succeeded done))
        with 0 by lia.
      now rewrite take_0, app_nil_r.
    + destruct (IH _ Hc1) as [Hwp Hc]. split; [rewrite Hwp|exact Hc].
      rewrite Hwp1, <- app_assoc, length_app, length_take.
      do 2 f_equal. f_equal. rewrite Hwp1, length_app, length_take in Hroom. lia.
Qed.

Lemma succeeded_sublist done : succeeded done `sublist_of` map fst done.
Proof.
  induction done as [|[p works] done IH]; [constructor|].
  rewrite succeeded_cons. cbn [map fst].
  destruct works; cbn [app]; now constructor.
Qed.

Lemma elem_of_succeeded p done : p ∈ succeeded done <-> (p, true) ∈ done.
Proof.
  induction done as [|[q works] done IH].
  - split; intros H; inversion H.
  - rewrite succeeded_cons, elem_of_app, IH, elem_of_cons.
    destruct works; cbn.
    + rewrite list_elem_of_singleton. split.
      * intros [->|H]; auto.
      * intros [[= ->]|H]; auto.
    + split.
      * intros [H|H]; [inversion H | auto].
      * intros [[=]|H]; auto.
Qed.

Lemma completes_Permutation batches completions :
  Proxies.completes batches completions ->
  Permutation (map fst (concat completions)) (concat batches).
Proof.
  unfold Proxies.completes. induction 1 as [|batch done bs ds Hp _ IH].
  - constructor.
  - cbn [concat]. rewrite map_app. now apply Permutation_app.
Qed.

(** X3. The test loop of [main] in [ass.js]. Let the candidates be
    distinct non-empty strings, cut into batches of 100, and let the tests
    of each batch complete in any order with any outcome. Then the working
    proxies are the first [maxBots * 2] proxies whose test succeeded, in
    order of completion; [stats.proxiesWorking] is their number; they are
    at most [maxBots * 2], pairwise distinct, non-empty, and each is a
    candidate whose test succeeded. *)
Theorem verified_proxies_characterised
    (maxBots : nat) (candidates : list jsstring)
    (completions : list (list (jsstring * bool))) :
  NoDup candidates -> [] ∉ candidates ->
  Proxies.completes (Proxies.proxyBatches 100 candidates) completions ->
  let found := Proxies.verify maxBots completions in
  let wp := Proxies.workingProxies found in
  wp = take (maxBots * 2) (succeeded (concat completions)) /\
  Proxies.proxiesWorking found = length wp /\
  length wp <= maxBots * 2 /\
  NoDup wp /\ ([] ∉ wp) /\
  (forall p, p ∈ wp -> p ∈ candidates /\ (p, true) ∈ concat completions).
Proof.
  intros Hnd Hne Hdone. cbv zeta. unfold Proxies.verify.
  destruct (test_batches_spec (maxBots * 2) completions
              {| Proxies.workingProxies := []; Proxies.proxiesWorking := 0 |}
              eq_refl) as [Hwp Hcount].
  cbv zeta in *. cbn [Proxies.workingProxies app length] in Hwp.
  rewrite Nat.sub_0_r in Hwp. rewrite Hcount, Hwp. clear Hwp Hcount.
  apply completes_Permutation in Hdone.
  unfold Proxies.proxyBatches in Hdone.
  rewrite batches_loop_concat in Hdone by lia.
  assert (Hsub : take (maxBots * 2) (succeeded (concat completions))
                 `sublist_of` map fst (concat completions)).
  { etransitivity; [apply sublist_take | apply succeeded_sublist]. }
  assert (Hin : forall p, p ∈ take (maxBots * 2) (succeeded (concat completions)) ->
                  p ∈ candidates /\ (p, true) ∈ concat completions).
  { intros p Hp. split.
    - rewrite <- Hdone. eapply elem_of_sublist; eauto.
    - apply elem_of_succeeded. eapply elem_of_sublist; [exact Hp|].
      apply sublist_take. }
  split; [reflexivity|]. split; [reflexivity|]. split.
  { rewrite length_take. lia. }
  split.
  { eapply sublist_NoDup; [|exact Hsub]. now rewrite Hdone. }
  split; [|exact Hin].
  intros H. apply Hne. now apply Hin.
Qed.

Lemma verified_proxies_characterised_witness :
  let a := js "10.0.0.1:1080" in
  let b := js "10.0.0.2:1080" in
  let c := js "10.0.0.3:1080" in
  Proxies.workingProxies
    (Proxies.verify 1 [[(b, true); (a, false); (c, true)]]) = [b; c] /\
  NoDup (Proxies.workingProxies
           (Proxies.verify 1 [[(b, true); (a, false); (c, true)]])).
Proof.
  intros a b c.
  assert (Hnd : NoDup [a; b; c])
    by (apply (bool_decide_unpack _); vm_compute; exact I).
  assert (Hne : [] ∉ [a; b; c])
    by (apply (bool_decide_unpack _); vm_compute; exact I).
  assert (Hdone : Proxies.completes (Proxies.proxyBatches 100 [a; b; c])
                    [[(b, true); (a, false); (c, true)]]).
  { repeat constructor. }
  destruct (verified_proxies_characterised 1 [a; b; c]
              [[(b, true); (a, false); (c, true)]] Hnd Hne Hdone)
    as (Hwp & _ & _ & Hnd' & _).
  split; [exact Hwp | exact Hnd'].
Defined.

(** ** The counters *)

Lemma advances_refl w : advances w w.
Proof. unfold advances. cbv zeta. repeat split; lia. Qed.

Lemma advances_trans w1 w2 w3 :
  advances w1 w2 -> advances w2 w3 -> advances w1 w3.
Proof.
  unfold advances. cbv zeta.
  intros ((?&?&?&?&?&?&?&?) & (?&?&?&?&?) & ? & ?)
         ((?&?&?&?&?&?&?&?) & (?&?&?&?&?) & ? & ?).
  repeat split; try lia; congruence.
Qed.

(** Settle [advances] for a handler without a loop: unfold the helpers,
    split on every lookup and test, compare the counters. *)
Ltac advances_now :=
  unfold advances; cbv zeta; ultra_unfold; case_lookups;
  rewrite ?length_app; cbn [length];
  repeat split; try reflexivity; lia.

Lemma advances_reply_register ref text w :
  advances w (Ultra.reply_register ref text w).
Proof. unfold Ultra.reply_register. advances_now. Qed.
Lemma advances_reply_login ref text w :
  advances w (Ultra.reply_login ref text w).
Proof. unfold Ultra.reply_login. advances_now. Qed.
Lemma advances_reply_authme ref text w :
  advances w (Ultra.reply_authme ref text w).
Proof. unfold Ultra.reply_authme. advances_now. Qed.
Lemma advances_reply_premium ref text w :
  advances w (Ultra.reply_premium ref text w).
Proof. unfold Ultra.reply_premium. advances_now. Qed.

Lemma advances_on_message ref text w : advances w (Ultra.on_message ref text w).
Proof.
  unfold Ultra.on_message. cbv zeta.
  eapply advances_trans; [|apply advances_reply_premium].
  eapply advances_trans; [|apply advances_reply_authme].
  eapply advances_trans; [|apply advances_reply_login].
  eapply advances_trans; [|apply advances_reply_register].
  advances_now.
Qed.

(** [attemptReconnect] after a termination that was just counted. *)
Lemma advances_attemptReconnect ref w x :
  advances w x ->
  Ultra.reconnects (Ultra.stats x) + Ultra.kicked (Ultra.stats w)
    + Ultra.timeout (Ultra.stats w) + 1 <=
  Ultra.reconnects (Ultra.stats w) + Ultra.kicked (Ultra.stats x)
    + Ultra.timeout (Ultra.stats x) ->
  advances w (Ultra.attemptReconnect ref x).
Proof.
  unfold advances. cbv zeta.
  intros ((?&?&?&?&?&?&?&?) & (?&?&?&?&?) & ? & ?) Hslack.
  unfold Ultra.attemptReconnect. ultra_unfold. case_lookups;
    repeat split; try assumption; lia.
Qed.

Lemma advances_listener ref ev w : advances w (Ultra.listener ref ev w).
Proof.
  destruct ev; cbn [Ultra.listener]; try apply advances_on_message.
  - unfold Ultra.on_login. advances_now.
  - unfold Ultra.on_spawn. advances_now.
  - unfold Ultra.on_kicked. cbv zeta. apply advances_attemptReconnect.
    + advances_now.
    + ultra_unfold. case_lookups; lia.
  - unfold Ultra.on_end. cbv zeta. apply advances_attemptReconnect.
    + advances_now.
    + ultra_unfold. case_lookups; lia.
  - unfold Ultra.on_error. advances_now.
Qed.

Lemma advances_actualConnect ref created w :
  advances w (Ultra.actualConnect ref created w).
Proof. unfold Ultra.actualConnect. advances_now. Qed.

Lemma advances_spawnBot e w : advances w (Ultra.spawnBot e w).
Proof.
  unfold Ultra.spawnBot, Ultra.new_UltraBot, Ultra.connect. advances_now.
Qed.

Lemma advances_fire n e w : advances w (Ultra.fire n e w).
Proof.
  unfold Ultra.fire.
  destruct (Ultra.pending w !! n) as [d|]; [|apply advances_refl].
  eapply advances_trans with (Ultra.set_pending (delete n (Ultra.pending w)) w);
    [advances_now|].
  destruct d.
  - apply advances_spawnBot.
  - destruct (Ultra.resolved e); [advances_now | apply advances_actualConnect].
  - apply advances_actualConnect.
  - advances_now.
  - unfold Ultra.reconnect_timer, Ultra.connect. advances_now.
  - apply advances_refl.
  - advances_now.
  - unfold Ultra.showFinalStats. advances_now.
Qed.

Lemma advances_forEach_connected act refs :
  (forall ref w, advances w (act ref w)) ->
  forall start,
    advances (snd start) (snd (Ultra.forEach_connected act refs start)).
Proof.
  intros Hact. unfold Ultra.forEach_connected.
  induction refs as [|ref refs IH]; intros [n w]; [apply advances_refl|].
  cbn [fold_left]. eapply advances_trans; [|apply IH].
  cbn [snd]. destruct (Ultra.objs w !! ref) as [this|]; [|apply advances_refl].
  destruct (Ultra.connected this); [apply Hact | apply advances_refl].
Qed.

Lemma advances_broadcast message w :
  advances w (snd (Ultra.broadcast message w)).
Proof.
  unfold Ultra.broadcast. destruct message as [|c message]; [apply advances_refl|].
  pose proof (advances_forEach_connected
                (fun ref => Ultra.sendChat ref (c :: message)) (Ultra.bots w)) as H.
  specialize (H ltac:(intros; unfold Ultra.sendChat; advances_now) (0, w)).
  destruct (Ultra.forEach_connected _ _ _) as [k w']. cbn [snd] in *.
  eapply advances_trans; [exact H|]. advances_now.
Qed.

Lemma advances_executeCommand command w :
  advances w (snd (Ultra.executeCommand command w)).
Proof.
  unfold Ultra.executeCommand.
  destruct command as [|c command]; [apply advances_refl|].
  pose proof (advances_forEach_connected
                (fun ref => Ultra.bot_executeCommand ref (c :: command))
                (Ultra.bots w)) as H.
  specialize (H ltac:(intros; unfold Ultra.bot_executeCommand; advances_now) (0, w)).
  destruct (Ultra.forEach_connected _ _ _) as [k w']. cbn [snd] in *.
  eapply advances_trans; [exact H|]. advances_now.
Qed.

Lemma advances_fold_disconnect refs : forall w,
  advances w (fold_left (fun w ref => Ultra.disconnect ref w) refs w).
Proof.
  induction refs as [|ref refs IH]; intros w; [apply advances_refl|].
  cbn [fold_left]. eapply advances_trans; [|apply IH].
  unfold Ultra.disconnect. advances_now.
Qed.

Lemma advances_stopAll w : advances w (Ultra.stopAll w).
Proof.
  unfold Ultra.stopAll. cbv zeta.
  eapply advances_trans
    with (fold_left (fun w ref => Ultra.disconnect ref w)
            (Ultra.bots (Ultra.set_isRunning false (Ultra.print Ultra.StoppingAll w)))
            (Ultra.set_isRunning false (Ultra.print Ultra.StoppingAll w))).
  - eapply advances_trans; [|apply advances_fold_disconnect]. advances_now.
  - advances_now.
Qed.

Lemma advances_step w ev : advances w (Ultra.step w ev).
Proof.
  destruct ev; cbn [Ultra.step].
  - destruct (Ultra.clients w !! h); [apply advances_listener | apply advances_refl].
  - apply advances_fire.
  - apply advances_broadcast.
  - apply advances_executeCommand.
  - apply advances_stopAll.
Qed.

Lemma advances_run evs : forall w, advances w (Ultra.run w evs).
Proof.
  unfold Ultra.run. induction evs as [|ev evs IH]; intros w; cbn [fold_left].
  - apply advances_refl.
  - eapply advances_trans; [apply advances_step | apply IH].
Qed.

(** X4. Whatever events follow, no counter of [stats] ever goes down or
    is reset, and the two proxy counts and the locals of [main] that
    [spawnBot] reads ([maxBots], [delay], [workingProxies]) are never
    written again. *)
Theorem counters_never_decrease (w : Ultra.World) (evs : list Ultra.Event) :
  let s := Ultra.stats w in
  let s' := Ultra.stats (Ultra.run w evs) in
  (Ultra.sent s <= Ultra.sent s' /\
   Ultra.joined s <= Ultra.joined s' /\
   Ultra.kicked s <= Ultra.kicked s' /\
   Ultra.timeout s <= Ultra.timeout s' /\
   Ultra.failed s <= Ultra.failed s' /\
   Ultra.messagesSent s <= Ultra.messagesSent s' /\
   Ultra.commandsExecuted s <= Ultra.commandsExecuted s' /\
   Ultra.reconnects s <= Ultra.reconnects s') /\
  Ultra.proxiesFound s' = Ultra.proxiesFound s /\
  Ultra.proxiesWorking s' = Ultra.proxiesWorking s /\
  Ultra.maxBots (Ultra.run w evs) = Ultra.maxBots w /\
  Ultra.delay (Ultra.run w evs) = Ultra.delay w /\
  Ultra.workingProxies (Ultra.run w evs) = Ultra.workingProxies w.
Proof.
  destruct (advances_run evs w) as (Hle & Hsame & _). cbv zeta in *.
  split; [exact Hle | exact Hsame].
Qed.

(** X5. In every state the program reaches, [stats.sent] is the number
    of protocol clients created so far: it counts the calls of
    [mineflayer.createBot] that returned, reconnections included, and
    nothing else. *)
Theorem sent_counts_created_clients (w : Ultra.World) :
  reachable w ->
  Ultra.sent (Ultra.stats w) = length (Ultra.clients w).
Proof.
  intros (maxBots & delay & allProxies & workingProxies & evs & ->).
  destruct (advances_run evs
              (Ultra.init maxBots delay allProxies workingProxies))
    as (_ & _ & Hsent & _).
  cbv zeta in Hsent. cbn in Hsent. lia.
Qed.

Lemma sent_counts_created_clients_witness :
  Ultra.sent (Ultra.stats ultra_capped) = length (Ultra.clients ultra_capped) /\
  length (Ultra.clients ultra_capped) = 4.
Proof.
  split; [|vm_compute; reflexivity].
  apply sent_counts_created_clients.
  unfold reachable, ultra_capped. do 5 eexists. reflexivity.
Defined.

(** X6. In every state the program reaches, [stats.reconnects] is at most
    [stats.kicked + stats.timeout]: a reconnect is only ever scheduled by
    a ['kicked'] or an ['end'] event that was counted. *)
Theorem reconnects_follow_terminations (w : Ultra.World) :
  reachable w ->
  Ultra.reconnects (Ultra.stats w) <=
  Ultra.kicked (Ultra.stats w) + Ultra.timeout (Ultra.stats w).
Proof.
  intros (maxBots & delay & allProxies & workingProxies & evs & ->).
  destruct (advances_run evs
              (Ultra.init maxBots delay allProxies workingProxies))
    as (_ & _ & _ & Hrec).
  cbv zeta in Hrec. cbn in Hrec. lia.
Qed.

Lemma reconnects_follow_terminations_witness :
  Ultra.reconnects (Ultra.stats ultra_capped) <=
  Ultra.kicked (Ultra.stats ultra_capped) + Ultra.timeout (Ultra.stats ultra_capped) /\
  Ultra.reconnects (Ultra.stats ultra_capped) = 3.
Proof.
  split; [|vm_compute; reflexivity].
  apply reconnects_follow_terminations.
  unfold reachable, ultra_capped. do 5 eexists. reflexivity.
Defined.

(** ** The pool and the store during the spawn phase *)

Create HintDb pool discriminated.

Lemma pool_ok_same w w' :
  Ultra.botIndex w' = Ultra.botIndex w ->
  Ultra.maxBots w' = Ultra.maxBots w ->
  Ultra.bots w' = Ultra.bots w ->
  Ultra.isRunning w' = Ultra.isRunning w ->
  Ultra.objs w' = Ultra.objs w ->
  Ultra.pending w' = Ultra.pending w ->
  pool_ok w -> pool_ok w'.
Proof. unfold pool_ok. intros -> -> -> -> -> ->. auto. Qed.

Lemma pool_ok_print l w : pool_ok w -> pool_ok (Ultra.print l w).
Proof. now apply pool_ok_same. Qed.
Lemma pool_ok_saveLog l w : pool_ok w -> pool_ok (Ultra.saveLog l w).
Proof. now apply pool_ok_same. Qed.
Lemma pool_ok_displayStats w : pool_ok w -> pool_ok (Ultra.displayStats w).
Proof. now apply pool_ok_same. Qed.
Lemma pool_ok_upd_stats f w : pool_ok w -> pool_ok (Ultra.upd_stats f w).
Proof. now apply pool_ok_same. Qed.
Lemma pool_ok_set_clients c w : pool_ok w -> pool_ok (Ultra.set_clients c w).
Proof. now apply pool_ok_same. Qed.
Lemma pool_ok_set_quits q w : pool_ok w -> pool_ok (Ultra.set_quits q w).
Proof. now apply pool_ok_same. Qed.
Lemma pool_ok_log ref m w : pool_ok w -> pool_ok (Ultra.log ref m w).
Proof. unfold Ultra.log. destruct (_ !! _); auto using pool_ok_print. Qed.
Lemma pool_ok_bot_chat ref text w : pool_ok w -> pool_ok (Ultra.bot_chat ref text w).
Proof.
  unfold Ultra.bot_chat. destruct (_ !! _) as [b|]; auto.
  destruct (Ultra.bot b); auto.
Qed.

Lemma pool_ok_defer d w :
  reconnect_delay_ok d -> pool_ok w -> pool_ok (Ultra.defer d w).
Proof.
  intros Hd (H1 & H2 & H3 & H4 & H5). unfold pool_ok, Ultra.defer. fields.
  repeat (split; [assumption|]). apply Forall_app. auto.
Qed.

Lemma pool_ok_delete n w :
  pool_ok w -> pool_ok (Ultra.set_pending (delete n (Ultra.pending w)) w).
Proof.
  intros (H1 & H2 & H3 & H4 & H5). unfold pool_ok. fields.
  repeat (split; [assumption|]). now apply Forall_delete.
Qed.

(** A field update keeps the pool when it keeps the bot filed. *)
Lemma pool_ok_upd_obj ref f w :
  (forall b, bot_filed ref b -> bot_filed ref (f b)) ->
  pool_ok w -> pool_ok (Ultra.upd_obj ref f w).
Proof.
  intros Hf (H1 & H2 & H3 & H4 & H5). unfold pool_ok, Ultra.upd_obj. fields.
  split; [assumption|]. split; [assumption|]. split; [|split; [|assumption]].
  - intros r. rewrite <- H3. unfold is_Some.
    destruct (decide (ref = r)) as [<-|Hne].
    + rewrite lookup_alter_eq. destruct (Ultra.objs w !! ref); cbn; split;
        intros [? ?]; eauto; discriminate.
    + now rewrite lookup_alter_ne.
  - intros r b Hb. apply lookup_alter_Some in Hb as [(<- & x & Hx & ->)|[_ Hb]].
    + apply Hf. exact (H4 _ _ Hx).
    + exact (H4 _ _ Hb).
Qed.

Lemma pool_ok_set_connected ref v w :
  pool_ok w -> pool_ok (Ultra.upd_obj ref (Ultra.set_connected v) w).
Proof. apply pool_ok_upd_obj. auto. Qed.
Lemma pool_ok_set_bot ref v w :
  pool_ok w -> pool_ok (Ultra.upd_obj ref (Ultra.set_bot v) w).
Proof. apply pool_ok_upd_obj. auto. Qed.
Lemma pool_ok_set_reconnectAttempts ref v w :
  pool_ok w -> pool_ok (Ultra.upd_obj ref (Ultra.set_reconnectAttempts v) w).
Proof. apply pool_ok_upd_obj. auto. Qed.
Lemma pool_ok_push_message ref text w :
  pool_ok w ->
  pool_ok (Ultra.upd_obj ref
             (fun this => Ultra.set_messages (Ultra.messages this ++ [text]) this) w).
Proof. apply pool_ok_upd_obj. auto. Qed.

Lemma pool_ok_connect ref w : pool_ok w -> pool_ok (Ultra.connect ref w).
Proof. unfold Ultra.connect. now apply pool_ok_defer. Qed.

#[local] Hint Resolve pool_ok_print pool_ok_saveLog pool_ok_displayStats
  pool_ok_upd_stats pool_ok_set_clients pool_ok_set_quits pool_ok_log
  pool_ok_bot_chat pool_ok_delete pool_ok_set_connected pool_ok_set_bot
  pool_ok_set_reconnectAttempts pool_ok_push_message pool_ok_connect : pool.
#[local] Hint Extern 1 (pool_ok (match ?x with _ => _ end)) =>
  destruct x eqn:? : pool.
#[local] Hint Extern 1 (pool_ok (if ?c then _ else _)) => destruct c eqn:? : pool.
#[local] Hint Extern 1 (pool_ok (Ultra.defer _ _)) =>
  apply pool_ok_defer; [exact I|] : pool.

Ltac pool_auto := auto 20 with pool.

Lemma pool_ok_attemptReconnect ref w :
  pool_ok w -> pool_ok (Ultra.attemptReconnect ref w).
Proof.
  intros Hok. unfold Ultra.attemptReconnect.
  destruct (Ultra.objs w !! ref) as [this|] eqn:Hobj; [|assumption].
  destruct (Ultra.maxReconnects this <=? Ultra.reconnectAttempts this) eqn:Hcap;
    [pool_auto|].
  apply Nat.leb_gt in Hcap.
  assert (Hmax : Ultra.maxReconnects this = 3).
  { destruct Hok as (_ & _ & _ & H4 & _). exact (proj2 (H4 _ _ Hobj)). }
  cbv zeta. apply pool_ok_defer; [|pool_auto].
  cbn [reconnect_delay_ok]. rewrite Hmax in Hcap.
  destruct (Ultra.reconnectAttempts this) as [|[|[|a]]]; [| | |lia];
    vm_compute; auto.
Qed.

#[local] Hint Resolve pool_ok_attemptReconnect : pool.

Lemma pool_ok_listener ref ev w : pool_ok w -> pool_ok (Ultra.listener ref ev w).
Proof.
  intros Hok. destruct ev; cbn [Ultra.listener];
    unfold Ultra.on_login, Ultra.on_spawn, Ultra.on_kicked, Ultra.on_end,
      Ultra.on_error, Ultra.on_message, Ultra.reply_register,
      Ultra.reply_login, Ultra.reply_authme, Ultra.reply_premium;
    pool_auto.
Qed.

Lemma pool_ok_actualConnect ref created w :
  pool_ok w -> pool_ok (Ultra.actualConnect ref created w).
Proof. intros Hok. unfold Ultra.actualConnect. pool_auto. Qed.

#[local] Hint Resolve pool_ok_actualConnect : pool.

Lemma pool_ok_spawnBot e w : pool_ok w -> pool_ok (Ultra.spawnBot e w).
Proof.
  intros Hok. unfold Ultra.spawnBot.
  destruct (negb (Ultra.isRunning w) || (Ultra.maxBots w <=? Ultra.botIndex w))
    eqn:Hstop; [pool_auto|].
  apply orb_false_elim in Hstop as [Hrun Hroom].
  apply negb_false_iff in Hrun. apply Nat.leb_gt in Hroom.
  assert (Hnew : pool_ok
            (Ultra.set_botIndex (Ultra.botIndex w + 1)
               (Ultra.set_bots (Ultra.bots w ++ [Ultra.botIndex w + 1])
                  (Ultra.new_UltraBot (Ultra.gen_username e)
                     (Ultra.assign_proxy (Ultra.workingProxies w) (Ultra.botIndex w))
                     (Ultra.botIndex w + 1) (Ultra.gen_joinDelay e) w)))).
  { destruct Hok as (H1 & H2 & H3 & H4 & H5).
    unfold pool_ok, Ultra.new_UltraBot, Ultra.connect, Ultra.defer. fields.
    rewrite Hrun in *. split; [lia|]. split; [|split; [|split]].
    - rewrite H2, Nat.add_1_r, seq_S. reflexivity.
    - intros r. rewrite lookup_insert_is_Some, H3.
      destruct (decide (Ultra.botIndex w + 1 = r)); split; lia.
    - apply map_Forall_insert_2; [|assumption]. split; reflexivity.
    - apply Forall_app. split; [assumption|]. repeat constructor. }
  cbv zeta. fields. pool_auto.
Qed.

Lemma pool_ok_forEach_connected act refs :
  (forall ref w, pool_ok w -> pool_ok (act ref w)) ->
  forall start, pool_ok (snd start) ->
  pool_ok (snd (Ultra.forEach_connected act refs start)).
Proof.
  intros Hact. unfold Ultra.forEach_connected.
  induction refs as [|ref refs IH]; intros [n w] Hok; [assumption|].
  cbn [fold_left]. apply IH.
  destruct (Ultra.objs w !! ref) as [this|]; [|assumption].
  destruct (Ultra.connected this); [apply Hact|]; assumption.
Qed.

Lemma pool_ok_broadcast message w :
  pool_ok w -> pool_ok (snd (Ultra.broadcast message w)).
Proof.
  intros Hok. unfold Ultra.broadcast. destruct message as [|c message]; [assumption|].
  pose proof (pool_ok_forEach_connected
                (fun ref => Ultra.sendChat ref (c :: message)) (Ultra.bots w)) as H.
  specialize (H ltac:(intros; unfold Ultra.sendChat; pool_auto) (0, w) Hok).
  destruct (Ultra.forEach_connected _ _ _). cbn [snd] in *. pool_auto.
Qed.

Lemma pool_ok_executeCommand command w :
  pool_ok w -> pool_ok (snd (Ultra.executeCommand command w)).
Proof.
  intros Hok. unfold Ultra.executeCommand.
  destruct command as [|c command]; [assumption|].
  pose proof (pool_ok_forEach_connected
                (fun ref => Ultra.bot_executeCommand ref (c :: command))
                (Ultra.bots w)) as H.
  specialize (H ltac:(intros; unfold Ultra.bot_executeCommand; pool_auto) (0, w) Hok).
  destruct (Ultra.forEach_connected _ _ _). cbn [snd] in *. pool_auto.
Qed.

Lemma pool_ok_fold_disconnect refs : forall w,
  pool_ok w -> pool_ok (fold_left (fun w ref => Ultra.disconnect ref w) refs w).
Proof.
  induction refs as [|ref refs IH]; intros w Hok; [assumption|].
  cbn [fold_left]. apply IH. unfold Ultra.disconnect. pool_auto.
Qed.

Lemma fold_disconnect_frame refs : forall w,
  let w' := fold_left (fun w ref => Ultra.disconnect ref w) refs w in
  Ultra.isRunning w' = Ultra.isRunning w /\ Ultra.bots w' = Ultra.bots w /\
  Ultra.botIndex w' = Ultra.botIndex w.
Proof.
  induction refs as [|ref refs IH]; intros w; cbv zeta; [auto|].
  cbn [fold_left]. destruct (IH (Ultra.disconnect ref w)) as (-> & -> & ->).
  unfold Ultra.disconnect. ultra_unfold. case_lookups; auto.
Qed.

(** [stopAll] clears the flag before it disconnects the members; the
    store is the same as if it were cleared after, and the pool ends up
    empty. *)
Lemma pool_ok_stopAll w : pool_ok w -> pool_ok (Ultra.stopAll w).
Proof.
  intros Hok. unfold Ultra.stopAll. cbv zeta. apply pool_ok_defer; [exact I|].
  set (w1 := Ultra.print Ultra.StoppingAll w).
  assert (Hw1 : pool_ok w1) by (subst w1; pool_auto).
  change (Ultra.bots (Ultra.set_isRunning false w1)) with (Ultra.bots w1).
  pose proof (pool_ok_fold_disconnect (Ultra.bots w1) w1 Hw1) as Hfold.
  assert (Heq : forall refs w0,
            fold_left (fun w ref => Ultra.disconnect ref w) refs
              (Ultra.set_isRunning false w0) =
            Ultra.set_isRunning false
              (fold_left (fun w ref => Ultra.disconnect ref w) refs w0)).
  { induction refs as [|r refs IH]; intros w0; [reflexivity|].
    cbn [fold_left]. rewrite <- IH. f_equal.
    unfold Ultra.disconnect. ultra_unfold. fields.
    destruct (Ultra.objs w0 !! r) as [b|]; [|reflexivity].
    destruct (Ultra.bot b); reflexivity. }
  rewrite Heq.
  destruct Hfold as (H1 & _ & H3 & H4 & H5).
  unfold pool_ok. fields. auto.
Qed.

Lemma pool_ok_fire n e w : pool_ok w -> pool_ok (Ultra.fire n e w).
Proof.
  intros Hok. unfold Ultra.fire.
  destruct (Ultra.pending w !! n) as [d|]; [|assumption].
  assert (H : pool_ok (Ultra.set_pending (delete n (Ultra.pending w)) w))
    by auto with pool.
  destruct d; unfold Ultra.reconnect_timer, Ultra.showFinalStats;
    auto using pool_ok_spawnBot; pool_auto.
Qed.

Lemma pool_ok_step w ev : pool_ok w -> pool_ok (Ultra.step w ev).
Proof.
  intros Hok. destruct ev; cbn [Ultra.step];
    auto using pool_ok_fire, pool_ok_broadcast, pool_ok_executeCommand,
      pool_ok_stopAll.
  destruct (Ultra.clients w !! h); auto using pool_ok_listener.
Qed.

Lemma pool_ok_run evs : forall w, pool_ok w -> pool_ok (Ultra.run w evs).
Proof.
  unfold Ultra.run.
  induction evs as [|ev evs IH]; intros w Hok; cbn [fold_left];
    auto using pool_ok_step.
Qed.

Lemma pool_ok_init maxBots delay allProxies workingProxies :
  pool_ok (Ultra.init maxBots delay allProxies workingProxies).
Proof.
  unfold pool_ok, Ultra.init. fields. split; [lia|]. split; [reflexivity|].
  split; [|split].
  - intros ref. rewrite lookup_empty. split; [intros [? ?]; discriminate | lia].
  - apply map_Forall_empty.
  - repeat constructor.
Qed.

Lemma pool_ok_reachable w : reachable w -> pool_ok w.
Proof.
  intros (maxBots & delay & allProxies & workingProxies & evs & ->).
  apply pool_ok_run, pool_ok_init.
Qed.

(** ** Connections asked for and connections paid for *)

Lemma count_of_app {A} (f : A -> bool) p q :
  count_of f (p ++ q) = count_of f p + count_of f q.
Proof. unfold count_of. now rewrite filter_app, length_app. Qed.

Lemma count_of_singleton {A} (f : A -> bool) x :
  count_of f [x] = if f x then 1 else 0.
Proof.
  unfold count_of. rewrite filter_cons, filter_nil.
  destruct (f x); [now rewrite decide_True | now rewrite decide_False].
Qed.

Lemma count_of_delete {A} (f : A -> bool) n p x :
  p !! n = Some x ->
  count_of f p = count_of f (delete n p) + (if f x then 1 else 0).
Proof.
  intros Hn. rewrite <- (take_drop_middle p n x Hn) at 1.
  rewrite delete_take_drop, !count_of_app.
  change (x :: drop (S n) p) with ([x] ++ drop (S n) p).
  rewrite count_of_app, count_of_singleton. lia.
Qed.

Lemma attempts_covered_refl w : attempts_covered w w.
Proof. unfold attempts_covered. lia. Qed.

Lemma attempts_covered_trans w1 w2 w3 :
  attempts_covered w1 w2 -> attempts_covered w2 w3 -> attempts_covered w1 w3.
Proof. unfold attempts_covered. lia. Qed.

Ltac attempts_now :=
  unfold attempts_covered, connections_due; ultra_unfold; case_lookups;
  rewrite ?length_app, ?count_of_app, ?count_of_singleton;
  cbn [length connection_due]; lia.

Lemma attempts_covered_reply_register ref text w :
  attempts_covered w (Ultra.reply_register ref text w).
Proof. unfold Ultra.reply_register. attempts_now. Qed.
Lemma attempts_covered_reply_login ref text w :
  attempts_covered w (Ultra.reply_login ref text w).
Proof. unfold Ultra.reply_login. attempts_now. Qed.
Lemma attempts_covered_reply_authme ref text w :
  attempts_covered w (Ultra.reply_authme ref text w).
Proof. unfold Ultra.reply_authme. attempts_now. Qed.
Lemma attempts_covered_reply_premium ref text w :
  attempts_covered w (Ultra.reply_premium ref text w).
Proof. unfold Ultra.reply_premium. attempts_now. Qed.

Lemma attempts_covered_attemptReconnect ref w :
  attempts_covered w (Ultra.attemptReconnect ref w).
Proof. unfold Ultra.attemptReconnect. attempts_now. Qed.

Lemma attempts_covered_listener ref ev w :
  attempts_covered w (Ultra.listener ref ev w).
Proof.
  destruct ev; cbn [Ultra.listener].
  - unfold Ultra.on_login. attempts_now.
  - unfold Ultra.on_spawn. attempts_now.
  - unfold Ultra.on_kicked. cbv zeta.
    eapply attempts_covered_trans; [|apply attempts_covered_attemptReconnect].
    attempts_now.
  - unfold Ultra.on_end. cbv zeta.
    eapply attempts_covered_trans; [|apply attempts_covered_attemptReconnect].
    attempts_now.
  - unfold Ultra.on_error. attempts_now.
  - unfold Ultra.on_message. cbv zeta.
    eapply attempts_covered_trans; [|apply attempts_covered_reply_premium].
    eapply attempts_covered_trans; [|apply attempts_covered_reply_authme].
    eapply attempts_covered_trans; [|apply attempts_covered_reply_login].
    eapply attempts_covered_trans; [|apply attempts_covered_reply_register].
    attempts_now.
Qed.

(** A callback that was due is used up by the connection it makes. *)
Lemma attempts_covered_fire n e w : attempts_covered w (Ultra.fire n e w).
Proof.
  unfold Ultra.fire.
  destruct (Ultra.pending w !! n) as [d|] eqn:Hn; [|apply attempts_covered_refl].
  pose proof (count_of_delete connection_due _ _ _ Hn) as Hdue.
  unfold attempts_covered, connections_due. rewrite Hdue. clear Hdue Hn.
  destruct d; cbn [connection_due];
    unfold Ultra.reconnect_timer, Ultra.spawnBot, Ultra.new_UltraBot,
      Ultra.connect, Ultra.actualConnect, Ultra.showFinalStats;
    ultra_unfold; case_lookups;
    rewrite ?length_app, ?count_of_app, ?count_of_singleton;
    cbn [length connection_due]; lia.
Qed.

Lemma attempts_covered_forEach_connected act refs :
  (forall ref w, attempts_covered w (act ref w)) ->
  forall start,
    attempts_covered (snd start) (snd (Ultra.forEach_connected act refs start)).
Proof.
  intros Hact. unfold Ultra.forEach_connected.
  induction refs as [|ref refs IH]; intros [n w]; [apply attempts_covered_refl|].
  cbn [fold_left]. eapply attempts_covered_trans; [|apply IH].
  cbn [snd]. destruct (Ultra.objs w !! ref) as [this|];
    [|apply attempts_covered_refl].
  destruct (Ultra.connected this); [apply Hact | apply attempts_covered_refl].
Qed.

Lemma attempts_covered_broadcast message w :
  attempts_covered w (snd (Ultra.broadcast message w)).
Proof.
  unfold Ultra.broadcast.
  destruct message as [|c message]; [apply attempts_covered_refl|].
  pose proof (attempts_covered_forEach_connected
                (fun ref => Ultra.sendChat ref (c :: message)) (Ultra.bots w)) as H.
  specialize (H ltac:(intros; unfold Ultra.sendChat; attempts_now) (0, w)).
  destruct (Ultra.forEach_connected _ _ _) as [k w']. cbn [snd] in *.
  eapply attempts_covered_trans; [exact H|]. attempts_now.
Qed.

Lemma attempts_covered_executeCommand command w :
  attempts_covered w (snd (Ultra.executeCommand command w)).
Proof.
  unfold Ultra.executeCommand.
  destruct command as [|c command]; [apply attempts_covered_refl|].
  pose proof (attempts_covered_forEach_connected
                (fun ref => Ultra.bot_executeCommand ref (c :: command))
                (Ultra.bots w)) as H.
  specialize (H ltac:(intros; unfold Ultra.bot_executeCommand; attempts_now) (0, w)).
  destruct (Ultra.forEach_connected _ _ _) as [k w']. cbn [snd] in *.
  eapply attempts_covered_trans; [exact H|]. attempts_now.
Qed.

Lemma attempts_covered_fold_disconnect refs : forall w,
  attempts_covered w (fold_left (fun w ref => Ultra.disconnect ref w) refs w).
Proof.
  induction refs as [|ref refs IH]; intros w; [apply attempts_covered_refl|].
  cbn [fold_left]. eapply attempts_covered_trans; [|apply IH].
  unfold Ultra.disconnect. attempts_now.
Qed.

Lemma attempts_covered_stopAll w : attempts_covered w (Ultra.stopAll w).
Proof.
  unfold Ultra.stopAll. cbv zeta.
  eapply attempts_covered_trans
    with (fold_left (fun w ref => Ultra.disconnect ref w)
            (Ultra.bots (Ultra.set_isRunning false (Ultra.print Ultra.StoppingAll w)))
            (Ultra.set_isRunning false (Ultra.print Ultra.StoppingAll w))).
  - eapply attempts_covered_trans; [|apply attempts_covered_fold_disconnect].
    attempts_now.
  - attempts_now.
Qed.

Lemma attempts_covered_step w ev : attempts_covered w (Ultra.step w ev).
Proof.
  destruct ev; cbn [Ultra.step].
  - destruct (Ultra.clients w !! h);
      [apply attempts_covered_listener | apply attempts_covered_refl].
  - apply attempts_covered_fire.
  - apply attempts_covered_broadcast.
  - apply attempts_covered_executeCommand.
  - apply attempts_covered_stopAll.
Qed.

Lemma attempts_covered_run evs : forall w, attempts_covered w (Ultra.run w evs).
Proof.
  unfold Ultra.run. induction evs as [|ev evs IH]; intros w; cbn [fold_left].
  - apply attempts_covered_refl.
  - eapply attempts_covered_trans; [apply attempts_covered_step | apply IH].
Qed.

(** ** The end of the spawn phase *)

(** Read the tests on [botIndex] and [maxBots] as inequalities. *)
Ltac read_tests :=
  repeat match goal with
  | H : (_ <=? _) = true |- _ => rewrite Nat.leb_le in H
  | H : (_ <=? _) = false |- _ => rewrite Nat.leb_gt in H
  | H : (_ <? _) = true |- _ => rewrite Nat.ltb_lt in H
  | H : (_ <? _) = false |- _ => rewrite Nat.ltb_ge in H
  end.

Ltac spawn_now :=
  unfold spawn_ok in *; ultra_unfold; case_lookups; read_tests;
  rewrite ?count_of_app, ?count_of_singleton;
  cbn [is_spawn_timer is_help_timer ready_line]; lia.

Lemma spawn_ok_reply_register ref text w :
  spawn_ok w -> spawn_ok (Ultra.reply_register ref text w).
Proof. intros H. unfold Ultra.reply_register. spawn_now. Qed.
Lemma spawn_ok_reply_login ref text w :
  spawn_ok w -> spawn_ok (Ultra.reply_login ref text w).
Proof. intros H. unfold Ultra.reply_login. spawn_now. Qed.
Lemma spawn_ok_reply_authme ref text w :
  spawn_ok w -> spawn_ok (Ultra.reply_authme ref text w).
Proof. intros H. unfold Ultra.reply_authme. spawn_now. Qed.
Lemma spawn_ok_reply_premium ref text w :
  spawn_ok w -> spawn_ok (Ultra.reply_premium ref text w).
Proof. intros H. unfold Ultra.reply_premium. spawn_now. Qed.

Lemma spawn_ok_attemptReconnect ref w :
  spawn_ok w -> spawn_ok (Ultra.attemptReconnect ref w).
Proof. intros H. unfold Ultra.attemptReconnect. spawn_now. Qed.

Lemma spawn_ok_listener ref ev w :
  spawn_ok w -> spawn_ok (Ultra.listener ref ev w).
Proof.
  intros H. destruct ev; cbn [Ultra.listener].
  - unfold Ultra.on_login. spawn_now.
  - unfold Ultra.on_spawn. spawn_now.
  - unfold Ultra.on_kicked. cbv zeta. apply spawn_ok_attemptReconnect. spawn_now.
  - unfold Ultra.on_end. cbv zeta. apply spawn_ok_attemptReconnect. spawn_now.
  - unfold Ultra.on_error. spawn_now.
  - unfold Ultra.on_message. cbv zeta.
    apply spawn_ok_reply_premium, spawn_ok_reply_authme,
      spawn_ok_reply_login, spawn_ok_reply_register.
    spawn_now.
Qed.

(** The spawn timer that fires is the only one: [spawnBot] runs with
    [botIndex < maxBots], and sets the next timer only if the bot it made
    was not the last. *)
Lemma spawn_ok_fire n e w : spawn_ok w -> spawn_ok (Ultra.fire n e w).
Proof.
  intros H. unfold Ultra.fire.
  destruct (Ultra.pending w !! n) as [d|] eqn:Hn; [|assumption].
  pose proof (count_of_delete is_spawn_timer _ _ _ Hn) as Hspawn.
  pose proof (count_of_delete is_help_timer _ _ _ Hn) as Hhelp.
  clear Hn.
  destruct d; cbn [is_spawn_timer is_help_timer] in Hspawn, Hhelp;
    unfold Ultra.reconnect_timer, Ultra.spawnBot, Ultra.new_UltraBot,
      Ultra.connect, Ultra.actualConnect, Ultra.showFinalStats;
    spawn_now.
Qed.

Lemma spawn_ok_forEach_connected act refs :
  (forall ref w, spawn_ok w -> spawn_ok (act ref w)) ->
  forall start, spawn_ok (snd start) ->
  spawn_ok (snd (Ultra.forEach_connected act refs start)).
Proof.
  intros Hact. unfold Ultra.forEach_connected.
  induction refs as [|ref refs IH]; intros [n w] Hok; [assumption|].
  cbn [fold_left]. apply IH.
  destruct (Ultra.objs w !! ref) as [this|]; [|assumption].
  destruct (Ultra.connected this); [apply Hact|]; assumption.
Qed.

Lemma spawn_ok_broadcast message w :
  spawn_ok w -> spawn_ok (snd (Ultra.broadcast message w)).
Proof.
  intros Hok. unfold Ultra.broadcast. destruct message as [|c message]; [assumption|].
  pose proof (spawn_ok_forEach_connected
                (fun ref => Ultra.sendChat ref (c :: message)) (Ultra.bots w)) as H.
  specialize (H ltac:(intros ? ? ?; unfold Ultra.sendChat; spawn_now) (0, w) Hok).
  destruct (Ultra.forEach_connected _ _ _). cbn [snd] in *. spawn_now.
Qed.

Lemma spawn_ok_executeCommand command w :
  spawn_ok w -> spawn_ok (snd (Ultra.executeCommand command w)).
Proof.
  intros Hok. unfold Ultra.executeCommand.
  destruct command as [|c command]; [assumption|].
  pose proof (spawn_ok_forEach_connected
                (fun ref => Ultra.bot_executeCommand ref (c :: command))
                (Ultra.bots w)) as H.
  specialize (H ltac:(intros ? ? ?; unfold Ultra.bot_executeCommand; spawn_now)
                (0, w) Hok).
  destruct (Ultra.forEach_connected _ _ _). cbn [snd] in *. spawn_now.
Qed.

Lemma spawn_ok_fold_disconnect refs : forall w,
  spawn_ok w -> spawn_ok (fold_left (fun w ref => Ultra.disconnect ref w) refs w).
Proof.
  induction refs as [|ref refs IH]; intros w Hok; [assumption|].
  cbn [fold_left]. apply IH. unfold Ultra.disconnect. spawn_now.
Qed.

Lemma spawn_ok_stopAll w : spawn_ok w -> spawn_ok (Ultra.stopAll w).
Proof.
  intros Hok. unfold Ultra.stopAll. cbv zeta.
  assert (H : spawn_ok
            (fold_left (fun w ref => Ultra.disconnect ref w)
               (Ultra.bots (Ultra.set_isRunning false (Ultra.print Ultra.StoppingAll w)))
               (Ultra.set_isRunning false (Ultra.print Ultra.StoppingAll w)))).
  { apply spawn_ok_fold_disconnect. spawn_now. }
  spawn_now.
Qed.

Lemma spawn_ok_step w ev : spawn_ok w -> spawn_ok (Ultra.step w ev).
Proof.
  intros Hok. destruct ev; cbn [Ultra.step];
    auto using spawn_ok_fire, spawn_ok_broadcast, spawn_ok_executeCommand,
      spawn_ok_stopAll.
  destruct (Ultra.clients w !! h); auto using spawn_ok_listener.
Qed.

Lemma spawn_ok_run evs : forall w, spawn_ok w -> spawn_ok (Ultra.run w evs).
Proof.
  unfold Ultra.run.
  induction evs as [|ev evs IH]; intros w Hok; cbn [fold_left];
    auto using spawn_ok_step.
Qed.

Lemma count_of_none {A} (f : A -> bool) (l : list A) :
  count_of f l = 0 -> forall x, x ∈ l -> f x = false.
Proof.
  unfold count_of. intros H x Hx.
  destruct (f x) eqn:Hfx; [|reflexivity].
  assert (Hin : x ∈ filter (fun x => f x = true) l)
    by (apply list_elem_of_filter; auto).
  destruct (filter _ l); [inversion Hin | discriminate].
Qed.

(** X7. With at least one bot to spawn, the program never prints
    ["All bots spawned! Ready for commands."] nor the quick help that
    follows it: [spawnBot] sets the next spawn timer only while bots are
    left to spawn, so it is never called again once the last bot is made,
    and the branch that prints these lines is never taken. *)
Theorem all_spawned_never_printed
    (maxBots : nat) (delay : N) (allProxies workingProxies : list jsstring)
    (evs : list Ultra.Event) :
  0 < maxBots ->
  let w := Ultra.run (Ultra.init maxBots delay allProxies workingProxies) evs in
  (Ultra.AllSpawned ∉ Ultra.console w) /\
  (Ultra.QuickHelp ∉ Ultra.console w) /\
  (Ultra.QuickHelpTimer ∉ Ultra.pending w).
Proof.
  intros Hpos. cbv zeta.
  assert (Hok : spawn_ok (Ultra.run (Ultra.init maxBots delay allProxies workingProxies) evs)).
  { apply spawn_ok_run. unfold spawn_ok, Ultra.init. fields.
    rewrite !count_of_singleton. cbn. lia. }
  destruct Hok as (_ & _ & Hhelp & Hready).
  split; [|split]; intros Hin.
  - now apply (count_of_none _ _ Hready) in Hin.
  - now apply (count_of_none _ _ Hready) in Hin.
  - now apply (count_of_none _ _ Hhelp) in Hin.
Qed.

Lemma all_spawned_never_printed_witness :
  (Ultra.AllSpawned ∉ Ultra.console ultra_pool3) /\
  Ultra.botIndex ultra_pool3 = Ultra.maxBots ultra_pool3.
Proof.
  split; [|vm_compute; reflexivity].
  apply (all_spawned_never_printed 3 3000 [] []). lia.
Defined.

(** ** What the spawn phase and the reconnections add up to *)

(** X8. In every state the program reaches, the connections opened so
    far ([stats.sent]) and the connections still to come (pings in
    flight, join timers, reconnect timers) are together at most the
    number of bots spawned plus [stats.reconnects]: every connection
    beyond the first of a bot is a counted reconnect. And when
    [config.maxBots] is a natural number, which is what [parseInt] gives
    for an argument written in digits and what the states reached from
    [Ultra.init] have, no more than [maxBots] bots are spawned. (For an
    argument that [parseInt] reads as [NaN] one bot is spawned, and for a
    negative one none; these are not among the states of [Ultra.init].) *)
Theorem connections_are_spawns_and_reconnects (w : Ultra.World) :
  reachable w ->
  Ultra.sent (Ultra.stats w) + connections_due (Ultra.pending w) <=
    Ultra.botIndex w + Ultra.reconnects (Ultra.stats w) /\
  Ultra.botIndex w <= Ultra.maxBots w.
Proof.
  intros Hreach. split; [|exact (proj1 (pool_ok_reachable w Hreach))].
  destruct Hreach as (maxBots & delay & allProxies & workingProxies & evs & ->).
  pose proof (attempts_covered_run evs
                (Ultra.init maxBots delay allProxies workingProxies)) as Hatt.
  destruct (advances_run evs
              (Ultra.init maxBots delay allProxies workingProxies))
    as (_ & _ & Hsent & _).
  unfold attempts_covered, connections_due in *. cbv zeta in Hsent.
  set (w := Ultra.run _ evs) in *.
  unfold Ultra.init in Hatt, Hsent. fields.
  rewrite count_of_singleton in Hatt. cbn in Hatt, Hsent. lia.
Qed.

Lemma connections_are_spawns_and_reconnects_witness :
  Ultra.sent (Ultra.stats ultra_capped) + connections_due (Ultra.pending ultra_capped)
    <= Ultra.botIndex ultra_capped + Ultra.reconnects (Ultra.stats ultra_capped) /\
  Ultra.sent (Ultra.stats ultra_capped) = 4 /\
  Ultra.botIndex ultra_capped = 1.
Proof.
  assert (Hreach : reachable ultra_capped).
  { unfold reachable, ultra_capped. do 5 eexists. reflexivity. }
  destruct (connections_are_spawns_and_reconnects ultra_capped Hreach) as [H _].
  split; [exact H|]. vm_compute. split; reflexivity.
Defined.

(** X9. In every state the program reaches, a pending reconnect timer
    has a delay of 5000, 10000 or 15000 ms: [attemptReconnect] runs with
    at most three attempts, so the ceiling of 30000 ms in
    [Math.min(5000 * this.reconnectAttempts, 30000)] is never reached. *)
Theorem reconnect_delay_below_ceiling
    (w : Ultra.World) (n ref : nat) (delay : N) :
  reachable w ->
  Ultra.pending w !! n = Some (Ultra.ReconnectTimer ref delay) ->
  delay = 5000%N \/ delay = 10000%N \/ delay = 15000%N.
Proof.
  intros Hreach Hn. apply pool_ok_reachable in Hreach.
  destruct Hreach as (_ & _ & _ & _ & Hdelays).
  rewrite Forall_lookup in Hdelays. exact (Hdelays _ _ Hn).
Qed.

Lemma reconnect_delay_below_ceiling_witness :
  let w := Ultra.run ultra_one_active [Ultra.Emit 0 (Ultra.End None)] in
  Ultra.pending w !! 0 = Some (Ultra.ReconnectTimer 1 5000) /\
  (5000 = 5000 \/ 5000 = 10000 \/ 5000 = 15000)%N.
Proof.
  intros w.
  assert (Hreach : reachable w).
  { unfold reachable, w, ultra_one_active. do 4 eexists.
    exists ([Ultra.Fire 0 env_rejected; Ultra.Fire 0 env_rejected;
             Ultra.Emit 0 Ultra.Login] ++ [Ultra.Emit 0 (Ultra.End None)]).
    unfold Ultra.run. now rewrite fold_left_app. }
  assert (Hn : Ultra.pending w !! 0 = Some (Ultra.ReconnectTimer 1 5000))
    by (vm_compute; reflexivity).
  split; [exact Hn|].
  exact (reconnect_delay_below_ceiling w 0 1 5000 Hreach Hn).
Defined.

(** X10. In every state the program reaches, the store holds exactly the
    bots 1 to [botIndex], each under its own [index] and with a reconnect
    cap of 3; while [isRunning] is set the pool lists them in spawn
    order, without gap or repetition, and once it is cleared the pool is
    empty. *)
Theorem pool_in_spawn_order (w : Ultra.World) :
  reachable w ->
  Ultra.bots w = (if Ultra.isRunning w then seq 1 (Ultra.botIndex w) else []) /\
  (forall ref, is_Some (Ultra.objs w !! ref) <-> 1 <= ref <= Ultra.botIndex w) /\
  (forall ref this, Ultra.objs w !! ref = Some this ->
     Ultra.index this = ref /\ Ultra.maxReconnects this = 3).
Proof.
  intros Hreach. apply pool_ok_reachable in Hreach.
  destruct Hreach as (_ & Hbots & Hkeys & Hfiled & _).
  split; [exact Hbots|]. split; [exact Hkeys|].
  intros ref this Hobj. exact (Hfiled _ _ Hobj).
Qed.

Lemma pool_in_spawn_order_witness :
  Ultra.bots ultra_pool3 = [1; 2; 3] /\ Ultra.isRunning ultra_pool3 = true.
Proof.
  assert (Hreach : reachable ultra_pool3).
  { unfold reachable, ultra_pool3. do 5 eexists. reflexivity. }
  destruct (pool_in_spawn_order ultra_pool3 Hreach) as (Hbots & _).
  split; [|vm_compute; reflexivity].
  rewrite Hbots. vm_compute. reflexivity.
Defined.

(** ** What a bot keeps *)

Create HintDb kept discriminated.

Lemma kept_refl b : kept b b.
Proof. unfold kept. repeat split; reflexivity. Qed.

Section StillThere.
Variable ref : nat.
Variable b : Ultra.UltraBot.

Lemma still_there_same w w' :
  Ultra.botIndex w' = Ultra.botIndex w ->
  Ultra.objs w' = Ultra.objs w ->
  still_there ref b w -> still_there ref b w'.
Proof. unfold still_there. intros -> ->. auto. Qed.

Lemma still_there_print l w :
  still_there ref b w -> still_there ref b (Ultra.print l w).
Proof. now apply still_there_same. Qed.
Lemma still_there_saveLog l w :
  still_there ref b w -> still_there ref b (Ultra.saveLog l w).
Proof. now apply still_there_same. Qed.
Lemma still_there_displayStats w :
  still_there ref b w -> still_there ref b (Ultra.displayStats w).
Proof. now apply still_there_same. Qed.
Lemma still_there_upd_stats f w :
  still_there ref b w -> still_there ref b (Ultra.upd_stats f w).
Proof. now apply still_there_same. Qed.
Lemma still_there_defer d w :
  still_there ref b w -> still_there ref b (Ultra.defer d w).
Proof. now apply still_there_same. Qed.
Lemma still_there_set_pending p w :
  still_there ref b w -> still_there ref b (Ultra.set_pending p w).
Proof. now apply still_there_same. Qed.
Lemma still_there_set_clients c w :
  still_there ref b w -> still_there ref b (Ultra.set_clients c w).
Proof. now apply still_there_same. Qed.
Lemma still_there_set_quits q w :
  still_there ref b w -> still_there ref b (Ultra.set_quits q w).
Proof. now apply still_there_same. Qed.
Lemma still_there_set_isRunning v w :
  still_there ref b w -> still_there ref b (Ultra.set_isRunning v w).
Proof. now apply still_there_same. Qed.
Lemma still_there_set_bots l w :
  still_there ref b w -> still_there ref b (Ultra.set_bots l w).
Proof. now apply still_there_same. Qed.
Lemma still_there_log r m w :
  still_there ref b w -> still_there ref b (Ultra.log r m w).
Proof. unfold Ultra.log. destruct (_ !! _); auto using still_there_print. Qed.
Lemma still_there_bot_chat r text w :
  still_there ref b w -> still_there ref b (Ultra.bot_chat r text w).
Proof.
  unfold Ultra.bot_chat. destruct (_ !! _) as [x|]; auto.
  destruct (Ultra.bot x); auto.
Qed.
Lemma still_there_connect r w :
  still_there ref b w -> still_there ref b (Ultra.connect r w).
Proof. unfold Ultra.connect. apply still_there_defer. Qed.

(** A field update of any bot by a method. *)
Lemma still_there_upd_obj r f w :
  (forall x, kept x (f x)) ->
  still_there ref b w -> still_there ref b (Ultra.upd_obj r f w).
Proof.
  intros Hf (Hle & b' & Hb' & Hkept). unfold still_there, Ultra.upd_obj. fields.
  split; [assumption|].
  destruct (decide (r = ref)) as [->|Hne].
  - exists (f b'). rewrite lookup_alter_eq, Hb'. split; [reflexivity|].
    destruct Hkept as (H1 & H2 & H3 & H4 & H5 & H6).
    destruct (Hf b') as (G1 & G2 & G3 & G4 & G5 & G6).
    unfold kept. rewrite G1, G2, G3, G4, G5.
    repeat (split; [assumption|]). now transitivity (Ultra.messages b').
  - exists b'. now rewrite lookup_alter_ne.
Qed.

Lemma still_there_set_connected r v w :
  still_there ref b w ->
  still_there ref b (Ultra.upd_obj r (Ultra.set_connected v) w).
Proof.
  apply still_there_upd_obj. intros x. unfold kept. fields.
  repeat split; reflexivity.
Qed.
Lemma still_there_set_bot r v w :
  still_there ref b w -> still_there ref b (Ultra.upd_obj r (Ultra.set_bot v) w).
Proof.
  apply still_there_upd_obj. intros x. unfold kept. fields.
  repeat split; reflexivity.
Qed.
Lemma still_there_set_reconnectAttempts r v w :
  still_there ref b w ->
  still_there ref b (Ultra.upd_obj r (Ultra.set_reconnectAttempts v) w).
Proof.
  apply still_there_upd_obj. intros x. unfold kept. fields.
  repeat split; reflexivity.
Qed.
Lemma still_there_push_message r text w :
  still_there ref b w ->
  still_there ref b
    (Ultra.upd_obj r
       (fun this => Ultra.set_messages (Ultra.messages this ++ [text]) this) w).
Proof.
  apply still_there_upd_obj. intros x. unfold kept. fields.
  repeat (split; [reflexivity|]). now apply prefix_app_r.
Qed.

#[local] Hint Resolve still_there_print still_there_saveLog
  still_there_displayStats still_there_upd_stats still_there_defer
  still_there_set_pending still_there_set_clients still_there_set_quits
  still_there_set_isRunning still_there_set_bots still_there_log
  still_there_bot_chat still_there_connect still_there_set_connected
  still_there_set_bot still_there_set_reconnectAttempts
  still_there_push_message : kept.
#[local] Hint Extern 1 (still_there _ _ (match ?x with _ => _ end)) =>
  destruct x eqn:? : kept.
#[local] Hint Extern 1 (still_there _ _ (if ?c then _ else _)) =>
  destruct c eqn:? : kept.

Lemma still_there_listener r ev w :
  still_there ref b w -> still_there ref b (Ultra.listener r ev w).
Proof.
  intros Hok. destruct ev; cbn [Ultra.listener];
    unfold Ultra.on_login, Ultra.on_spawn, Ultra.on_kicked, Ultra.on_end,
      Ultra.on_error, Ultra.on_message, Ultra.reply_register,
      Ultra.reply_login, Ultra.reply_authme, Ultra.reply_premium,
      Ultra.attemptReconnect;
    auto 30 with kept.
Qed.

Lemma still_there_actualConnect r created w :
  still_there ref b w -> still_there ref b (Ultra.actualConnect r created w).
Proof. intros Hok. unfold Ultra.actualConnect. auto 20 with kept. Qed.

#[local] Hint Resolve still_there_actualConnect : kept.

(** The constructor files the new bot under an index not yet in use. *)
Lemma still_there_spawnBot e w :
  still_there ref b w -> still_there ref b (Ultra.spawnBot e w).
Proof.
  intros Hok. unfold Ultra.spawnBot.
  destruct (negb (Ultra.isRunning w) || (Ultra.maxBots w <=? Ultra.botIndex w));
    [auto 20 with kept|].
  assert (Hnew : still_there ref b
            (Ultra.set_botIndex (Ultra.botIndex w + 1)
               (Ultra.set_bots (Ultra.bots w ++ [Ultra.botIndex w + 1])
                  (Ultra.new_UltraBot (Ultra.gen_username e)
                     (Ultra.assign_proxy (Ultra.workingProxies w) (Ultra.botIndex w))
                     (Ultra.botIndex w + 1) (Ultra.gen_joinDelay e) w)))).
  { destruct Hok as (Hle & b' & Hb' & Hkept).
    unfold still_there, Ultra.new_UltraBot, Ultra.connect, Ultra.defer. fields.
    split; [lia|]. exists b'. split; [|assumption].
    rewrite lookup_insert_ne by lia. assumption. }
  cbv zeta. fields. auto 20 with kept.
Qed.

Lemma still_there_forEach_connected act refs :
  (forall r w, still_there ref b w -> still_there ref b (act r w)) ->
  forall start, still_there ref b (snd start) ->
  still_there ref b (snd (Ultra.forEach_connected act refs start)).
Proof.
  intros Hact. unfold Ultra.forEach_connected.
  induction refs as [|r refs IH]; intros [n w] Hok; [assumption|].
  cbn [fold_left]. apply IH.
  destruct (Ultra.objs w !! r) as [this|]; [|assumption].
  destruct (Ultra.connected this); [apply Hact|]; assumption.
Qed.

Lemma still_there_broadcast message w :
  still_there ref b w -> still_there ref b (snd (Ultra.broadcast message w)).
Proof.
  intros Hok. unfold Ultra.broadcast. destruct message as [|c message]; [assumption|].
  pose proof (still_there_forEach_connected
                (fun r => Ultra.sendChat r (c :: message)) (Ultra.bots w)) as H.
  specialize (H ltac:(intros; unfold Ultra.sendChat; auto 20 with kept) (0, w) Hok).
  destruct (Ultra.forEach_connected _ _ _). cbn [snd] in *. auto with kept.
Qed.

Lemma still_there_executeCommand command w :
  still_there ref b w ->
  still_there ref b (snd (Ultra.executeCommand command w)).
Proof.
  intros Hok. unfold Ultra.executeCommand.
  destruct command as [|c command]; [assumption|].
  pose proof (still_there_forEach_connected
                (fun r => Ultra.bot_executeCommand r (c :: command))
                (Ultra.bots w)) as H.
  specialize (H ltac:(intros; unfold Ultra.bot_executeCommand; auto 20 with kept)
                (0, w) Hok).
  destruct (Ultra.forEach_connected _ _ _). cbn [snd] in *. auto with kept.
Qed.

Lemma still_there_fold_disconnect refs : forall w,
  still_there ref b w ->
  still_there ref b (fold_left (fun w r => Ultra.disconnect r w) refs w).
Proof.
  induction refs as [|r refs IH]; intros w Hok; [assumption|].
  cbn [fold_left]. apply IH. unfold Ultra.disconnect. auto 20 with kept.
Qed.

Lemma still_there_stopAll w :
  still_there ref b w -> still_there ref b (Ultra.stopAll w).
Proof.
  intros Hok. unfold Ultra.stopAll.
  apply still_there_defer, still_there_set_bots, still_there_fold_disconnect.
  auto with kept.
Qed.

Lemma still_there_fire n e w :
  still_there ref b w -> still_there ref b (Ultra.fire n e w).
Proof.
  intros Hok. unfold Ultra.fire.
  destruct (Ultra.pending w !! n) as [d|]; [|assumption].
  assert (H : still_there ref b
                (Ultra.set_pending (delete n (Ultra.pending w)) w))
    by auto with kept.
  destruct d; unfold Ultra.reconnect_timer, Ultra.showFinalStats;
    auto using still_there_spawnBot; auto 20 with kept.
Qed.

Lemma still_there_step w ev :
  still_there ref b w -> still_there ref b (Ultra.step w ev).
Proof.
  intros Hok. destruct ev; cbn [Ultra.step];
    auto using still_there_fire, still_there_broadcast,
      still_there_executeCommand, still_there_stopAll.
  destruct (Ultra.clients w !! h); auto using still_there_listener.
Qed.

Lemma still_there_run evs : forall w,
  still_there ref b w -> still_there ref b (Ultra.run w evs).
Proof.
  unfold Ultra.run.
  induction evs as [|ev evs IH]; intros w Hok; cbn [fold_left];
    auto using still_there_step.
Qed.

End StillThere.

(** X11. A bot is never dropped from the store, and no method writes
    the fields its constructor set: from any state the program reaches
    and whatever events follow (reconnects, [stopAll] and later spawns
    included), the bot of a given reference keeps its [username], its
    [proxy], its [index], its [maxReconnects] and its [joinDelay], and
    its chat log only grows. So every reconnection of a bot goes through
    the relay it was first given, under the same name. *)
Theorem bot_keeps_name_and_proxy
    (w : Ultra.World) (evs : list Ultra.Event) (ref : nat)
    (this : Ultra.UltraBot) :
  reachable w ->
  Ultra.objs w !! ref = Some this ->
  exists this',
    Ultra.objs (Ultra.run w evs) !! ref = Some this' /\
    Ultra.username this' = Ultra.username this /\
    Ultra.proxy this' = Ultra.proxy this /\
    Ultra.index this' = Ultra.index this /\
    Ultra.maxReconnects this' = Ultra.maxReconnects this /\
    Ultra.joinDelay this' = Ultra.joinDelay this /\
    Ultra.messages this `prefix_of` Ultra.messages this'.
Proof.
  intros Hreach Hobj.
  assert (Hstart : still_there ref this w).
  { split; [|exists this; split; [assumption | apply kept_refl]].
    apply wf_reachable in Hreach. destruct Hreach as (_ & _ & Hidx). eauto. }
  destruct (still_there_run ref this evs w Hstart) as (_ & this' & Hobj' & Hkept).
  exists this'. split; [assumption | exact Hkept].
Qed.

Lemma bot_keeps_name_and_proxy_witness :
  let evs := [Ultra.Emit 0 (Ultra.Message (js "hello"));
              Ultra.Emit 0 (Ultra.Kicked (js "Banned")); Ultra.Stop] in
  exists this',
    Ultra.objs (Ultra.run ultra_one_active evs) !! 1 = Some this' /\
    Ultra.username this' = js "Storm42".
Proof.
  intros evs.
  assert (Hobj : exists this,
            Ultra.objs ultra_one_active !! 1 = Some this /\
            Ultra.username this = js "Storm42")
    by (eexists; vm_compute; split; reflexivity).
  destruct Hobj as (this & Hobj & Hname).
  assert (Hreach : reachable ultra_one_active).
  { unfold reachable, ultra_one_active. do 5 eexists. reflexivity. }
  destruct (bot_keeps_name_and_proxy ultra_one_active evs 1 this Hreach Hobj)
    as (this' & Hobj' & Hname' & _).
  exists this'. split; [exact Hobj' | congruence].
Defined.

(** ** After the shutdown *)

Lemma idle_refl w : idle w w.
Proof. unfold idle. auto 10. Qed.

Lemma idle_trans w1 w2 w3 : idle w1 w2 -> idle w2 w3 -> idle w1 w3.
Proof.
  unfold idle. intros (?&?&?&?&?&?) (?&?&?&?&?&?).
  repeat split; congruence.
Qed.

Ltac idle_now :=
  unfold idle; ultra_unfold; case_lookups; repeat split; reflexivity.

Lemma idle_reply_register ref text w : idle w (Ultra.reply_register ref text w).
Proof. unfold Ultra.reply_register. idle_now. Qed.
Lemma idle_reply_login ref text w : idle w (Ultra.reply_login ref text w).
Proof. unfold Ultra.reply_login. idle_now. Qed.
Lemma idle_reply_authme ref text w : idle w (Ultra.reply_authme ref text w).
Proof. unfold Ultra.reply_authme. idle_now. Qed.
Lemma idle_reply_premium ref text w : idle w (Ultra.reply_premium ref text w).
Proof. unfold Ultra.reply_premium. idle_now. Qed.
Lemma idle_attemptReconnect ref w : idle w (Ultra.attemptReconnect ref w).
Proof. unfold Ultra.attemptReconnect. idle_now. Qed.

(** No listener of a client touches the pool, sends a quit or counts a
    message. *)
Lemma idle_listener ref ev w : idle w (Ultra.listener ref ev w).
Proof.
  destruct ev; cbn [Ultra.listener].
  - unfold Ultra.on_login. idle_now.
  - unfold Ultra.on_spawn. idle_now.
  - unfold Ultra.on_kicked. cbv zeta.
    eapply idle_trans; [|apply idle_attemptReconnect]. idle_now.
  - unfold Ultra.on_end. cbv zeta.
    eapply idle_trans; [|apply idle_attemptReconnect]. idle_now.
  - unfold Ultra.on_error. idle_now.
  - unfold Ultra.on_message. cbv zeta.
    eapply idle_trans; [|apply idle_reply_premium].
    eapply idle_trans; [|apply idle_reply_authme].
    eapply idle_trans; [|apply idle_reply_login].
    eapply idle_trans; [|apply idle_reply_register].
    idle_now.
Qed.

(** With [isRunning] cleared, a spawn timer that fires makes no bot. *)
Lemma idle_fire n e w :
  Ultra.isRunning w = false -> idle w (Ultra.fire n e w).
Proof.
  intros Hrun. unfold Ultra.fire.
  destruct (Ultra.pending w !! n) as [d|]; [|apply idle_refl].
  destruct d;
    unfold Ultra.reconnect_timer, Ultra.spawnBot, Ultra.actualConnect,
      Ultra.showFinalStats;
    fields; rewrite ?Hrun; cbn [negb orb]; idle_now.
Qed.

(** With no member, [broadcast], [executeCommand] and [stopAll] reach no
    bot. *)
Lemma idle_commands w :
  Ultra.bots w = [] ->
  (forall message, idle w (snd (Ultra.broadcast message w))) /\
  (forall command, idle w (snd (Ultra.executeCommand command w))) /\
  (Ultra.isRunning w = false -> idle w (Ultra.stopAll w)).
Proof.
  intros Hbots. split; [|split].
  - intros [|c message]; [apply idle_refl|].
    unfold Ultra.broadcast, Ultra.forEach_connected. rewrite Hbots.
    cbn [fold_left snd]. unfold idle, Ultra.print, Ultra.saveLog. fields.
    rewrite Hbots. auto 10.
  - intros [|c command]; [apply idle_refl|].
    unfold Ultra.executeCommand, Ultra.forEach_connected. rewrite Hbots.
    cbn [fold_left snd]. unfold idle, Ultra.print, Ultra.saveLog. fields.
    rewrite Hbots. auto 10.
  - intros Hrun. unfold Ultra.stopAll, Ultra.print, Ultra.defer. fields.
    rewrite Hbots. cbn [fold_left]. unfold idle. fields.
    rewrite Hbots, Hrun. auto 10.
Qed.

Lemma idle_step w ev :
  Ultra.isRunning w = false -> Ultra.bots w = [] -> idle w (Ultra.step w ev).
Proof.
  intros Hrun Hbots. destruct (idle_commands w Hbots) as (Hsay & Hcmd & Hstop).
  destruct ev; cbn [Ultra.step]; auto using idle_fire.
  destruct (Ultra.clients w !! h); [apply idle_listener | apply idle_refl].
Qed.

Lemma idle_run evs : forall w,
  Ultra.isRunning w = false -> Ultra.bots w = [] -> idle w (Ultra.run w evs).
Proof.
  unfold Ultra.run. induction evs as [|ev evs IH]; intros w Hrun Hbots;
    cbn [fold_left]; [apply idle_refl|].
  pose proof (idle_step w ev Hrun Hbots) as Hstep.
  eapply idle_trans; [exact Hstep|].
  destruct Hstep as (Hrun' & Hbots' & _).
  apply IH; congruence.
Qed.

(** X12. Once [stopAll] has run, the pool stays shut whatever happens
    next (events of the protocol clients, timers of the spawn loop or of
    a reconnection, further commands of the operator): [isRunning] stays
    false, the member list stays empty, no bot is spawned, [quit] is
    called on no client again, and [stats.messagesSent] and
    [stats.commandsExecuted] stay as they are: no broadcast and no
    command is delivered. *)
Theorem shutdown_is_final (w : Ultra.World) (evs : list Ultra.Event) :
  let w1 := Ultra.stopAll w in
  let w' := Ultra.run w1 evs in
  Ultra.isRunning w' = false /\
  Ultra.bots w' = [] /\
  Ultra.botIndex w' = Ultra.botIndex w /\
  Ultra.quits w' = Ultra.quits w1 /\
  Ultra.messagesSent (Ultra.stats w') = Ultra.messagesSent (Ultra.stats w) /\
  Ultra.commandsExecuted (Ultra.stats w') =
    Ultra.commandsExecuted (Ultra.stats w).
Proof.
  cbv zeta.
  assert (Hstop : Ultra.isRunning (Ultra.stopAll w) = false /\
                  Ultra.bots (Ultra.stopAll w) = [] /\
                  Ultra.botIndex (Ultra.stopAll w) = Ultra.botIndex w /\
                  Ultra.stats (Ultra.stopAll w) = Ultra.stats w).
  { unfold Ultra.stopAll, Ultra.defer, Ultra.print. fields.
    destruct (fold_disconnect_effect (Ultra.bots w)
                (Ultra.set_isRunning false
                   (Ultra.set_console (Ultra.console w ++ [Ultra.StoppingAll]) w)))
      as (_ & Hstats & _ & _ & Hrun).
    destruct (fold_disconnect_frame (Ultra.bots w)
                (Ultra.set_isRunning false
                   (Ultra.set_console (Ultra.console w ++ [Ultra.StoppingAll]) w)))
      as (_ & _ & Hidx).
    cbv zeta in *. fields. auto. }
  destruct Hstop as (Hrun & Hbots & Hidx & Hstats).
  destruct (idle_run evs (Ultra.stopAll w) Hrun Hbots)
    as (Hrun' & Hbots' & Hidx' & Hquits' & Hsent' & Hcmd').
  rewrite Hstats in Hsent', Hcmd'.
  repeat split; congruence.
Qed.

(** ** A disconnect seen twice *)

Lemma lookup_app_length {A} (l : list A) x k : (l ++ x :: k) !! length l = Some x.
Proof. rewrite lookup_app_r by lia. now rewrite Nat.sub_diag. Qed.

Lemma delete_app_length {A} (l : list A) x k :
  delete (length l) (l ++ x :: k) = l ++ k.
Proof.
  induction l as [|y l IH]; [reflexivity|].
  change (y :: delete (length l) (l ++ x :: k) = y :: (l ++ k)).
  now rewrite IH.
Qed.

Lemma attemptReconnect_below_cap ref this w :
  Ultra.objs w !! ref = Some this ->
  Ultra.reconnectAttempts this < Ultra.maxReconnects this ->
  let attempts := S (Ultra.reconnectAttempts this) in
  let delay := N.min (5000 * N.of_nat attempts) 30000 in
  Ultra.attemptReconnect ref w =
  Ultra.defer (Ultra.ReconnectTimer ref delay)
    (Ultra.print
       (Ultra.BotLog (Ultra.index this)
          (Ultra.Reconnecting delay attempts (Ultra.maxReconnects this)))
       (Ultra.upd_stats (fun s => Ultra.set_reconnects (S (Ultra.reconnects s)) s)
          (Ultra.upd_obj ref (Ultra.set_reconnectAttempts attempts) w))).
Proof.
  intros Hobj Hlt. cbv zeta. unfold Ultra.attemptReconnect. rewrite Hobj.
  rewrite (proj2 (Nat.leb_gt _ _) Hlt). unfold Ultra.log.
  ultra_unfold. lookup_this Hobj. reflexivity.
Qed.

Lemma reconnect_timer_fires P ref delay rest e w :
  Ultra.pending w = P ++ Ultra.ReconnectTimer ref delay :: rest ->
  Ultra.isRunning w = true ->
  let w' := Ultra.fire (length P) e w in
  Ultra.pending w' = P ++ rest ++ [Ultra.Ping ref] /\
  Ultra.clients w' = Ultra.clients w /\
  Ultra.isRunning w' = true /\
  Ultra.objs w' = Ultra.objs w /\
  Ultra.stats w' = Ultra.stats w.
Proof.
  intros Hp Hrun. cbv zeta. unfold Ultra.fire.
  rewrite Hp, lookup_app_length, delete_app_length.
  unfold Ultra.reconnect_timer, Ultra.connect, Ultra.defer. fields.
  rewrite Hrun. fields. rewrite <- app_assoc. auto.
Qed.

Lemma ping_fails_and_connects P ref rest e this w :
  Ultra.pending w = P ++ Ultra.Ping ref :: rest ->
  Ultra.resolved e = false -> Ultra.created e = true ->
  Ultra.objs w !! ref = Some this ->
  let w' := Ultra.fire (length P) e w in
  (exists extra, Ultra.pending w' = P ++ rest ++ extra) /\
  Ultra.clients w' = Ultra.clients w ++ [ref] /\
  Ultra.isRunning w' = Ultra.isRunning w /\
  Ultra.objs w' !! ref =
    Some (Ultra.set_bot (Some (length (Ultra.clients w))) this) /\
  Ultra.sent (Ultra.stats w') = S (Ultra.sent (Ultra.stats w)).
Proof.
  intros Hp Hres Hcre Hobj. cbv zeta. unfold Ultra.fire.
  rewrite Hp, lookup_app_length, delete_app_length, Hres, Hcre.
  unfold Ultra.actualConnect. ultra_unfold. fields. rewrite Hobj.
  destruct (Ultra.proxy this); fields; rewrite lookup_alter_eq, Hobj;
    (split; [eexists; rewrite <- ?app_assoc; try reflexivity;
             instantiate (1 := []); now rewrite app_nil_r |]); auto.
Qed.

(** X13. A disconnect that the client reports twice is treated as two.
    When a client emits ['kicked'] and then ['end'] while its bot has at
    least two reconnect attempts left, each listener calls
    [attemptReconnect]: two attempts are used up, [stats.reconnects]
    grows by two and two reconnect timers are set, one step of delay
    apart. If the pool is running and both timers fire, both pings are
    started; if both fail and [createBot] returns, two protocol clients
    are created for the one bot and [stats.sent] grows by two; the bot
    holds the second client, the first one keeps its listeners. *)
Theorem one_disconnect_two_reconnects
    (w : Ultra.World) (h ref : nat) (this : Ultra.UltraBot)
    (reason : jsstring) (reason' : option jsstring) :
  Ultra.clients w !! h = Some ref ->
  Ultra.objs w !! ref = Some this ->
  Ultra.reconnectAttempts this + 2 <= Ultra.maxReconnects this ->
  let a := Ultra.reconnectAttempts this in
  let w' := Ultra.run w [Ultra.Emit h (Ultra.Kicked reason);
                         Ultra.Emit h (Ultra.End reason')] in
  Ultra.pending w' =
    Ultra.pending w ++
      [Ultra.ReconnectTimer ref (N.min (5000 * N.of_nat (a + 1)) 30000);
       Ultra.ReconnectTimer ref (N.min (5000 * N.of_nat (a + 2)) 30000)] /\
  Ultra.reconnects (Ultra.stats w') = Ultra.reconnects (Ultra.stats w) + 2 /\
  Ultra.reconnectAttempts <$> Ultra.objs w' !! ref = Some (a + 2) /\
  (Ultra.isRunning w = true ->
   forall e, Ultra.resolved e = false -> Ultra.created e = true ->
     let k := length (Ultra.pending w) in
     let w'' := Ultra.run w' [Ultra.Fire k e; Ultra.Fire k e;
                              Ultra.Fire k e; Ultra.Fire k e] in
     Ultra.clients w'' = Ultra.clients w ++ [ref; ref] /\
     Ultra.sent (Ultra.stats w'') = Ultra.sent (Ultra.stats w) + 2 /\
     Ultra.bot <$> Ultra.objs w'' !! ref =
       Some (Some (length (Ultra.clients w) + 1))).
Proof.
  intros Hh Hobj Hroom. cbv zeta.
  unfold Ultra.run. cbn [fold_left Ultra.step]. rewrite Hh.
  cbn [Ultra.listener].
  set (w1 := Ultra.on_kicked ref reason w).
  assert (H1 : Ultra.clients w1 = Ultra.clients w /\
               Ultra.pending w1 = Ultra.pending w ++
                 [Ultra.ReconnectTimer ref
                    (N.min (5000 * N.of_nat (Ultra.reconnectAttempts this + 1)) 30000)] /\
               Ultra.reconnects (Ultra.stats w1) = Ultra.reconnects (Ultra.stats w) + 1 /\
               exists this1, Ultra.objs w1 !! ref = Some this1 /\
                 Ultra.reconnectAttempts this1 = Ultra.reconnectAttempts this + 1 /\
                 Ultra.maxReconnects this1 = Ultra.maxReconnects this).
  { subst w1. unfold Ultra.on_kicked. cbv zeta.
    rewrite (attemptReconnect_below_cap ref (Ultra.set_connected false this)).
    - ultra_unfold. lookup_this Hobj. rewrite Nat.add_1_r.
      split; [reflexivity|]. split; [reflexivity|]. split; [lia|].
      eexists. split; [reflexivity|]. fields. split; [lia | reflexivity].
    - ultra_unfold. lookup_this Hobj. reflexivity.
    - fields. lia. }
  destruct H1 as (Hcl1 & Hp1 & Hr1 & this1 & Hobj1 & Ha1 & Hm1).
  rewrite Hcl1, Hh. cbn [Ultra.listener].
  set (w2 := Ultra.on_end ref reason' w1).
  assert (H2 : Ultra.clients w2 = Ultra.clients w /\
               Ultra.pending w2 = Ultra.pending w ++
                 [Ultra.ReconnectTimer ref
                    (N.min (5000 * N.of_nat (Ultra.reconnectAttempts this + 1)) 30000);
                  Ultra.ReconnectTimer ref
                    (N.min (5000 * N.of_nat (Ultra.reconnectAttempts this + 2)) 30000)] /\
               Ultra.stats w2 =
                 Ultra.set_reconnects (S (Ultra.reconnects (Ultra.stats w1)))
                   (Ultra.set_timeout (S (Ultra.timeout (Ultra.stats w1)))
                      (Ultra.stats w1)) /\
               Ultra.isRunning w2 = Ultra.isRunning w1 /\
               exists this2, Ultra.objs w2 !! ref = Some this2 /\
                 Ultra.reconnectAttempts this2 = Ultra.reconnectAttempts this + 2).
  { subst w2. unfold Ultra.on_end. cbv zeta.
    rewrite (attemptReconnect_below_cap ref (Ultra.set_connected false this1)).
    - ultra_unfold. lookup_this Hobj1. rewrite Hp1, Hcl1, Ha1, <- app_assoc.
      cbn [app]. replace (S (Ultra.reconnectAttempts this + 1))
        with (Ultra.reconnectAttempts this + 2) by lia.
      split; [reflexivity|]. split; [reflexivity|]. split; [reflexivity|].
      split; [reflexivity|].
      eexists. split; [reflexivity|]. fields. lia.
    - ultra_unfold. lookup_this Hobj1. reflexivity.
    - fields. lia. }
  destruct H2 as (Hcl2 & Hp2 & Hs2 & Hrun2 & this2 & Hobj2 & Ha2).
  split; [exact Hp2|]. split; [rewrite Hs2; fields; lia|].
  split; [rewrite Hobj2; cbn; now rewrite Ha2|].
  intros Hrun e Hres Hcre. cbn [fold_left Ultra.step].
  assert (Hrun1 : Ultra.isRunning w1 = Ultra.isRunning w).
  { subst w1. unfold Ultra.on_kicked. cbv zeta.
    rewrite (attemptReconnect_below_cap ref (Ultra.set_connected false this)).
    - ultra_unfold. lookup_this Hobj. reflexivity.
    - ultra_unfold. lookup_this Hobj. reflexivity.
    - fields. lia. }
  destruct (reconnect_timer_fires _ _ _ _ e w2 Hp2 ltac:(congruence))
    as (Hp3 & Hcl3 & Hrun3 & Hobjs3 & Hs3).
  set (w3 := Ultra.fire _ e w2) in *. cbn [app] in Hp3.
  destruct (reconnect_timer_fires _ _ _ _ e w3 Hp3 Hrun3)
    as (Hp4 & Hcl4 & Hrun4 & Hobjs4 & Hs4).
  set (w4 := Ultra.fire _ e w3) in *. cbn [app] in Hp4.
  assert (Hobj4 : Ultra.objs w4 !! ref = Some this2) by congruence.
  destruct (ping_fails_and_connects _ _ _ e this2 w4 Hp4 Hres Hcre Hobj4)
    as ((extra & Hp5) & Hcl5 & Hrun5 & Hobj5 & Hs5).
  set (w5 := Ultra.fire _ e w4) in *. cbn [app] in Hp5.
  destruct (ping_fails_and_connects _ _ _ e _ w5 Hp5 Hres Hcre Hobj5)
    as (_ & Hcl6 & Hrun6 & Hobj6 & Hs6).
  set (w6 := Ultra.fire _ e w5) in *.
  split; [|split].
  - rewrite Hcl6, Hcl5, Hcl4, Hcl3, Hcl2, <- app_assoc. reflexivity.
  - rewrite Hs6, Hs5, Hs4, Hs3, Hs2. subst w1. fields.
    assert (Hs1 : Ultra.sent (Ultra.stats (Ultra.on_kicked ref reason w)) =
                  Ultra.sent (Ultra.stats w)).
    { unfold Ultra.on_kicked. cbv zeta.
      rewrite (attemptReconnect_below_cap ref (Ultra.set_connected false this)).
      - ultra_unfold. lookup_this Hobj. reflexivity.
      - ultra_unfold. lookup_this Hobj. reflexivity.
      - fields. lia. }
    lia.
  - rewrite Hobj6. cbn. rewrite Hcl5, Hcl4, Hcl3, Hcl2, length_app. reflexivity.
Qed.

Lemma one_disconnect_two_reconnects_witness :
  let w' := Ultra.run ultra_one_active
              [Ultra.Emit 0 (Ultra.Kicked (js "Kicked"));
               Ultra.Emit 0 (Ultra.End None)] in
  Ultra.pending ultra_one_active = [] /\
  Ultra.pending w' =
    [Ultra.ReconnectTimer 1 5000; Ultra.ReconnectTimer 1 10000] /\
  Ultra.reconnects (Ultra.stats w') = 2.
Proof.
  intros w'.
  assert (Hobj : exists this,
            Ultra.objs ultra_one_active !! 1 = Some this /\
            Ultra.reconnectAttempts this = 0 /\ Ultra.maxReconnects this = 3)
    by (eexists; vm_compute; repeat split; reflexivity).
  destruct Hobj as (this & Hobj & Ha & Hm).
  assert (Hh : Ultra.clients ultra_one_active !! 0 = Some 1)
    by (vm_compute; reflexivity).
  assert (Hroom : Ultra.reconnectAttempts this + 2 <= Ultra.maxReconnects this)
    by (rewrite Ha, Hm; lia).
  destruct (one_disconnect_two_reconnects ultra_one_active 0 1 this
              (js "Kicked") None Hh Hobj Hroom) as (Hp & Hr & _).
  cbv zeta in Hp, Hr. rewrite Ha in Hp.
  split; [vm_compute; reflexivity|].
  split; [subst w'; rewrite Hp; vm_compute; reflexivity|].
  subst w'. rewrite Hr. vm_compute. reflexivity.
Defined.

(** ** The reconnect cap, and what lifts it (C3) *)

(** A ['login'] clears the counter, whatever it was. *)
Lemma on_login_clears_attempts ref this w :
  Ultra.objs w !! ref = Some this ->
  let w' := Ultra.on_login ref w in
  Ultra.objs w' !! ref =
    Some (Ultra.set_reconnectAttempts 0 (Ultra.set_connected true this)) /\
  Ultra.clients w' = Ultra.clients w /\
  Ultra.pending w' = Ultra.pending w /\
  Ultra.reconnects (Ultra.stats w') = Ultra.reconnects (Ultra.stats w).
Proof.
  intros Hobj. cbv zeta. unfold Ultra.on_login. ultra_unfold.
  lookup_this Hobj. auto.
Qed.

(** C3 (amended). In every state the program reaches, the
    [reconnectAttempts] of every bot is at most its [maxReconnects].
    While the counter of a bot is at the cap, its entries to Ended
    (['kicked'] or ['end'] events of its clients), however many, schedule
    nothing: no callback is added to the pending ones, no client is
    created, the [reconnects] counter and the bot's [reconnectAttempts]
    stay as they are, and the bot is left disconnected. The cap does not
    hold for good: nothing marks a bot as ended, and a ['login'] of any
    client of the bot sets the counter to 0 whatever it was, so that the
    next ['end'] of that client schedules a reconnect again, after 5000
    ms, and is counted in [reconnects]. *)
Theorem reconnect_cap
    (w : Ultra.World) (ref : nat) (this : Ultra.UltraBot)
    (terms : list Ultra.Event) :
  reachable w ->
  Ultra.objs w !! ref = Some this ->
  Forall (termination_of w ref) terms ->
  Ultra.reconnectAttempts this <= Ultra.maxReconnects this /\
  (Ultra.reconnectAttempts this = Ultra.maxReconnects this ->
   let w' := Ultra.run w terms in
   Ultra.pending w' = Ultra.pending w /\
   Ultra.clients w' = Ultra.clients w /\
   Ultra.reconnects (Ultra.stats w') = Ultra.reconnects (Ultra.stats w) /\
   exists this',
     Ultra.objs w' !! ref = Some this' /\
     Ultra.reconnectAttempts this' = Ultra.maxReconnects this' /\
     (terms <> [] -> Ultra.connected this' = false)) /\
  (forall h reason, Ultra.clients w !! h = Some ref ->
   let w1 := Ultra.step w (Ultra.Emit h Ultra.Login) in
   let w2 := Ultra.step w1 (Ultra.Emit h (Ultra.End reason)) in
   Ultra.reconnectAttempts <$> Ultra.objs w1 !! ref = Some 0 /\
   Ultra.pending w1 = Ultra.pending w /\
   Ultra.pending w2 = Ultra.pending w ++ [Ultra.ReconnectTimer ref 5000] /\
   Ultra.reconnects (Ultra.stats w2) = S (Ultra.reconnects (Ultra.stats w)) /\
   Ultra.reconnectAttempts <$> Ultra.objs w2 !! ref = Some 1).
Proof.
  intros Hreach Hobj Hterms. split; [|split].
  - apply wf_reachable in Hreach. now destruct (wf_bot_ok _ _ _ Hreach Hobj).
  - intros Hcap.
    destruct (terminations_capped ref w terms w eq_refl Hterms)
      as ((Hp & Hc & Hr) & (this' & Hobj' & Hcap') & Hconn).
    { now exists this. }
    cbv zeta. repeat split; auto. exists this'. repeat split; auto.
    intros Hne. specialize (Hconn Hne). rewrite Hobj' in Hconn.
    now injection Hconn.
  - intros h reason Hh. cbv zeta. cbn [Ultra.step]. rewrite Hh.
    cbn [Ultra.listener].
    assert (Hmax : Ultra.maxReconnects this = 3).
    { apply pool_ok_reachable in Hreach.
      destruct Hreach as (_ & _ & _ & Hfiled & _). exact (proj2 (Hfiled _ _ Hobj)). }
    destruct (on_login_clears_attempts ref this w Hobj) as (Hobj1 & Hcl1 & Hp1 & Hr1).
    cbv zeta in *. set (w1 := Ultra.on_login ref w) in *.
    rewrite Hcl1, Hh. cbn [Ultra.listener]. rewrite Hobj1.
    split; [reflexivity|]. split; [assumption|].
    unfold Ultra.on_end. cbv zeta.
    rewrite (attemptReconnect_below_cap ref
               (Ultra.set_connected false
                  (Ultra.set_reconnectAttempts 0 (Ultra.set_connected true this)))).
    + ultra_unfold. lookup_this Hobj1. rewrite Hp1, Hr1.
      split; [reflexivity|]. split; [reflexivity|].
      reflexivity.
    + ultra_unfold. lookup_this Hobj1. reflexivity.
    + fields. lia.
Qed.

Lemma reconnect_cap_witness :
  let terms := [Ultra.Emit 3 (Ultra.Kicked (js "Banned"));
                Ultra.Emit 3 (Ultra.End None)] in
  Ultra.reconnectAttempts <$> Ultra.objs ultra_capped !! 1 = Some 3 /\
  Ultra.pending ultra_capped = [] /\
  Ultra.pending (Ultra.run ultra_capped terms) = Ultra.pending ultra_capped /\
  Ultra.clients (Ultra.run ultra_capped terms) = Ultra.clients ultra_capped /\
  Ultra.pending
    (Ultra.step (Ultra.step ultra_capped (Ultra.Emit 3 Ultra.Login))
       (Ultra.Emit 3 (Ultra.End None)))
  = [Ultra.ReconnectTimer 1 5000].
Proof.
  intros terms.
  assert (Hobj : exists this,
            Ultra.objs ultra_capped !! 1 = Some this /\
            Ultra.reconnectAttempts this = Ultra.maxReconnects this)
    by (eexists; vm_compute; split; reflexivity).
  destruct Hobj as (this & Hobj & Hcap).
  assert (Hreach : reachable ultra_capped).
  { unfold reachable, ultra_capped. do 5 eexists. reflexivity. }
  assert (Hterms : Forall (termination_of ultra_capped 1) terms).
  { repeat constructor; exists 3; (split; [reflexivity|]); eauto. }
  destruct (reconnect_cap ultra_capped 1 this terms Hreach Hobj Hterms)
    as (_ & H & Hlogin).
  destruct (H Hcap) as (Hp & Hc & _).
  assert (Hh : Ultra.clients ultra_capped !! 3 = Some 1) by (vm_compute; reflexivity).
  destruct (Hlogin 3 None Hh) as (_ & _ & Hp2 & _).
  split; [vm_compute; reflexivity|]. split; [vm_compute; reflexivity|].
  split; [assumption|]. split; [assumption|]. exact Hp2.
Defined.

(** C3, counterexample. Two bots that have used their three reconnect
    attempts, and a fourth reconnect for each.

    The first has its third reconnect under way (client [3]). That
    attempt succeeds: the client logs in, which clears the counter, and
    when the connection ends later a fourth reconnect is scheduled and
    counted.

    The second has come to rest: its last client ended at the cap, the
    line "Max reconnect attempts reached" was printed and nothing is
    pending. An earlier connection of the bot is still open (client [1],
    made by the first of two reconnects that one disconnect had set).
    When that client logs in and later ends, a fourth reconnect is
    scheduled and a fifth client made: the bot did not stay Ended. *)
Lemma ended_at_cap_reconnects_again :
  let again := fun h => [Ultra.Emit h Ultra.Login; Ultra.Emit h (Ultra.End None)] in
  let u := ultra_capped in
  let u' := Ultra.run u (again 3) in
  let w := ultra_ended_at_cap in
  let w' := Ultra.run w (again 1) in
  (Ultra.reconnectAttempts <$> Ultra.objs u !! 1 = Some 3 /\
   Ultra.maxReconnects <$> Ultra.objs u !! 1 = Some 3 /\
   Ultra.pending u = [] /\
   Ultra.reconnects (Ultra.stats u) = 3) /\
  (Ultra.pending u' = [Ultra.ReconnectTimer 1 5000] /\
   Ultra.reconnects (Ultra.stats u') = 4) /\
  (Ultra.reconnectAttempts <$> Ultra.objs w !! 1 = Some 3 /\
   Ultra.maxReconnects <$> Ultra.objs w !! 1 = Some 3 /\
   Ultra.connected <$> Ultra.objs w !! 1 = Some false /\
   last (Ultra.console w) = Some (Ultra.BotLog 1 Ultra.MaxReconnectReached) /\
   Ultra.pending w = [] /\
   Ultra.reconnects (Ultra.stats w) = 3 /\
   Ultra.clients w = [1; 1; 1; 1]) /\
  (Ultra.pending w' = [Ultra.ReconnectTimer 1 5000] /\
   Ultra.reconnects (Ultra.stats w') = 4 /\
   Ultra.clients (Ultra.run w' [Ultra.Fire 0 env_rejected; Ultra.Fire 0 env_rejected])
     = [1; 1; 1; 1; 1]).
Proof. vm_compute. repeat split; reflexivity. Qed.

(** ** Dispatch of a command *)

Lemma bot_executeCommand_active ref this h command w :
  Ultra.objs w !! ref = Some this ->
  Ultra.connected this = true ->
  Ultra.bot this = Some h ->
  Ultra.bot_executeCommand ref command w =
  Ultra.print (Ultra.BotLog (Ultra.index this) (Ultra.ExecutedCommand command))
    (Ultra.displayStats
       (Ultra.upd_stats
          (fun s => Ultra.set_commandsExecuted (S (Ultra.commandsExecuted s)) s)
          (Ultra.set_chats (Ultra.chats w ++ [(h, command)]) w))).
Proof.
  intros Hobj Hconn Hbot. unfold Ultra.bot_executeCommand, Ultra.bot_chat, Ultra.log.
  rewrite Hobj, Hbot, Hconn. ultra_unfold. fields. now rewrite Hobj.
Qed.

Lemma dispatch_loop command refs : forall k w,
  members_ok (Ultra.objs w) refs = true ->
  let actives := filter (fun ref => is_active (Ultra.objs w) ref = true) refs in
  let r := Ultra.forEach_connected
             (fun ref => Ultra.bot_executeCommand ref command) refs (k, w) in
  fst r = k + length actives /\
  Ultra.objs (snd r) = Ultra.objs w /\
  Ultra.stats (snd r) =
    Ultra.set_commandsExecuted
      (Ultra.commandsExecuted (Ultra.stats w) + length actives) (Ultra.stats w) /\
  Ultra.chats (snd r) = Ultra.chats w ++ deliveries (Ultra.objs w) command actives /\
  Ultra.logfile (snd r) = Ultra.logfile w.
Proof.
  unfold Ultra.forEach_connected.
  induction refs as [|ref refs IH]; intros k w Hok; cbn [fold_left].
  - cbn. rewrite !Nat.add_0_r, app_nil_r. destruct (Ultra.stats w); auto 10.
  - cbn [members_ok forallb] in Hok. apply andb_true_iff in Hok as [Hthis Hok].
    rewrite filter_cons.
    destruct (decide (is_active (Ultra.objs w) ref = true)) as [Hact|Hact];
      unfold is_active in Hact;
      destruct (Ultra.objs w !! ref) as [this|] eqn:Hobj;
      try discriminate.
    + rewrite Hact.
      destruct (Ultra.bot this) as [h|] eqn:Hbot; [|now rewrite Hact in Hthis].
      rewrite (bot_executeCommand_active ref this h) by assumption.
      set (w1 := Ultra.print _ _).
      destruct (IH (S k) w1 Hok) as (Hn & Ho & Hs & Hc & Hl).
      change (Ultra.objs w1) with (Ultra.objs w) in *.
      rewrite (deliveries_cons_active _ _ _ _ this h) by assumption.
      cbn [length]. split; [lia|].
      rewrite Ho, Hs, Hc, Hl.
      subst w1. ultra_unfold. fields. rewrite <- app_assoc.
      repeat split; auto. unfold Ultra.set_commandsExecuted. fields. f_equal. lia.
    + apply not_true_is_false in Hact. rewrite Hact. now apply IH.
    + now apply IH.
Qed.

(** X14. A command dispatched with [executeCommand] goes out as chat,
    exactly like a broadcast of the same text: for a non-empty text, each
    Active member's client gets one [chat] call with that text, in pool
    order, and nobody else does. What differs is the bookkeeping:
    [stats.commandsExecuted] grows by the number of Active members and
    [stats.messagesSent] does not move; that number is printed and
    logged; no value is returned and no bot changes. *)
Theorem dispatch_is_chat (command : jsstring) (w : Ultra.World) :
  command <> [] ->
  members_ok (Ultra.objs w) (Ultra.bots w) = true ->
  let n := length (active_members w) in
  let w' := snd (Ultra.executeCommand command w) in
  fst (Ultra.executeCommand command w) = undefined /\
  Ultra.chats w' = Ultra.chats (snd (Ultra.broadcast command w)) /\
  Ultra.chats w' =
    Ultra.chats w ++ deliveries (Ultra.objs w) command (active_members w) /\
  Ultra.stats w' =
    Ultra.set_commandsExecuted
      (Ultra.commandsExecuted (Ultra.stats w) + n) (Ultra.stats w) /\
  last (Ultra.console w') = Some (Ultra.ExecutedOn n command) /\
  last (Ultra.logfile w') = Some (Ultra.LogCommand command n) /\
  Ultra.objs w' = Ultra.objs w.
Proof.
  intros Hne Hok. cbv zeta.
  assert (Hsay : Ultra.chats (snd (Ultra.broadcast command w)) =
                 Ultra.chats w ++
                   deliveries (Ultra.objs w) command (active_members w)).
  { unfold Ultra.broadcast. destruct command as [|c command]; [congruence|].
    destruct (broadcast_loop (c :: command) (Ultra.bots w) 0 w Hok)
      as (_ & _ & _ & Hc & _).
    fold (active_members w) in *. cbv zeta in *.
    destruct (Ultra.forEach_connected _ _ _) as [sent w1]. cbn [fst snd] in *.
    unfold Ultra.saveLog, Ultra.print. fields. exact Hc. }
  rewrite Hsay. clear Hsay.
  unfold Ultra.executeCommand.
  destruct command as [|c command]; [congruence|].
  destruct (dispatch_loop (c :: command) (Ultra.bots w) 0 w Hok)
    as (Hn & Ho & Hs & Hc & Hl).
  fold (active_members w) in *. cbv zeta in *.
  destruct (Ultra.forEach_connected _ _ _) as [executed w1]. cbn [fst snd] in *.
  subst executed. unfold Ultra.saveLog, Ultra.print. fields.
  rewrite !last_snoc, Hs, Ho, Hc. auto 10.
Qed.

Lemma dispatch_is_chat_witness :
  let w' := snd (Ultra.executeCommand (js "/spawn") ultra_pool3) in
  Ultra.chats w' = [(0, js "/spawn"); (1, js "/spawn")] /\
  Ultra.commandsExecuted (Ultra.stats w') = 2 /\
  Ultra.messagesSent (Ultra.stats w') = 0.
Proof.
  intros w'.
  assert (Hne : js "/spawn" <> []) by discriminate.
  assert (Hok : members_ok (Ultra.objs ultra_pool3) (Ultra.bots ultra_pool3) = true)
    by (vm_compute; reflexivity).
  destruct (dispatch_is_chat (js "/spawn") ultra_pool3 Hne Hok)
    as (_ & _ & Hc & Hs & _).
  cbv zeta in Hc, Hs. subst w'. rewrite Hc, Hs.
  vm_compute. repeat split; reflexivity.
Defined.

(** ** [botattack.js]: connections and the spawn loop *)

Lemma enhanced_within_refl v : enhanced_within v v.
Proof. unfold enhanced_within. lia. Qed.

Lemma enhanced_within_trans v1 v2 v3 :
  enhanced_within v1 v2 -> enhanced_within v2 v3 -> enhanced_within v1 v3.
Proof.
  unfold enhanced_within. lia.
Qed.

Ltac within_now :=
  unfold enhanced_within; enhanced_unfold; case_lookups; read_tests;
  rewrite ?length_app; cbn [length]; lia.

Lemma enhanced_within_reply_register ref text v :
  enhanced_within v (Enhanced.reply_register ref text v).
Proof. unfold Enhanced.reply_register. within_now. Qed.
Lemma enhanced_within_reply_login ref text v :
  enhanced_within v (Enhanced.reply_login ref text v).
Proof. unfold Enhanced.reply_login. within_now. Qed.
Lemma enhanced_within_reply_premium ref text v :
  enhanced_within v (Enhanced.reply_premium ref text v).
Proof. unfold Enhanced.reply_premium. within_now. Qed.

Lemma enhanced_within_listener ref ev v :
  enhanced_within v (Enhanced.listener ref ev v).
Proof.
  destruct ev; cbn [Enhanced.listener].
  - unfold Enhanced.on_login. within_now.
  - unfold Enhanced.on_spawn. within_now.
  - unfold Enhanced.on_kicked. within_now.
  - unfold Enhanced.on_end. within_now.
  - unfold Enhanced.on_error. within_now.
  - unfold Enhanced.on_message. cbv zeta.
    eapply enhanced_within_trans; [|apply enhanced_within_reply_premium].
    eapply enhanced_within_trans; [|apply enhanced_within_reply_login].
    eapply enhanced_within_trans; [|apply enhanced_within_reply_register].
    within_now.
Qed.

Lemma enhanced_within_spawnBot e v : enhanced_within v (Enhanced.spawnBot e v).
Proof.
  unfold Enhanced.spawnBot, Enhanced.new_EnhancedBot, Enhanced.connect.
  within_now.
Qed.

Lemma enhanced_within_fire n e v : enhanced_within v (Enhanced.fire n e v).
Proof.
  unfold Enhanced.fire.
  destruct (Enhanced.pending v !! n) as [d|]; [|apply enhanced_within_refl].
  eapply enhanced_within_trans
    with (Enhanced.set_pending (delete n (Enhanced.pending v)) v);
    [within_now|].
  destruct d; [apply enhanced_within_spawnBot | within_now].
Qed.

Lemma enhanced_within_broadcast message v :
  enhanced_within v (snd (Enhanced.broadcast message v)).
Proof.
  unfold Enhanced.broadcast.
  destruct message as [|c message]; [apply enhanced_within_refl|].
  assert (H : forall refs start,
            enhanced_within (snd start)
              (snd (Enhanced.forEach_connected
                      (fun ref => Enhanced.sendChat ref (c :: message)) refs start))).
  { unfold Enhanced.forEach_connected.
    induction refs as [|ref refs IH]; intros [k x]; [apply enhanced_within_refl|].
    cbn [fold_left]. eapply enhanced_within_trans; [|apply IH]. cbn [snd].
    destruct (Enhanced.objs x !! ref) as [this|]; [|apply enhanced_within_refl].
    destruct (Enhanced.connected this); [|apply enhanced_within_refl].
    unfold Enhanced.sendChat. within_now. }
  specialize (H (Enhanced.bots v) (0, v)).
  destruct (Enhanced.forEach_connected _ _ _) as [k v']. cbn [snd] in *.
  eapply enhanced_within_trans; [exact H|]. within_now.
Qed.

Lemma enhanced_within_fold_disconnect refs : forall v,
  enhanced_within v (fold_left (fun v ref => Enhanced.disconnect ref v) refs v).
Proof.
  induction refs as [|ref refs IH]; intros v; [apply enhanced_within_refl|].
  cbn [fold_left]. eapply enhanced_within_trans; [|apply IH].
  unfold Enhanced.disconnect. within_now.
Qed.

Lemma enhanced_within_stopAll v : enhanced_within v (Enhanced.stopAll v).
Proof.
  unfold Enhanced.stopAll. cbv zeta.
  eapply enhanced_within_trans
    with (fold_left (fun v ref => Enhanced.disconnect ref v)
            (Enhanced.bots (Enhanced.print Enhanced.StoppingAll v))
            (Enhanced.print Enhanced.StoppingAll v)).
  - eapply enhanced_within_trans; [|apply enhanced_within_fold_disconnect].
    within_now.
  - within_now.
Qed.

Lemma enhanced_within_step v ev : enhanced_within v (Enhanced.step v ev).
Proof.
  destruct ev; cbn [Enhanced.step].
  - destruct (Enhanced.clients v !! h);
      [apply enhanced_within_listener | apply enhanced_within_refl].
  - apply enhanced_within_fire.
  - apply enhanced_within_broadcast.
  - apply enhanced_within_stopAll.
Qed.

Lemma enhanced_within_run evs : forall v, enhanced_within v (Enhanced.run v evs).
Proof.
  unfold Enhanced.run. induction evs as [|ev evs IH]; intros v; cbn [fold_left].
  - apply enhanced_within_refl.
  - eapply enhanced_within_trans; [apply enhanced_within_step | apply IH].
Qed.

(** X15. [botattack.js] opens at most one connection per bot and never
    reconnects: from the first call of [spawnBot] on, whatever events
    follow, [stats.sent] is the number of protocol clients created, which
    is at most the number of bots spawned. And when [config.maxBots] is a
    natural number, which is what [parseInt] gives for an argument
    written in digits, the number of bots spawned is at most [maxBots].
    (For an argument that [parseInt] reads as [NaN] the test
    [botIndex >= config.maxBots] never holds and the spawn loop has no
    bound; that case is not among the states of [Enhanced.init].) *)
Theorem enhanced_connects_once_per_bot
    (maxBots : nat) (delay : N) (allProxies workingProxies : list jsstring)
    (e : Enhanced.Env) (evs : list Enhanced.Event) :
  let v := Enhanced.run
             (Enhanced.spawnBot e
                (Enhanced.init maxBots delay allProxies workingProxies)) evs in
  Enhanced.sent (Enhanced.stats v) = length (Enhanced.clients v) /\
  length (Enhanced.clients v) <= Enhanced.botIndex v /\
  Enhanced.botIndex v <= maxBots.
Proof.
  cbv zeta.
  pose proof (enhanced_within_trans _ _ _
                (enhanced_within_spawnBot e
                   (Enhanced.init maxBots delay allProxies workingProxies))
                (enhanced_within_run evs _)) as (Hs & Hc & Hm & Hi).
  set (v := Enhanced.run _ evs) in *.
  unfold Enhanced.init in Hs, Hc, Hm, Hi. fields. cbn in Hs, Hc, Hi. lia.
Qed.

Lemma enhanced_fold_disconnect_frame refs : forall v,
  let v' := fold_left (fun v ref => Enhanced.disconnect ref v) refs v in
  Enhanced.pending v' = Enhanced.pending v /\
  Enhanced.botIndex v' = Enhanced.botIndex v /\
  Enhanced.maxBots v' = Enhanced.maxBots v /\
  Enhanced.delay v' = Enhanced.delay v /\
  Enhanced.workingProxies v' = Enhanced.workingProxies v /\
  Enhanced.clients v' = Enhanced.clients v /\
  Enhanced.stats v' = Enhanced.stats v.
Proof.
  induction refs as [|ref refs IH]; intros v; cbv zeta; [auto 10|].
  cbn [fold_left].
  destruct (IH (Enhanced.disconnect ref v)) as (-> & -> & -> & -> & -> & -> & ->).
  unfold Enhanced.disconnect. case_lookups; auto 10.
Qed.

(** X16. In [botattack.js], [stopAll] does not stop the spawn loop: it
    empties the pool and tells the clients to quit, but there is no
    running flag for [spawnBot] to look at. When the spawn timer fires
    after [stopAll] and bots are left to spawn, the next bot is made and
    becomes the only member of the pool, its connection is opened, and
    the next spawn timer is set. *)
Theorem enhanced_spawns_after_stopAll
    (v : Enhanced.World) (n : nat) (d : N) (e : Enhanced.Env) :
  Enhanced.pending v !! n = Some (Enhanced.SpawnTimer d) ->
  Enhanced.botIndex v < Enhanced.maxBots v ->
  let v' := Enhanced.fire n e (Enhanced.stopAll v) in
  Enhanced.bots (Enhanced.stopAll v) = [] /\
  Enhanced.bots v' = [Enhanced.botIndex v + 1] /\
  Enhanced.botIndex v' = Enhanced.botIndex v + 1 /\
  is_Some (Enhanced.objs v' !! (Enhanced.botIndex v + 1)) /\
  last (Enhanced.pending v') = Some (Enhanced.SpawnTimer (Enhanced.delay v)) /\
  (Enhanced.created e = true ->
   Enhanced.clients v' = Enhanced.clients v ++ [Enhanced.botIndex v + 1] /\
   Enhanced.sent (Enhanced.stats v') = S (Enhanced.sent (Enhanced.stats v))).
Proof.
  intros Hn Hroom. cbv zeta.
  assert (Hstop : Enhanced.bots (Enhanced.stopAll v) = [] /\
                  Enhanced.pending (Enhanced.stopAll v) = Enhanced.pending v /\
                  Enhanced.botIndex (Enhanced.stopAll v) = Enhanced.botIndex v /\
                  Enhanced.maxBots (Enhanced.stopAll v) = Enhanced.maxBots v /\
                  Enhanced.delay (Enhanced.stopAll v) = Enhanced.delay v /\
                  Enhanced.clients (Enhanced.stopAll v) = Enhanced.clients v /\
                  Enhanced.stats (Enhanced.stopAll v) = Enhanced.stats v).
  { unfold Enhanced.stopAll. cbv zeta. fields.
    destruct (enhanced_fold_disconnect_frame
                (Enhanced.bots (Enhanced.print Enhanced.StoppingAll v))
                (Enhanced.print Enhanced.StoppingAll v))
      as (Hp & Hi & Hm & Hd & _ & Hc & Hs).
    cbv zeta in *. rewrite Hp, Hi, Hm, Hd, Hc, Hs. auto 10. }
  destruct Hstop as (Hb & Hp & Hi & Hm & Hd & Hc & Hs).
  split; [exact Hb|].
  set (v1 := Enhanced.stopAll v) in *.
  unfold Enhanced.fire. rewrite Hp, Hn.
  unfold Enhanced.spawnBot. fields. rewrite Hm, Hi.
  rewrite (proj2 (Nat.leb_gt _ _) Hroom).
  unfold Enhanced.new_EnhancedBot, Enhanced.connect. enhanced_unfold. fields.
  rewrite lookup_insert_eq. fields.
  destruct (Enhanced.created e); destruct (Enhanced.assign_proxy _ _); fields;
    rewrite ?last_snoc, ?lookup_alter_eq, ?lookup_insert_eq, Hb, ?Hd, ?Hc, ?Hs,
      ?Hi;
    fields; cbn [app];
    (split; [reflexivity|]); (split; [reflexivity|]);
    (split; [eexists; reflexivity|]); (split; [reflexivity|]);
    intros Hcre; try discriminate; split; reflexivity.
Qed.

Lemma enhanced_spawns_after_stopAll_witness :
  let v := Enhanced.spawnBot enhanced_env (Enhanced.init 2 3000 [] []) in
  let v' := Enhanced.fire 0 enhanced_env (Enhanced.stopAll v) in
  Enhanced.bots (Enhanced.stopAll v) = [] /\
  Enhanced.bots v' = [2] /\
  Enhanced.clients v' = [1; 2].
Proof.
  intros v v'.
  assert (Hn : Enhanced.pending v !! 0 = Some (Enhanced.SpawnTimer 3000))
    by (vm_compute; reflexivity).
  assert (Hroom : Enhanced.botIndex v < Enhanced.maxBots v)
    by (vm_compute; lia).
  destruct (enhanced_spawns_after_stopAll v 0 3000 enhanced_env Hn Hroom)
    as (Hb & Hb' & _ & _ & _ & Hcl).
  destruct (Hcl eq_refl) as (Hcl' & _).
  split; [exact Hb|]. split; [exact Hb'|]. exact Hcl'.
Defined.

(** ** The operator's console *)

Lemma keyword_of_say c :
  c = js "say" \/ c = js "chat" -> Console.keyword_of c = Console.KSay.
Proof. intros [->| ->]; vm_compute; reflexivity. Qed.

Lemma keyword_of_cmd c :
  c = js "cmd" \/ c = js "command" -> Console.keyword_of c = Console.KCmd.
Proof. intros [->| ->]; vm_compute; reflexivity. Qed.

(** X17. [say] and [cmd] pass on the rest of the line as it was typed.
    The line is split at every space and the words after the first are
    joined with spaces again, which gives back the text after the first
    space, runs of spaces included. So for a first word without a space
    that lower-cases to [say] or [chat], [processCommand] broadcasts
    exactly the text after the first space, and for [cmd] or [command] it
    dispatches exactly that text. *)
Theorem say_passes_rest_of_line
    (command text : jsstring) (st : Console.State) :
  Console.space ∉ command ->
  (toLowerCase command = js "say" \/ toLowerCase command = js "chat" ->
   Console.processCommand (command ++ Console.space :: text) st =
   Console.broadcast text st) /\
  (toLowerCase command = js "cmd" \/ toLowerCase command = js "command" ->
   Console.processCommand (command ++ Console.space :: text) st =
   Console.executeCommand text st).
Proof.
  intros Hword. unfold Console.processCommand.
  rewrite split_app_sep by assumption. split; intros Hkey.
  - rewrite (keyword_of_say _ Hkey). now rewrite join_split.
  - rewrite (keyword_of_cmd _ Hkey). now rewrite join_split.
Qed.

Lemma say_passes_rest_of_line_witness :
  let st := Console.new_UltraCommandInterface ultra_one_active in
  Console.processCommand (js "SAY hello  there") st =
  Console.broadcast (js "hello  there") st.
Proof.
  intros st.
  assert (Hword : Console.space ∉ js "SAY").
  { apply (bool_decide_unpack _). vm_compute. exact I. }
  destruct (say_passes_rest_of_line (js "SAY") (js "hello  there") st Hword)
    as [Hsay _].
  apply Hsay. left. vm_compute. reflexivity.
Defined.

(** X18. The first word of a line decides, whatever follows it. For a
    first word that lower-cases to [help], [?], [stats], [list], [bots],
    [clear], [stop], [exit] or [quit], the rest of the line is ignored:
    the line does what the word alone does (so a chat line that starts
    with the word "stop" stops the pool instead of being broadcast). For
    [info] and [macro] only the word after the name is read. *)
Theorem first_word_decides
    (command arg rest : jsstring) (st : Console.State) :
  Console.space ∉ command ->
  (takes_no_argument (Console.keyword_of (toLowerCase command)) = true ->
   Console.processCommand (command ++ Console.space :: rest) st =
   Console.processCommand command st) /\
  (takes_one_word (Console.keyword_of (toLowerCase command)) = true ->
   Console.space ∉ arg ->
   Console.processCommand
     (command ++ Console.space :: arg ++ Console.space :: rest) st =
   Console.processCommand (command ++ Console.space :: arg) st).
Proof.
  intros Hword. unfold Console.processCommand. split.
  - intros Hkey.
    rewrite split_app_sep, (split_no_sep _ command) by assumption.
    destruct (Console.keyword_of (toLowerCase command));
      try discriminate; reflexivity.
  - intros Hkey Harg.
    rewrite !split_app_sep, (split_no_sep _ arg) by assumption.
    destruct (Console.keyword_of (toLowerCase command));
      try discriminate; reflexivity.
Qed.

Lemma first_word_decides_witness :
  let st := Console.new_UltraCommandInterface ultra_one_active in
  Console.processCommand (js "stop the music") st = Console.stopAll st.
Proof.
  intros st.
  assert (Hword : Console.space ∉ js "stop").
  { apply (bool_decide_unpack _). vm_compute. exact I. }
  destruct (first_word_decides (js "stop") [] (js "the music") st Hword)
    as [Hstop _].
  transitivity (Console.processCommand (js "stop") st).
  - apply Hstop. vm_compute. reflexivity.
  - reflexivity.
Defined.

Lemma trimStart_blank line : blank line -> trimStart line = [].
Proof.
  induction 1 as [|c line Hc _ IH]; [reflexivity|].
  cbn [trimStart]. now rewrite Hc.
Qed.

Lemma trimStart_not_blank line : not_blank line -> not_blank (trimStart line).
Proof.
  induction line as [|c line IH]; intros (x & Hx & Hws); [inversion Hx|].
  cbn [trimStart]. destruct (is_whitespace c) eqn:Hc.
  - apply IH. exists x. split; [|assumption].
    apply elem_of_cons in Hx as [->|Hx]; [congruence | assumption].
  - now exists x.
Qed.

Lemma trim_not_blank line : not_blank line -> trim line <> [].
Proof.
  intros Hline. unfold trim.
  assert (H : not_blank (trimStart (rev (trimStart line)))).
  { apply trimStart_not_blank. destruct (trimStart_not_blank _ Hline) as (x & Hx & Hws).
    exists x. split; [|assumption].
    apply list_elem_of_In, in_rev. rewrite rev_involutive.
    now apply list_elem_of_In. }
  destruct H as (x & Hx & _).
  destruct (trimStart (rev (trimStart line))); [inversion Hx | ].
  cbn [rev]. intros Hnil. now apply app_eq_nil in Hnil as [_ ?].
Qed.

Lemma processCommand_history input st :
  Console.commandHistory (Console.processCommand input st) =
  Console.commandHistory st.
Proof.
  unfold Console.processCommand.
  destruct (Proxies.split Console.space input) as [|command args]; [reflexivity|].
  destruct (Console.keyword_of (toLowerCase command)); try reflexivity.
  - unfold Console.showBotInfo. now destruct (find _ _).
  - unfold Console.executeMacro. destruct (head args) as [key|]; [|reflexivity].
    now destruct (Console.macros st !! key).
  - now destruct (startsWith input [Console.slash]).
Qed.

(** X19. A line of white space only (the empty line included) does
    nothing at all: it is not recorded and runs no command. Any other
    line is recorded in [commandHistory] exactly once and as it was
    typed, untrimmed, whatever command it runs. *)
Theorem blank_lines_do_nothing (line : jsstring) (st : Console.State) :
  (blank line -> Console.on_line line st = st) /\
  (not_blank line ->
   Console.commandHistory (Console.on_line line st) =
   Console.commandHistory st ++ [line]).
Proof.
  unfold Console.on_line. split.
  - intros Hblank. unfold trim. rewrite (trimStart_blank line Hblank).
    reflexivity.
  - intros Hline. pose proof (trim_not_blank line Hline) as Hne.
    destruct (trim line) as [|c rest]; [congruence|].
    now rewrite processCommand_history.
Qed.

Lemma blank_lines_do_nothing_witness :
  let st := Console.new_UltraCommandInterface ultra_one_active in
  Console.on_line (js "   ") st = st /\
  Console.commandHistory (Console.on_line (js " hi ") st) = [js " hi "].
Proof.
  intros st.
  destruct (blank_lines_do_nothing (js "   ") st) as [Hblank _].
  destruct (blank_lines_do_nothing (js " hi ") st) as [_ Hline].
  split.
  - apply Hblank. repeat constructor.
  - apply Hline. exists 104%N. split; [|reflexivity].
    apply (bool_decide_unpack _). vm_compute. exact I.
Defined.

Lemma fire_macro_steps macro : forall ts T st,
  Forall2 (fun t cmd => exists delay, t = Console.MacroStep cmd delay) ts macro ->
  Console.timers st = T ++ ts ->
  let st' := fold_left (fun st _ => Console.fire (length T) st) macro st in
  Console.world st' = macro_effect macro (Console.world st) /\
  Console.timers st' = T /\
  Console.screen st' = Console.screen st /\
  Console.commandHistory st' = Console.commandHistory st.
Proof.
  induction macro as [|cmd macro IH]; intros ts T st Hts Htimers; cbv zeta.
  - inversion Hts; subst. rewrite app_nil_r in Htimers. cbn. auto.
  - inversion Hts as [|t ? ts' ? (delay & ->) Hts']; subst.
    cbn [fold_left macro_effect].
    assert (Hfire : Console.fire (length T) st =
                    Console.macro_step cmd (Console.set_timers (T ++ ts') st)).
    { unfold Console.fire. rewrite Htimers, lookup_app_length, delete_app_length.
      reflexivity. }
    rewrite Hfire.
    destruct (IH ts' T (Console.macro_step cmd (Console.set_timers (T ++ ts') st)) Hts')
      as (Hw & Ht & Hs & Hh).
    { unfold Console.macro_step. now destruct (startsWith cmd [Console.slash]). }
    cbv zeta in *. rewrite Hw, Ht, Hs, Hh.
    unfold Console.macro_step, macro_effect.
    destruct (startsWith cmd [Console.slash]); auto.
Qed.

(** X20. A macro is run step by step. [executeMacro] of a name the
    interface knows changes nothing in the program at once: it sets one
    timer per step, the step of position i after i seconds. When these
    timers fire in order, each step that starts with a slash is
    dispatched as a command and every other step is broadcast, in the
    order of the macro, and no timer of the macro is left. *)
Theorem macro_runs_step_by_step
    (key : jsstring) (macro : list jsstring) (st : Console.State) :
  Console.macros st !! key = Some macro ->
  let st1 := Console.executeMacro (Some key) st in
  let k := length (Console.timers st) in
  let st2 := fold_left (fun st _ => Console.fire k st) macro st1 in
  Console.world st1 = Console.world st /\
  Console.timers st1 =
    Console.timers st ++
      imap (fun i cmd => Console.MacroStep cmd (N.of_nat i * 1000)) macro /\
  Console.world st2 = macro_effect macro (Console.world st) /\
  Console.timers st2 = Console.timers st.
Proof.
  intros Hkey. cbv zeta. unfold Console.executeMacro. rewrite Hkey. cbv zeta.
  split; [reflexivity|]. split; [reflexivity|].
  set (st1 := Console.set_timers _ _).
  destruct (fire_macro_steps macro
              (imap (fun i cmd => Console.MacroStep cmd (N.of_nat i * 1000)) macro)
              (Console.timers st) st1) as (Hw & Ht & _).
  - clear.
    assert (H : forall j,
              Forall2 (fun t cmd => exists delay, t = Console.MacroStep cmd delay)
                (imap (fun i cmd => Console.MacroStep cmd (N.of_nat (j + i) * 1000)) macro)
                macro).
    { induction macro as [|cmd macro IH]; intros j'; [constructor|].
      cbn [imap]. constructor; [eauto|].
      erewrite imap_ext; [apply (IH (S j'))|].
      intros i x _. cbn. repeat f_equal. lia. }
    exact (H 0).
  - reflexivity.
  - cbv zeta in *. split; assumption.
Qed.

Lemma macro_runs_step_by_step_witness :
  let st := Console.new_UltraCommandInterface ultra_one_active in
  let st1 := Console.executeMacro (Some (js "joinserver")) st in
  Console.timers st1 =
    [Console.MacroStep (js "/server survival") 0;
     Console.MacroStep (js "/server skyblock") 1000] /\
  Ultra.commandsExecuted
    (Ultra.stats (Console.world (Console.fire 0 (Console.fire 0 st1)))) = 2.
Proof.
  intros st st1.
  assert (Hkey : Console.macros st !! js "joinserver" =
                 Some [js "/server survival"; js "/server skyblock"])
    by (vm_compute; reflexivity).
  destruct (macro_runs_step_by_step (js "joinserver") _ st Hkey)
    as (_ & Ht & Hw & _).
  cbv zeta in Ht, Hw. split.
  - subst st1. rewrite Ht. vm_compute. reflexivity.
  - cbn [fold_left] in Hw. subst st1.
    change (length (Console.timers st)) with 0 in Hw.
    rewrite Hw. vm_compute. reflexivity.
Defined.

(** ** The server check *)

Lemma listener_after_resolved evs : forall s,
  ServerCheck.resolved s = true ->
  fold_left (fun s ev => ServerCheck.listener ev s) evs s = s.
Proof.
  induction evs as [|ev evs IH]; intros s Hs; [reflexivity|].
  cbn [fold_left]. unfold ServerCheck.listener at 2. rewrite Hs. now apply IH.
Qed.

(** X21. [checkServerStatus] settles once, on the first event of the
    socket. Whatever events the socket emits after the first (an
    ['error'] after a ['timeout'], say), [resolve] is called exactly once,
    with [true] if the first event is ['connect'] and [false] otherwise;
    one line is written by the spinner, and the socket is destroyed at
    most once. *)
Theorem server_check_settles_once
    (ev : ServerCheck.SocketEvent) (evs : list ServerCheck.SocketEvent) :
  let s := ServerCheck.checkServerStatus (ev :: evs) in
  let online := match ev with ServerCheck.Connect => true | _ => false end in
  ServerCheck.resolves s = [online] /\
  ServerCheck.isOnline s = Some online /\
  length (ServerCheck.spinner s) = 1 /\
  ServerCheck.destroyed s <= 1.
Proof.
  cbv zeta. unfold ServerCheck.checkServerStatus, ServerCheck.isOnline.
  cbn [fold_left].
  rewrite listener_after_resolved by (destruct ev; reflexivity).
  destruct ev; cbn; auto.
Qed.

(** ** Generated names *)

Lemma decimal_digit n : is_digit (48 + n mod 10) = true.
Proof.
  pose proof (N.mod_upper_bound n 10 ltac:(discriminate)) as H.
  unfold is_digit. revert H. generalize (n mod 10)%N. intros d H.
  apply andb_true_intro. split; apply N.leb_le; lia.
Qed.

Lemma decimal_loop_digits fuel : forall n acc,
  Forall (fun c => is_digit c = true) acc ->
  Forall (fun c => is_digit c = true) (Names.decimal_loop fuel n acc).
Proof.
  induction fuel as [|fuel IH]; intros n acc Hacc; [assumption|].
  cbn [Names.decimal_loop].
  assert (H : Forall (fun c => is_digit c = true) ((48 + n mod 10)%N :: acc))
    by (constructor; [apply decimal_digit | assumption]).
  destruct (N.ltb n 10); auto.
Qed.

Lemma decimal_loop_length fuel : forall k n acc,
  1 <= k <= fuel -> (n < 10 ^ N.of_nat k)%N ->
  1 + length acc <= length (Names.decimal_loop fuel n acc) <= k + length acc.
Proof.
  induction fuel as [|fuel IH]; intros k n acc Hk Hn; [lia|].
  cbn [Names.decimal_loop].
  destruct (N.ltb_spec n 10) as [Hlt|Hge]; [cbn [length]; lia|].
  destruct k as [|[|k]]; [lia| |].
  - change (10 ^ N.of_nat 1)%N with 10%N in Hn. lia.
  - assert (Hdiv : (n / 10 < 10 ^ N.of_nat (S k))%N).
    { apply N.Div0.div_lt_upper_bound.
      replace (N.of_nat (S (S k))) with (N.succ (N.of_nat (S k))) in Hn by lia.
      now rewrite N.pow_succ_r' in Hn. }
    specialize (IH (S k) (n / 10)%N ((48 + n mod 10)%N :: acc)
                  ltac:(lia) Hdiv).
    cbn [length] in IH. lia.
Qed.

(** X22. A generated username is one of the eight prefixes followed by
    the decimal digits of the number drawn, which is below 99999: between
    6 and 14 characters, all of them ASCII letters or digits. *)
Theorem generated_username_shape (pick : nat) (number : N) :
  pick < 8 -> (number < 99999)%N ->
  let name := Names.generateUsername pick number in
  (exists prefix,
     Names.prefixes !! pick = Some prefix /\
     name = prefix ++ Names.decimal number) /\
  Forall (fun c => is_digit c = true) (Names.decimal number) /\
  1 <= length (Names.decimal number) <= 5 /\
  6 <= length name <= 14 /\
  Forall (fun c => is_alnum c = true) name.
Proof.
  intros Hpick Hnumber. cbv zeta.
  assert (Hdigits : Forall (fun c => is_digit c = true) (Names.decimal number))
    by (apply decimal_loop_digits; constructor).
  assert (Hlen : 1 <= length (Names.decimal number) <= 5).
  { pose proof (decimal_loop_length 21 5 number [] ltac:(lia)) as H.
    cbn [length] in H. unfold Names.decimal.
    assert (number < 10 ^ N.of_nat 5)%N
      by (change (10 ^ N.of_nat 5)%N with 100000%N; lia).
    specialize (H ltac:(assumption)). lia. }
  assert (Halnum : Forall (fun c => is_alnum c = true) (Names.decimal number)).
  { eapply Forall_impl; [exact Hdigits|]. intros c Hc. unfold is_alnum.
    now rewrite Hc. }
  assert (Hprefixes :
            Forall (fun p => 5 <= length p <= 9 /\
                             Forall (fun c => is_alnum c = true) p)
              Names.prefixes)
    by (apply (bool_decide_unpack _); vm_compute; exact I).
  assert (Hlookup : exists prefix, Names.prefixes !! pick = Some prefix).
  { apply lookup_lt_is_Some. change (length Names.prefixes) with 8. lia. }
  destruct Hlookup as (prefix & Hprefix).
  rewrite Forall_lookup in Hprefixes.
  destruct (Hprefixes _ _ Hprefix) as (Hplen & Hpalnum).
  unfold Names.generateUsername. rewrite Hprefix.
  split; [exists prefix; split; reflexivity|].
  split; [assumption|]. split; [assumption|].
  rewrite length_app. split; [lia|].
  apply Forall_app. split; assumption.
Qed.

Lemma generated_username_shape_witness :
  Names.generateUsername 0 42 = js "Storm42" /\
  6 <= length (Names.generateUsername 0 42) <= 14.
Proof.
  destruct (generated_username_shape 0 42 ltac:(lia) ltac:(reflexivity))
    as (_ & _ & _ & Hlen & _).
  split; [vm_compute; reflexivity | exact Hlen].
Defined.

(** ** The arguments of [main] *)

(** The number a string of decimal digits stands for. *)
Lemma digit_value_decimal c :
  is_digit c = true -> Console.digit_value 10 c = Some (c - 48)%N.
Proof.
  intros Hc. unfold Console.digit_value. unfold is_digit in Hc. rewrite Hc.
  apply andb_true_iff in Hc as [H1 H2].
  apply N.leb_le in H1. apply N.leb_le in H2.
  destruct (N.ltb_spec (c - 48) 10); [reflexivity | lia].
Qed.

Lemma digits_prefix_snoc ds : forall acc d,
  Forall (fun c => is_digit c = true) ds -> is_digit d = true ->
  Console.digits_prefix 10 acc (ds ++ [d]) =
  Some (10 * match Console.digits_prefix 10 acc ds with
             | Some a => a
             | None => 0
             end + (d - 48))%N.
Proof.
  induction ds as [|c ds IH]; intros acc d Hds Hd.
  - cbn [app Console.digits_prefix]. now rewrite digit_value_decimal.
  - inversion Hds as [|? ? Hc Hds']; subst.
    cbn [app Console.digits_prefix]. rewrite digit_value_decimal by assumption.
    now apply IH.
Qed.

Lemma decimal_loop_acc fuel : forall n acc,
  Names.decimal_loop fuel n acc = Names.decimal_loop fuel n [] ++ acc.
Proof.
  induction fuel as [|fuel IH]; intros n acc; [reflexivity|].
  cbn [Names.decimal_loop]. destruct (N.ltb n 10); [reflexivity|].
  rewrite (IH _ (_ :: acc)), (IH _ [_]), <- app_assoc. reflexivity.
Qed.

Lemma digits_prefix_decimal fuel : forall n,
  (n < 10 ^ N.of_nat (S fuel))%N ->
  Console.digits_prefix 10 None (Names.decimal_loop (S fuel) n []) = Some n.
Proof.
  induction fuel as [|fuel IH]; intros n Hn.
  - change (10 ^ N.of_nat 1)%N with 10%N in Hn.
    cbn [Names.decimal_loop]. rewrite (proj2 (N.ltb_lt _ _) Hn).
    cbn [Console.digits_prefix]. rewrite digit_value_decimal by apply decimal_digit.
    rewrite N.mod_small by assumption. f_equal. lia.
  - remember (S fuel) as fuel' eqn:Hfuel.
    cbn [Names.decimal_loop]. destruct (N.ltb_spec n 10) as [Hlt|Hge].
    + cbn [Console.digits_prefix]. rewrite digit_value_decimal by apply decimal_digit.
      rewrite N.mod_small by assumption. f_equal. lia.
    + rewrite decimal_loop_acc.
      rewrite digits_prefix_snoc
        by (first [apply decimal_loop_digits; constructor | apply decimal_digit]).
      subst fuel'. rewrite IH.
      * f_equal. pose proof (N.div_mod n 10 ltac:(discriminate)) as Hdm.
        revert Hdm. generalize (n / 10)%N (n mod 10)%N. intros q r Hdm. lia.
      * apply N.Div0.div_lt_upper_bound.
        replace (N.of_nat (S (S fuel))) with (N.succ (N.of_nat (S fuel))) in Hn by lia.
        now rewrite N.pow_succ_r' in Hn.
Qed.

Lemma digit_cases c :
  is_digit c = true ->
  (c = 48 \/ c = 49 \/ c = 50 \/ c = 51 \/ c = 52 \/ c = 53 \/ c = 54 \/
   c = 55 \/ c = 56 \/ c = 57)%N.
Proof.
  unfold is_digit. intros Hc. apply andb_true_iff in Hc as [H1 H2].
  apply N.leb_le in H1. apply N.leb_le in H2. lia.
Qed.

(** An integer up to 2^53 is a double. *)
Lemma to_double_exact m :
  (m <= 2 ^ 53)%N -> Console.to_double m = Console.Finite m.
Proof.
  intros Hm. destruct (N.eq_dec m (2 ^ 53)%N) as [->|Hne]; [reflexivity|].
  destruct (N.eq_dec m 0%N) as [->|Hpos]; [reflexivity|].
  unfold Console.to_double. cbv zeta.
  assert (Hsize : (N.size m <= 53)%N).
  { rewrite N.size_log2 by assumption. apply N.le_succ_l.
    apply N.log2_lt_pow2; lia. }
  now rewrite (proj2 (N.leb_le _ _) Hsize).
Qed.

(** [parseInt] of a string of decimal digits reads all of them, in base
    10 and without a sign. *)
Lemma parseInt_digits ds :
  Forall (fun c => is_digit c = true) ds ->
  Console.parseInt (Some ds) =
  (fun v => (false, Console.to_double v)) <$> Console.digits_prefix 10 None ds.
Proof.
  intros Hds. destruct ds as [|c ds]; [reflexivity|].
  inversion Hds as [|? ? Hc Hds']; subst.
  destruct (digit_cases c Hc) as [->|[->|[->|[->|[->|[->|[->|[->|[->| ->]]]]]]]]];
    try reflexivity.
  destruct ds as [|d ds]; [reflexivity|].
  inversion Hds' as [|? ? Hd _]; subst.
  destruct (digit_cases d Hd) as [->|[->|[->|[->|[->|[->|[->|[->|[->| ->]]]]]]]]];
    reflexivity.
Qed.

(** X23. [main] reads its target back, as a Number. For a host name
    without a colon and a port of at most 20 digits written in decimal, the
    argument [host:port] gives that host and, as port, the double nearest
    to the number written: the number itself when it is at most 2^53, but
    9007199254740992 for 9007199254740993. An argument without a colon
    gives the whole argument as host and the port 25565; and [maxBots]
    and [delay] are 10 and 3000 when they are left out. *)
Theorem target_is_read_back
    (name version : jsstring) (number : N) :
  colon ∉ name -> (number < 10 ^ 20)%N ->
  (exists c,
     Config.read_args [name ++ colon :: Names.decimal number; version] = Some c /\
     Config.host c = Some name /\
     Config.port c = Some (false, Console.to_double number) /\
     ((number <= 2 ^ 53)%N ->
      Config.port c = Some (false, Console.Finite number)) /\
     Config.maxBots c = Some (false, Console.Finite 10) /\
     Config.delay c = Some (false, Console.Finite 3000)) /\
  (exists c,
     Config.read_args [name; version] = Some c /\
     Config.host c = Some name /\
     Config.port c = Some (false, Console.Finite 25565)) /\
  Console.to_double 9007199254740993 = Console.Finite 9007199254740992.
Proof.
  intros Hname Hnumber. unfold Config.read_args, Config.split_target.
  cbn [lookup list_lookup default].
  assert (Hdigits : Forall (fun c => is_digit c = true) (Names.decimal number))
    by (apply decimal_loop_digits; constructor).
  assert (Hplain : colon ∉ Names.decimal number).
  { intros Hin. rewrite Forall_forall in Hdigits.
    specialize (Hdigits _ Hin). discriminate. }
  split; [|split; [|reflexivity]].
  - assert (Hin : includes (name ++ colon :: Names.decimal number) [colon] = true).
    { apply includes_single, elem_of_app. right. left. }
    rewrite Hin, split_app_sep, (split_no_sep _ (Names.decimal number))
      by assumption.
    cbn [lookup list_lookup]. eexists. split; [reflexivity|].
    cbn [Config.host Config.port Config.maxBots Config.delay].
    split; [reflexivity|].
    assert (Hport : Console.parseInt (Some (Names.decimal number)) =
                    Some (false, Console.to_double number)).
    { rewrite parseInt_digits by assumption.
      unfold Names.decimal. rewrite digits_prefix_decimal; [reflexivity|].
      eapply N.lt_trans; [exact Hnumber|reflexivity]. }
    split; [exact Hport|]. split; [|split; reflexivity].
    intros Hsmall. now rewrite Hport, to_double_exact.
  - assert (Hout : includes name [colon] = false).
    { apply not_true_is_false. now rewrite includes_single. }
    rewrite Hout. eexists. split; [reflexivity|].
    cbn [Config.host Config.port]. split; reflexivity.
Qed.

Lemma target_is_read_back_witness :
  exists c,
    Config.read_args [js "localhost:25570"; js "1.20.1"] = Some c /\
    Config.host c = Some (js "localhost") /\
    Config.port c = Some (false, Console.Finite 25570).
Proof.
  assert (Hname : colon ∉ js "localhost")
    by (apply (bool_decide_unpack _); vm_compute; exact I).
  destruct (target_is_read_back (js "localhost") (js "1.20.1") 25570
              Hname ltac:(reflexivity))
    as ((c & Hc & Hhost & _ & Hport & _) & _).
  exists c. split; [exact Hc|]. split; [exact Hhost|].
  apply Hport. vm_compute. discriminate.
Defined.
